(** * The switchboard server of apps/server.c, embedded in Rocq

    The server keeps a fixed table of client slots, a routing table indexed
    by client id and channel, and per-slot caches of the last text seen on
    every output and input channel.  This file embeds the handlers of
    server.c as functions on an explicit server state together with the
    trace of system calls they issue, and proves the properties of the
    specification about them. *)

From Stdlib Require Import ZArith Ascii String Lia Bool.
From stdpp Require Import base tactics option list sorting.
From stdpp Require Import strings.

Local Open Scope Z_scope.

#[local] Arguments String.append !_ _ / : simpl nomatch.

(** ** Constants *)

Definition MAX_CLIENTS : Z := 20.
Definition CHANNELS_PER_APP : Z := 5.
Definition MAX_MSG_LENGTH : Z := 512.
Definition DEFAULT_MONITOR_FPS : Z := 2.
Definition INT_MAX : Z := 2147483647.
Definition INT_MIN : Z := -2147483648.

(** ** C strings

    A [string] stands for the bytes found from a [char *] onwards; the end
    of the Rocq string is where the zero fill of the C buffer begins.  A
    zero byte inside the string (possible in bytes taken from a socket)
    terminates the C string early, as it does for strchr and friends. *)

Module CStr.

Definition NUL : ascii := "000"%char.
Definition TAB : ascii := "009"%char.
Definition LF : ascii := "010"%char.
Definition VT : ascii := "011"%char.
Definition FF : ascii := "012"%char.
Definition CR : ascii := "013"%char.
Definition SP : ascii := " "%char.

(** The one-character string "\n". *)
Definition NL : string := String LF "".

Fixpoint take (n : nat) (s : string) : string :=
  match n, s with
  | S n', String c s' => String c (take n' s')
  | _, _ => ""
  end.

Fixpoint drop (n : nat) (s : string) : string :=
  match n, s with
  | S n', String _ s' => drop n' s'
  | _, _ => s
  end.

(** The C string that starts at [s]. *)
Fixpoint cstr (s : string) : string :=
  match s with
  | "" => ""
  | String c s' => if Ascii.eqb c NUL then "" else String c (cstr s')
  end.

Definition strlen (s : string) : nat := String.length (cstr s).

(** [strchr s c] for a non-zero [c]: the offset of the first [c] before the
    terminator. *)
Fixpoint strchr (s : string) (c : ascii) : option nat :=
  match s with
  | "" => None
  | String x s' =>
      if Ascii.eqb x c then Some O
      else if Ascii.eqb x NUL then None
      else option_map S (strchr s' c)
  end.

(** [*p = '\0'] for [p = strchr s c], when there is one. *)
Definition cut_at (c : ascii) (s : string) : string :=
  match strchr s c with
  | Some k => take k s
  | None => s
  end.

(** [strncmp a b n == 0]. *)
Definition strncmp_eq (a b : string) (n : nat) : bool :=
  String.eqb (take n (cstr a)) (take n (cstr b)).

(** [strcmp a b == 0]. *)
Definition strcmp_eq (a b : string) : bool := String.eqb (cstr a) (cstr b).

(** [s[n]], reading the terminator past the end. *)
Definition char_at (s : string) (n : nat) : ascii :=
  match String.get n s with
  | Some c => c
  | None => NUL
  end.

Definition code (c : ascii) : Z := Z.of_N (N_of_ascii c).

Definition isdigit (c : ascii) : bool := (48 <=? code c) && (code c <=? 57).

Definition isspace (c : ascii) : bool :=
  Ascii.eqb c SP || Ascii.eqb c TAB || Ascii.eqb c LF
  || Ascii.eqb c VT || Ascii.eqb c FF || Ascii.eqb c CR.

(** [strncpy(dst, src, n); dst[n] = '\0'] leaves in [dst] the first [n]
    bytes of the C string [src]. *)
Definition strncpy (src : string) (n : nat) : string := take n (cstr src).

(** [snprintf(dst, size, ...)] keeps at most [size - 1] bytes of the
    formatted text. *)
Definition snprintf (size : nat) (formatted : string) : string :=
  take (Nat.pred size) formatted.

(** *** Formatting of numbers *)

Definition digit_char (d : Z) : ascii := ascii_of_N (Z.to_N (48 + d)).

(** Decimal digits of a non-negative number; [fuel] bounds the number of
    digits, 10 for a 32-bit int and 19 for a 64-bit long. *)
Fixpoint udec (fuel : nat) (z : Z) : string :=
  match fuel with
  | O => ""
  | S f =>
      if z <? 10 then String (digit_char z) ""
      else udec f (z / 10) +:+ String (digit_char (z mod 10)) ""
  end.

(** ["%d"] *)
Definition fmt_d (z : Z) : string :=
  if z <? 0 then "-" +:+ udec 10 (- z) else udec 10 z.

(** ["%ld"] *)
Definition fmt_ld (z : Z) : string :=
  if z <? 0 then "-" +:+ udec 19 (- z) else udec 19 z.

Fixpoint replicate_char (n : nat) (c : ascii) : string :=
  match n with
  | O => ""
  | S n' => String c (replicate_char n' c)
  end.

(** Left padding to a minimum width. *)
Definition pad_left (w : nat) (c : ascii) (s : string) : string :=
  replicate_char (w - String.length s) c +:+ s.

(** Right padding to a minimum width. *)
Definition pad_right (w : nat) (s : string) : string :=
  s +:+ replicate_char (w - String.length s) SP.

(** ["%06ld"]: the sign counts towards the width. *)
Definition fmt_06ld (z : Z) : string :=
  if z <? 0 then "-" +:+ pad_left 5 "0"%char (udec 19 (- z))
  else pad_left 6 "0"%char (udec 19 z).

(** ["%-Ns"] *)
Definition fmt_s_left (w : nat) (s : string) : string := pad_right w (cstr s).

(** ["%-N.Ns"] *)
Definition fmt_s_left_prec (w p : nat) (s : string) : string :=
  pad_right w (take p (cstr s)).

(** ["%-Nd"] *)
Definition fmt_d_left (w : nat) (z : Z) : string := pad_right w (fmt_d z).

End CStr.

Import CStr.

(** ** Outcomes

    An execution of C code either runs to a result or leaves defined
    behaviour: an array accessed outside its bounds, a signed counter
    incremented past INT_MAX. *)

Inductive outcome (A : Type) : Type :=
| Defined (a : A)
| Undefined.

Arguments Defined {A} a.
Arguments Undefined {A}.

Definition bind {A B : Type} (m : outcome A) (k : A -> outcome B) : outcome B :=
  match m with
  | Defined a => k a
  | Undefined => Undefined
  end.

Notation "'let*' x := m 'in' k" := (bind m (fun x => k))
  (at level 10, x name, m at level 100, k at level 200).

Definition outcome_map {A B : Type} (f : A -> B) (m : outcome A) : outcome B :=
  let* a := m in Defined (f a).

(** [a[i]] as an rvalue and as an assignment target. *)
Definition arr_get {A : Type} (a : list A) (i : Z) : outcome A :=
  if 0 <=? i then
    match a !! Z.to_nat i with
    | Some x => Defined x
    | None => Undefined
    end
  else Undefined.

Definition arr_set {A : Type} (a : list A) (i : Z) (x : A) : outcome (list A) :=
  if (0 <=? i) && (i <? Z.of_nat (length a)) then Defined (<[Z.to_nat i := x]> a)
  else Undefined.

(** ** The server state *)

Record ClientInfo : Type := mkClientInfo {
  sockfd : Z;
  client_id : Z;
  active : bool;
  name : string
}.

Record Route : Type := mkRoute {
  in_client_id : Z;
  in_channel : Z
}.

Record ClientData : Type := mkClientData {
  last_out : list string;
  last_in : list string
}.

(** What the server does to the outside world. *)
Inductive event : Type :=
| Ev_write (fd : Z) (bytes : string)
| Ev_send (fd : Z) (bytes : string)
| Ev_close (fd : Z)
| Ev_printf (text : string)
| Ev_perror (text : string)
| Ev_mkdir (path : string)
| Ev_fopen (path : string) (ok : bool)
| Ev_fprintf (path : string) (text : string)
| Ev_fclose (path : string).

(** The four static objects of server.c and the trace of effects so far,
    oldest first. *)
Record server : Type := mkServer {
  client_data : list ClientData;
  clients : list ClientInfo;
  next_client_id : Z;
  routing : list (list Route);
  trace : list event
}.

Definition emit (st : server) (evs : list event) : server :=
  mkServer (client_data st) (clients st) (next_client_id st) (routing st)
           (trace st ++ evs).

Definition set_clients (st : server) (cl : list ClientInfo) : server :=
  mkServer (client_data st) cl (next_client_id st) (routing st) (trace st).

Definition set_client_data (st : server) (cd : list ClientData) : server :=
  mkServer cd (clients st) (next_client_id st) (routing st) (trace st).

Definition set_routing (st : server) (rt : list (list Route)) : server :=
  mkServer (client_data st) (clients st) (next_client_id st) rt (trace st).

Definition set_next_client_id (st : server) (n : Z) : server :=
  mkServer (client_data st) (clients st) n (routing st) (trace st).

(** The state after the three memset calls of main: clients and caches
    zeroed, every byte of the routing table 0xff, so both fields of every
    route read -1. *)
Definition init_server : server :=
  mkServer
    (replicate (Z.to_nat MAX_CLIENTS)
       (mkClientData (replicate (Z.to_nat CHANNELS_PER_APP) "")
                     (replicate (Z.to_nat CHANNELS_PER_APP) "")))
    (replicate (Z.to_nat MAX_CLIENTS) (mkClientInfo 0 0 false ""))
    1
    (replicate (Z.to_nat (MAX_CLIENTS + 1))
       (replicate (Z.to_nat CHANNELS_PER_APP) (mkRoute (-1) (-1))))
    [].

(** ** Looking up slots *)

(** The loops [for (i = 0; i < MAX_CLIENTS; i++) if (p(clients[i])) ...]
    that stop at the first hit; -1 when there is none. *)
Fixpoint find_slot (p : ClientInfo -> bool) (cl : list ClientInfo) (i : Z) : Z :=
  match cl with
  | [] => -1
  | c :: cl' => if p c then i else find_slot p cl' (i + 1)
  end.

Definition find_free_slot (st : server) : Z :=
  find_slot (fun c => negb (active c)) (clients st) 0.

Definition find_client_index (st : server) (cid : Z) : Z :=
  find_slot (fun c => active c && (client_id c =? cid)) (clients st) 0.

(** ** handle_new_connection

    [client_sock] is what accept returned. *)
Definition handle_new_connection (st : server) (client_sock : Z) : outcome server :=
  if client_sock <? 0 then Defined (emit st [Ev_perror "accept"])
  else
    let idx := find_free_slot st in
    if idx <? 0 then
      Defined (emit st [Ev_write client_sock ("Server full." +:+ NL);
                        Ev_close client_sock])
    else if next_client_id st =? INT_MAX then Undefined
    else
      let cid := next_client_id st in
      let nm := snprintf 64 ("Client" +:+ fmt_d cid) in
      let* cl := arr_set (clients st) idx (mkClientInfo client_sock cid true nm) in
      let greet :=
        snprintf 128 ("Welcome to Switchboard. You are client_id=" +:+ fmt_d cid
                      +:+ ", with 5 in / 5 out." +:+ NL) in
      Defined
        (emit (set_clients (set_next_client_id st (cid + 1)) cl)
           [Ev_write client_sock greet;
            Ev_printf ("Client " +:+ fmt_d cid +:+ " connected (slot="
                       +:+ fmt_d idx +:+ ")." +:+ NL)]).

(** ** handle_client_input *)

(** What recv left behind: the bytes it stored in the zeroed buffer, or a
    return value of 0 (end of stream) or -1 (error).  recv is asked for at
    most 511 bytes, so the stored bytes are never more. *)
Inductive recv_result : Type :=
| Recv_bytes (data : string)
| Recv_eof
| Recv_error.

Definition recv_count (r : recv_result) : Z :=
  match r with
  | Recv_bytes data => Z.of_nat (String.length data)
  | Recv_eof => 0
  | Recv_error => -1
  end.

Definition recv_buf (r : recv_result) : string :=
  match r with
  | Recv_bytes data => data
  | _ => ""
  end.

Definition trim_newline (s : string) : string := cut_at CR (cut_at LF s).

(** The channel named by a line [outN...], -1 for any other line. *)
Definition parse_out_ch (start : string) : Z :=
  if strncmp_eq start "out" 3 && isdigit (char_at start 3)
  then code (char_at start 3) - 48
  else -1.

Fixpoint skip_blanks (s : string) : string :=
  match s with
  | String c s' => if Ascii.eqb c SP || Ascii.eqb c TAB then skip_blanks s' else s
  | "" => ""
  end.

(** The text after the first colon, leading blanks skipped; empty when the
    line has no colon. *)
Definition message_of (start : string) : string :=
  match strchr start ":"%char with
  | Some k => skip_blanks (drop (S k) start)
  | None => ""
  end.

Definition set_last_out (cd : ClientData) (lo : list string) : ClientData :=
  mkClientData lo (last_in cd).

Definition set_last_in (cd : ClientData) (li : list string) : ClientData :=
  mkClientData (last_out cd) li.

(** [strncpy(client_data[i].last_out[ch], msg, MAX_MSG_LENGTH - 1)] and the
    terminator stored after it. *)
Definition record_output (st : server) (i ch : Z) (msg : string) : outcome server :=
  let* cd := arr_get (client_data st) i in
  let* lo := arr_set (last_out cd) ch (strncpy msg (Z.to_nat (MAX_MSG_LENGTH - 1))) in
  let* cds := arr_set (client_data st) i (set_last_out cd lo) in
  Defined (set_client_data st cds).

(** The same for [client_data[idx].last_in[ch]]. *)
Definition record_input (st : server) (idx ch : Z) (text : string) : outcome server :=
  let* cd := arr_get (client_data st) idx in
  let* li := arr_set (last_in cd) ch (strncpy text (Z.to_nat (MAX_MSG_LENGTH - 1))) in
  let* cds := arr_set (client_data st) idx (set_last_in cd li) in
  Defined (set_client_data st cds).

(** [routing[cid][ch]] as an rvalue. *)
Definition route_at (st : server) (cid ch : Z) : outcome Route :=
  let* row := arr_get (routing st) cid in
  arr_get row ch.

(** The line the dispatcher works on, after the carriage return is cut. *)
Definition frame_text (line : string) : string := trim_newline (cut_at CR line).

(** The message sent to the destination of a route. *)
Definition envelope (r : Route) (out_cid : Z) (msg : string) : string :=
  snprintf 600 ("in" +:+ fmt_d (in_channel r) +:+ " from client"
                +:+ fmt_d out_cid +:+ ": " +:+ cstr msg +:+ NL).

(** The body of the while loop for one line: [line] is the text between
    [start] and the newline that strchr found. *)
Definition dispatch_line (st : server) (i : Z) (line : string) : outcome server :=
  let start := frame_text line in
  let out_ch := parse_out_ch start in
  if (0 <=? out_ch) && (out_ch <? CHANNELS_PER_APP) then
    let msg := message_of start in
    let* st1 := record_output st i out_ch msg in
    let* ci := arr_get (clients st1) i in
    let out_cid := client_id ci in
    let* r := route_at st1 out_cid out_ch in
    if 0 <=? in_client_id r then
      let idx_in := find_client_index st1 (in_client_id r) in
      if 0 <=? idx_in then
        let* cin := arr_get (clients st1) idx_in in
        if active cin then
          let outbuf := envelope r out_cid msg in
          let st2 := emit st1 [Ev_send (sockfd cin) outbuf] in
          record_input st2 idx_in (in_channel r) outbuf
        else Defined st1
      else Defined st1
    else Defined st1
  else Defined st.

(** The while loop over the lines of the buffer.  Every round moves [start]
    past one newline, so a fuel above the length of the buffer is never
    used up ([dispatch_loop_fuel] below). *)
Fixpoint dispatch_loop (fuel : nat) (st : server) (i : Z) (start : string)
  : outcome server :=
  match fuel with
  | O => Defined st
  | S fuel' =>
      match strchr start LF with
      | None => Defined st
      | Some k =>
          let* st' := dispatch_line st i (take k start) in
          dispatch_loop fuel' st' i (drop (S k) start)
      end
  end.

Definition handle_client_input (st : server) (i : Z) (r : recv_result)
  : outcome server :=
  if recv_count r <=? 0 then
    let* ci := arr_get (clients st) i in
    let st1 := emit st [Ev_printf ("Client " +:+ fmt_d (client_id ci)
                                   +:+ " disconnected." +:+ NL);
                        Ev_close (sockfd ci)] in
    let* cl := arr_set (clients st1) i
                 (mkClientInfo (sockfd ci) (client_id ci) false (name ci)) in
    Defined (set_clients st1 cl)
  else dispatch_loop (S (String.length (recv_buf r))) st i (recv_buf r).

(** ** Routes *)

Definition write_route (st : server) (outCID outCH inCID inCH : Z) : outcome server :=
  let* row := arr_get (routing st) outCID in
  let* row' := arr_set row outCH (mkRoute inCID inCH) in
  let* rt := arr_set (routing st) outCID row' in
  Defined (set_routing st rt).

Definition route_command (st : server) (outCID outCH inCID inCH : Z) : outcome server :=
  let idxO := find_client_index st outCID in
  if idxO <? 0 then
    Defined (emit st [Ev_printf ("No such client " +:+ fmt_d outCID +:+ NL)])
  else
    let idxI := find_client_index st inCID in
    if idxI <? 0 then
      Defined (emit st [Ev_printf ("No such client " +:+ fmt_d inCID +:+ NL)])
    else
      let* st1 := write_route st outCID outCH inCID inCH in
      Defined (emit st1 [Ev_printf ("Routed client" +:+ fmt_d outCID +:+ " out"
                                    +:+ fmt_d outCH +:+ " -> client" +:+ fmt_d inCID
                                    +:+ " in" +:+ fmt_d inCH +:+ NL)]).

Definition route_command_from_file (st : server) (outCID outCH inCID inCH : Z)
  : outcome server :=
  let* st1 := write_route st outCID outCH inCID inCH in
  Defined (emit st1 [Ev_printf ("Preconfigured: client" +:+ fmt_d outCID +:+ " out"
                                +:+ fmt_d outCH +:+ " -> client" +:+ fmt_d inCID
                                +:+ " in" +:+ fmt_d inCH +:+ NL)]).

(** [for (int i = 0; i < CHANNELS_PER_APP; i++) body(i)] *)
Definition for_channels (body : server -> Z -> outcome server) (st : server)
  : outcome server :=
  foldl (fun acc i => let* s := acc in body s i) (Defined st)
        (seqZ 0 CHANNELS_PER_APP).

(** The four-way expansion shared by the console command and the startup
    file, over the function that installs one route. *)
Definition expand_route (route1 : server -> Z -> Z -> Z -> Z -> outcome server)
    (st : server) (outCID : Z) (outAll : bool) (fixedOut : Z)
    (inCID : Z) (inAll : bool) (fixedIn : Z) : outcome server :=
  if outAll && inAll then
    for_channels (fun s i => route1 s outCID i inCID i) st
  else if outAll && negb inAll then
    for_channels (fun s i => route1 s outCID i inCID fixedIn) st
  else if negb outAll && inAll then
    for_channels (fun s i => route1 s outCID fixedOut inCID i) st
  else route1 st outCID fixedOut inCID fixedIn.

(** ** Tokens and numbers *)

Fixpoint skip_delims (s : string) : string :=
  match s with
  | String c s' => if Ascii.eqb c SP then skip_delims s' else s
  | "" => ""
  end.

(** The token at the head of [s] and the position after its delimiter. *)
Fixpoint span_token (s : string) : string * string :=
  match s with
  | "" => ("", "")
  | String c s' =>
      if Ascii.eqb c NUL then ("", "")
      else if Ascii.eqb c SP then ("", s')
      else let (t, r) := span_token s' in (String c t, r)
  end.

(** One call of [strtok(_, " ")] at the saved position [s]: the token, if
    any, and the position saved for the next call. *)
Definition strtok (s : string) : option string * string :=
  let s1 := skip_delims s in
  match cstr s1 with
  | "" => (None, "")
  | _ => let (t, r) := span_token s1 in (Some t, r)
  end.

Fixpoint skip_space (s : string) : string :=
  match s with
  | String c s' => if isspace c then skip_space s' else s
  | "" => ""
  end.

Fixpoint digits_val (acc : Z) (s : string) : Z :=
  match s with
  | String c s' => if isdigit c then digits_val (acc * 10 + (code c - 48)) s' else acc
  | "" => acc
  end.

(** atoi: blanks, an optional sign, digits.  A value that does not fit an
    int is undefined behaviour. *)
Definition atoi (s : string) : outcome Z :=
  let s1 := skip_space s in
  let v :=
    match s1 with
    | String c s2 =>
        if Ascii.eqb c "-"%char then - digits_val 0 s2
        else if Ascii.eqb c "+"%char then digits_val 0 s2
        else digits_val 0 s1
    | "" => 0
    end in
  if (INT_MIN <=? v) && (v <=? INT_MAX) then Defined v else Undefined.

(** ** The console *)

Definition help_text : list string :=
  [ "Commands:" +:+ NL;
    " help                        - show this help" +:+ NL;
    " list                        - list connected clients" +:+ NL;
    " routes                      - list routing table" +:+ NL;
    " route X Y Z W               - connect clientX outY -> clientZ inW" +:+ NL;
    "   (Y and/or W can be 'all' to route multiple channels)" +:+ NL;
    " print <clientID>            - show last data for all channels of the given client" +:+ NL;
    " monitor [FPS]               - display real time output of all clients" +:+ NL;
    "                              Optional FPS sets update rate (default "
      +:+ fmt_d DEFAULT_MONITOR_FPS +:+ " FPS)." +:+ NL;
    "                              In monitor mode, press 'R' to toggle recording to CSV, 'Q' to quit." +:+ NL;
    " exit                        - shutdown the current tmux session (all windows)" +:+ NL;
    NL ].

Definition show_help (st : server) : server := emit st (map Ev_printf help_text).

Definition list_clients (st : server) : server :=
  emit st
    (Ev_printf ("Active clients:" +:+ NL)
     :: omap (fun c =>
                if active c then
                  Some (Ev_printf (" clientID=" +:+ fmt_d (client_id c)
                                   +:+ " sockfd=" +:+ fmt_d (sockfd c)
                                   +:+ " name=" +:+ cstr (name c) +:+ NL))
                else None)
             (clients st)).

(** The lines list_routes prints for one live client id. *)
Definition list_routes_of (st : server) (cid : Z) : outcome (list event) :=
  foldl (fun acc ch =>
           let* evs := acc in
           let* r := route_at st cid ch in
           if 0 <=? in_client_id r then
             Defined (evs ++ [Ev_printf (" client" +:+ fmt_d cid +:+ ".out" +:+ fmt_d ch
                                         +:+ " -> client" +:+ fmt_d (in_client_id r)
                                         +:+ ".in" +:+ fmt_d (in_channel r) +:+ NL)])
           else Defined evs)
        (Defined []) (seqZ 0 CHANNELS_PER_APP).

Definition list_routes (st : server) : outcome server :=
  foldl (fun acc cid =>
           let* s := acc in
           if find_client_index s cid <? 0 then Defined s
           else let* evs := list_routes_of s cid in Defined (emit s evs))
        (Defined (emit st [Ev_printf ("Routes:" +:+ NL)]))
        (seqZ 1 (next_client_id st - 1)).

(** The rows of [print <clientID>] for the slot [idx]. *)
Definition print_rows (st : server) (idx : Z) : outcome (list event) :=
  let* cd := arr_get (client_data st) idx in
  foldl (fun acc ch =>
           let* evs := acc in
           let* o := arr_get (last_out cd) ch in
           let* i := arr_get (last_in cd) ch in
           Defined (evs ++ [Ev_printf (fmt_d_left 8 ch +:+ " | " +:+ fmt_s_left_prec 50 50 o
                                       +:+ " | " +:+ fmt_s_left_prec 50 50 i +:+ NL)]))
        (Defined []) (seqZ 0 CHANNELS_PER_APP).

Definition print_command (st : server) (cmdline : string) : outcome server :=
  let '(_, s1) := strtok cmdline in
  let '(pClientID, _) := strtok s1 in
  match pClientID with
  | None => Defined (emit st [Ev_printf ("Usage: print <clientID>" +:+ NL)])
  | Some p =>
      let* clientID := atoi p in
      let idx := find_client_index st clientID in
      if idx <? 0 then
        Defined (emit st [Ev_printf ("No active client with clientID "
                                     +:+ fmt_d clientID +:+ NL)])
      else
        let* ci := arr_get (clients st) idx in
        let* rows := print_rows st idx in
        Defined (emit st
          ([Ev_printf ("Data for client" +:+ fmt_d clientID +:+ " (" +:+ cstr (name ci)
                       +:+ "):" +:+ NL);
            Ev_printf (fmt_s_left 8 "Channel" +:+ " | " +:+ fmt_s_left 50 "Output"
                       +:+ " | " +:+ fmt_s_left 50 "Input" +:+ NL);
            Ev_printf ("--------------------------------------------------------------------------------" +:+ NL)]
           ++ rows))
  end.

(** A channel argument of the console command that is not "all": digits,
    or the prefix followed by a digit; anything else leaves -1. *)
Definition console_channel (prefix p : string) : outcome Z :=
  if isdigit (char_at p 0) then atoi p
  else if strncmp_eq p prefix (String.length prefix)
          && isdigit (char_at p (String.length prefix))
  then Defined (code (char_at p (String.length prefix)) - 48)
  else Defined (-1).

Definition channel_out_of_range (all : bool) (fixed : Z) : bool :=
  negb all && ((fixed <? 0) || (CHANNELS_PER_APP <=? fixed)).

(** The route command once its four arguments are found. *)
Definition console_route_args (st : server) (pOutCID pOutStr pInCID pInStr : string)
  : outcome server :=
  let* outCID := atoi pOutCID in
  let* inCID := atoi pInCID in
  let outAll := strcmp_eq pOutStr "all" in
  let* fixedOut := if outAll then Defined (-1) else console_channel "out" pOutStr in
  let inAll := strcmp_eq pInStr "all" in
  let* fixedIn := if inAll then Defined (-1) else console_channel "in" pInStr in
  if channel_out_of_range outAll fixedOut then
    Defined (emit st [Ev_printf ("Invalid output channel. Must be 0.."
                                 +:+ fmt_d (CHANNELS_PER_APP - 1) +:+ " or 'all'" +:+ NL)])
  else if channel_out_of_range inAll fixedIn then
    Defined (emit st [Ev_printf ("Invalid input channel. Must be 0.."
                                 +:+ fmt_d (CHANNELS_PER_APP - 1) +:+ " or 'all'" +:+ NL)])
  else expand_route route_command st outCID outAll fixedOut inCID inAll fixedIn.

Definition console_route (st : server) (cmdline : string) : outcome server :=
  let '(_, s1) := strtok cmdline in
  let '(pOutCID, s2) := strtok s1 in
  let '(pOutStr, s3) := strtok s2 in
  let '(pInCID, s4) := strtok s3 in
  let '(pInStr, _) := strtok s4 in
  match pOutCID, pOutStr, pInCID, pInStr with
  | Some pOutCID, Some pOutStr, Some pInCID, Some pInStr =>
      console_route_args st pOutCID pOutStr pInCID pInStr
  | _, _, _, _ =>
      Defined (emit st [Ev_printf ("Usage: route <outCID> <outCH|all> <inCID> <inCH|all>" +:+ NL)])
  end.

(** The fps argument of the monitor command. *)
Definition monitor_fps (cmdline : string) : outcome Z :=
  let '(_, s1) := strtok cmdline in
  let '(arg, _) := strtok s1 in
  match arg with
  | Some a => let* temp := atoi a in
              Defined (if 0 <? temp then temp else DEFAULT_MONITOR_FPS)
  | None => Defined DEFAULT_MONITOR_FPS
  end.

(** How the event loop goes on after a console line: with the next round,
    into monitor mode, or out of the process (the exit command hands over
    to tmux, which is not part of the model). *)
Inductive control : Type :=
| Ctl_continue
| Ctl_monitor (fps : Z)
| Ctl_exit.

(** [line] is what fgets stored, [None] at end of input.  In server.c the
    function itself calls monitor_mode for the monitor command and
    shutdown_tmux for exit, as the last thing it does.  Here it returns the
    control value and the caller makes that call with what the call finds
    in its environment: [server_step] and [main_round] below. *)
Definition handle_console_input (st : server) (line : option string)
  : outcome (control * server) :=
  match line with
  | None => Defined (Ctl_continue, st)
  | Some l =>
      let cmdline := trim_newline l in
      if strcmp_eq cmdline "" then Defined (Ctl_continue, st)
      else if strcmp_eq cmdline "help" then Defined (Ctl_continue, show_help st)
      else if strcmp_eq cmdline "list" then Defined (Ctl_continue, list_clients st)
      else if strcmp_eq cmdline "routes" then
        let* s := list_routes st in Defined (Ctl_continue, s)
      else if strcmp_eq cmdline "exit" then Defined (Ctl_exit, st)
      else if strncmp_eq cmdline "monitor" 7 then
        let* fps := monitor_fps cmdline in Defined (Ctl_monitor fps, st)
      else if strncmp_eq cmdline "print" 5 then
        let* s := print_command st cmdline in Defined (Ctl_continue, s)
      else if strncmp_eq cmdline "route" 5 then
        let* s := console_route st cmdline in Defined (Ctl_continue, s)
      else Defined (Ctl_continue,
                    emit st [Ev_printf ("Unknown command: " +:+ cstr cmdline +:+ NL)])
  end.

(** ** The startup route loader *)

(** A channel argument of a file line that is not "all"; [None] where the
    loader reports an invalid channel. *)
Definition file_channel (prefix p : string) : outcome (option Z) :=
  if isdigit (char_at p 0) then let* v := atoi p in Defined (Some v)
  else if strncmp_eq p prefix (String.length prefix)
          && isdigit (char_at p (String.length prefix))
  then Defined (Some (code (char_at p (String.length prefix)) - 48))
  else Defined None.

(** The locals of process_routing_file that live across lines. *)
Record loader : Type := mkLoader {
  ld_server : server;
  all_success : bool;
  cmd_count : Z
}.

Definition loader_fail (ld : loader) (cnt : Z) (msg : string) : loader :=
  mkLoader (emit (ld_server ld) [Ev_printf (msg +:+ NL)]) false cnt.

(** A route line of the file once its four arguments are found; [cnt] is
    the command count including this line. *)
Definition loader_route_args (ld : loader) (cnt : Z)
    (pOutCID pOutStr pInCID pInStr : string) : outcome loader :=
  let* outCID := atoi pOutCID in
  let* inCID := atoi pInCID in
  let outAll := strcmp_eq pOutStr "all" in
  let* fo := if outAll then Defined (Some (-1)) else file_channel "out" pOutStr in
  match fo with
  | None => Defined (loader_fail ld cnt "Invalid output channel in routing file.")
  | Some fixedOut =>
      let inAll := strcmp_eq pInStr "all" in
      let* fi := if inAll then Defined (Some (-1)) else file_channel "in" pInStr in
      match fi with
      | None => Defined (loader_fail ld cnt "Invalid input channel in routing file.")
      | Some fixedIn =>
          if channel_out_of_range outAll fixedOut then
            Defined (loader_fail ld cnt
              ("Invalid output channel value in routing file. Must be 0.."
               +:+ fmt_d (CHANNELS_PER_APP - 1) +:+ " or 'all'"))
          else if channel_out_of_range inAll fixedIn then
            Defined (loader_fail ld cnt
              ("Invalid input channel value in routing file. Must be 0.."
               +:+ fmt_d (CHANNELS_PER_APP - 1) +:+ " or 'all'"))
          else
            let* st' := expand_route route_command_from_file (ld_server ld)
                          outCID outAll fixedOut inCID inAll fixedIn in
            Defined (mkLoader st' (all_success ld) cnt)
      end
  end.

(** One round of the fgets loop; [raw] is what fgets stored. *)
Definition process_routing_line (ld : loader) (raw : string) : outcome loader :=
  let line := trim_newline raw in
  if (Nat.eqb (strlen line) 0) || negb (strncmp_eq line "route" 5) then Defined ld
  else
    let cnt := cmd_count ld + 1 in
    let '(token, s1) := strtok line in
    match token with
    | None => Defined (loader_fail ld cnt "Invalid command in routing file.")
    | Some tok =>
        if negb (strcmp_eq tok "route") then
          Defined (loader_fail ld cnt "Invalid command in routing file.")
        else
          let '(pOutCID, s2) := strtok s1 in
          let '(pOutStr, s3) := strtok s2 in
          let '(pInCID, s4) := strtok s3 in
          let '(pInStr, _) := strtok s4 in
          match pOutCID, pOutStr, pInCID, pInStr with
          | Some pOutCID, Some pOutStr, Some pInCID, Some pInStr =>
              loader_route_args ld cnt pOutCID pOutStr pInCID pInStr
          | _, _, _, _ => Defined (loader_fail ld cnt "Incomplete routing command in file.")
          end
    end.

(** [file] is the sequence of lines fgets reads from route.rt, [None] when
    the file cannot be opened; [again] is the same for the second fopen that
    echoes the file. *)
Definition process_routing_file (st : server) (file again : option (list string))
  : outcome server :=
  match file with
  | None => Defined (emit st [Ev_printf ("Routing file 'route.rt' not found." +:+ NL)])
  | Some lines =>
      let* ld := foldl (fun acc raw => let* l := acc in process_routing_line l raw)
                       (Defined (mkLoader st true 0)) lines in
      if negb (all_success ld) || (cmd_count ld =? 0) then
        Defined (emit (ld_server ld)
                   [Ev_printf ("Error processing routing file or no valid commands found." +:+ NL)])
      else
        match again with
        | Some echo =>
            Defined (emit (ld_server ld)
                       (Ev_printf ("Routing file executed successfully. Contents of 'route.rt':" +:+ NL)
                        :: map (fun l => Ev_printf (cstr l)) echo))
        | None => Defined (ld_server ld)
        end
  end.

(** ** Monitor mode *)

Record timeval : Type := mkTimeval {
  tv_sec : Z;
  tv_usec : Z
}.

(** The locals of monitor_mode that live across rounds of its loop.  The
    stream [log_file] is the path it was opened on. *)
Record monitor : Type := mkMonitor {
  fps : Z;
  start_time : timeval;
  recording : bool;
  log_file : option string;
  log_filename : string;
  recorded_client_indices : list Z
}.

(** What one round of the loop finds: the result of select, the sockets it
    reports readable with what recv then returns, the key read from the
    terminal (if stdin is readable and read returns a byte), the name stamp
    strftime produces, whether fopen succeeds, and the clock at the point
    where a row is written. *)
Record tick : Type := mkTick {
  select_ret : Z;
  readable : Z -> option recv_result;
  key : option ascii;
  stamp : string;
  fopen_ok : bool;
  now : timeval
}.

(** The double quote character as a string. *)
Definition DQ : string := String "034"%char "".

Definition quoted (s : string) : string := DQ +:+ s +:+ DQ.

(** The loops over the slots that hand every readable live client to
    handle_client_input. *)
Definition poll_clients (st : server) (ready : Z -> option recv_result)
  : outcome server :=
  foldl (fun acc i =>
           let* s := acc in
           let* ci := arr_get (clients s) i in
           match ready i with
           | Some r => if active ci then handle_client_input s i r else Defined s
           | None => Defined s
           end)
        (Defined st) (seqZ 0 MAX_CLIENTS).

(** The indices of the live slots, in slot order. *)
Fixpoint active_indices (cl : list ClientInfo) (i : Z) : list Z :=
  match cl with
  | [] => []
  | c :: cl' => if active c then i :: active_indices cl' (i + 1)
                else active_indices cl' (i + 1)
  end.

(** Column [ch] of recorded client number [j] is the last one of a row. *)
Definition last_column (count : nat) (j : nat) (ch : Z) : bool :=
  Nat.eqb j (count - 1) && (ch =? CHANNELS_PER_APP - 1).

Definition header_cell (st : server) (count j : nat) (idx ch : Z) : outcome string :=
  let* ci := arr_get (clients st) idx in
  Defined ("client" +:+ fmt_d (client_id ci) +:+ "_ch" +:+ fmt_d ch
           +:+ (if last_column count j ch then "" else ",")).

Fixpoint blank_newlines (s : string) : string :=
  match s with
  | "" => ""
  | String c s' =>
      String (if Ascii.eqb c LF || Ascii.eqb c CR then SP else c) (blank_newlines s')
  end.

Definition data_cell (st : server) (count j : nat) (idx ch : Z) : outcome string :=
  let* cd := arr_get (client_data st) idx in
  let* o := arr_get (last_out cd) ch in
  let data := blank_newlines (strncpy o (Z.to_nat (MAX_MSG_LENGTH - 1))) in
  Defined (quoted data +:+ (if last_column count j ch then "" else ",")).

(** The cells of a row: for every recorded client, in order, one cell per
    channel. *)
Definition row_cells (cell : nat -> nat -> Z -> Z -> outcome string)
    (indices : list Z) : outcome string :=
  foldl (fun acc ji =>
           foldl (fun acc' ch =>
                    let* text := acc' in
                    let* c := cell (length indices) (fst ji) (snd ji) ch in
                    Defined (text +:+ c))
                 acc (seqZ 0 CHANNELS_PER_APP))
        (Defined "") (zip (seq 0 (length indices)) indices).

(** [now - start], the microseconds brought back into range by a borrow. *)
Definition timeval_delta (now start : timeval) : timeval :=
  let sec := tv_sec now - tv_sec start in
  let usec := tv_usec now - tv_usec start in
  if usec <? 0 then mkTimeval (sec - 1) (usec + 1000000) else mkTimeval sec usec.

(** The first column of a data row. *)
Definition row_timestamp (m : monitor) (now : timeval) : string :=
  let delta := timeval_delta now (start_time m) in
  quoted (fmt_ld (tv_sec delta) +:+ "." +:+ fmt_06ld (tv_usec delta)).

(** monitor_mode before its loop; [t0] is what gettimeofday returns there. *)
Definition monitor_enter (fps : Z) (t0 : timeval) : monitor :=
  mkMonitor fps t0 false None "" [].

(** The key R. *)
Definition toggle_recording (m : monitor) (st : server) (t : tick)
  : outcome (monitor * server) :=
  if recording m then
    Defined (mkMonitor (fps m) (start_time m) false None (log_filename m)
                       (recorded_client_indices m),
             emit st match log_file m with
                     | Some f => [Ev_fclose f]
                     | None => []
                     end)
  else
    let fname := snprintf 256 ("logs/monitor_" +:+ cstr (stamp t) +:+ ".csv") in
    if fopen_ok t then
      let indices := active_indices (clients st) 0 in
      let* cells := row_cells (header_cell st) indices in
      Defined (mkMonitor (fps m) (start_time m) true (Some fname) fname indices,
               emit st [Ev_mkdir "logs"; Ev_fopen fname true;
                        Ev_fprintf fname ("timestamp," +:+ cells +:+ NL)])
    else
      Defined (mkMonitor (fps m) (start_time m) false None fname
                         (recorded_client_indices m),
               emit st [Ev_mkdir "logs"; Ev_fopen fname false;
                        Ev_perror "fopen for log file"]).

(** The row appended while recording. *)
Definition record_row (m : monitor) (st : server) (t : tick) : outcome server :=
  match recording m, log_file m with
  | true, Some f =>
      let* cells := row_cells (data_cell st) (recorded_client_indices m) in
      Defined (emit st [Ev_fprintf f (row_timestamp m (now t) +:+ "," +:+ cells +:+ NL)])
  | _, _ => Defined st
  end.

Definition is_key (k : option ascii) (upper lower : ascii) : bool :=
  match k with
  | Some ch => Ascii.eqb ch upper || Ascii.eqb ch lower
  | None => false
  end.

(** One round of the loop of monitor_mode; the flag tells whether the loop
    goes on.  The redraw of the screen is not part of the model. *)
Definition monitor_tick (m : monitor) (st : server) (t : tick)
  : outcome (bool * monitor * server) :=
  if select_ret t <? 0 then
    Defined (false, m, emit st [Ev_perror "select in monitor_mode"])
  else
    let* st1 := poll_clients st (readable t) in
    let quit := is_key (key t) "Q"%char "q"%char in
    let* ms :=
      if negb quit && is_key (key t) "R"%char "r"%char
      then toggle_recording m st1 t
      else Defined (m, st1) in
    let* st2 := record_row (fst ms) (snd ms) t in
    Defined (negb quit, fst ms, st2).

(** The loop of monitor_mode over the rounds it gets to run, and the code
    after the loop. *)
Fixpoint monitor_loop (m : monitor) (st : server) (ticks : list tick)
  : outcome (monitor * server) :=
  match ticks with
  | [] => Defined (m, st)
  | t :: ticks' =>
      let* r := monitor_tick m st t in
      if fst (fst r) then monitor_loop (snd (fst r)) (snd r) ticks'
      else Defined (snd (fst r), snd r)
  end.

Definition monitor_exit (m : monitor) (st : server) : server :=
  emit st (match log_file m with
           | Some f => [Ev_fclose f]
           | None => []
           end ++ [Ev_printf ("Exiting monitor mode." +:+ NL)]).

Definition monitor_mode (st : server) (fps : Z) (t0 : timeval) (ticks : list tick)
  : outcome server :=
  let st0 := emit st [Ev_printf ("Entering monitor mode at " +:+ fmt_d fps +:+ " FPS." +:+ NL
                                 +:+ "Press 'Q' to quit, 'R' to toggle recording." +:+ NL)] in
  let* r := monitor_loop (monitor_enter fps t0) st0 ticks in
  Defined (monitor_exit (fst r) (snd r)).

(** ** The event loop

    The loop of main hands every readiness event to one of the handlers.
    An input is one such call: a pending connection with what accept
    returns, a readable client slot with what recv returns, or a console
    line; a console line that enters monitor mode comes with the clock
    reading and the rounds of the monitor loop that follow it. *)

Inductive input : Type :=
| In_accept (client_sock : Z)
| In_client (i : Z) (r : recv_result)
| In_console (line : option string) (t0 : timeval) (ticks : list tick).

(** The loops call handle_client_input for slots that are in use only. *)
Definition slot_active (st : server) (i : Z) : bool :=
  match arr_get (clients st) i with
  | Defined ci => active ci
  | Undefined => false
  end.

(** One handler call; the flag tells whether the process goes on. *)
Definition server_step (st : server) (inp : input) : outcome (bool * server) :=
  match inp with
  | In_accept client_sock =>
      let* s := handle_new_connection st client_sock in Defined (true, s)
  | In_client i r =>
      if slot_active st i then
        let* s := handle_client_input st i r in Defined (true, s)
      else Defined (true, st)
  | In_console line t0 ticks =>
      let* cs := handle_console_input st line in
      match fst cs with
      | Ctl_continue => Defined (true, snd cs)
      | Ctl_monitor fps =>
          let* s := monitor_mode (snd cs) fps t0 ticks in Defined (true, s)
      | Ctl_exit => Defined (false, snd cs)
      end
  end.

Fixpoint run (st : server) (inputs : list input) : outcome server :=
  match inputs with
  | [] => Defined st
  | inp :: rest =>
      let* r := server_step st inp in
      if fst r then run (snd r) rest else Defined (snd r)
  end.

(** The states the server can be in: main zeroes the tables, loads
    route.rt and enters the loop. *)
Definition reachable (st : server) : Prop :=
  exists file again inputs s0,
    process_routing_file init_server file again = Defined s0 /\
    run s0 inputs = Defined st.

(** A sequence of console lines, each handled as it arrives. *)
Definition console_seq (st : server) (lines : list string) : outcome server :=
  foldl (fun acc l =>
           let* s := acc in
           let* cs := handle_console_input s (Some l) in
           Defined (snd cs))
        (Defined st) lines.

(** A sequence of lines of the startup file. *)
Definition loader_seq (ld : loader) (lines : list string) : outcome loader :=
  foldl (fun acc raw => let* l := acc in process_routing_line l raw) (Defined ld) lines.

(** ** main and shutdown_tmux

    The entry point with what it finds in its environment: its argument,
    the calls that set up the listening socket, the file route.rt and the
    rounds of its select loop. *)

Definition SERVER_PORT : Z := 12345.

(** The port main listens on; [arg] is argv[1] when there is one.  The
    conversion of what atoi returns to unsigned short keeps it modulo
    65536. *)
Definition server_port (arg : option string) : outcome Z :=
  match arg with
  | None => Defined SERVER_PORT
  | Some a =>
      let* v := atoi a in
      let temp := v mod 65536 in
      Defined (if 0 <? temp then temp else SERVER_PORT)
  end.

(** [fgets(buf, size, stream)] on a stream with the bytes [s] left: the
    bytes up to and with the first newline, [size - 1] of them at most;
    [None] at the end of the stream. *)
Fixpoint fgets_bytes (n : nat) (s : string) : string :=
  match n, s with
  | S n', String c s' => String c (if Ascii.eqb c LF then "" else fgets_bytes n' s')
  | _, _ => ""
  end.

Definition fgets (size : nat) (s : string) : option string :=
  match s with
  | "" => None
  | _ => Some (fgets_bytes (Nat.pred size) s)
  end.

(** What shutdown_tmux does to the outside world. *)
Inductive tmux_step : Type :=
| Tm_popen (command : string)
| Tm_pclose
| Tm_perror (text : string)
| Tm_stderr (text : string)
| Tm_printf (text : string)
| Tm_system (command : string)
| Tm_exit (status : Z).

(** shutdown_tmux: [pipe] is what the tmux command prints, [None] when
    popen fails; [system_ret] is what system returns.  The flag tells
    whether the process has exited. *)
Definition shutdown_tmux (pipe : option string) (system_ret : Z)
  : list tmux_step * bool :=
  match pipe with
  | None => ([Tm_popen "tmux display-message -p '#S'"; Tm_perror "popen"], false)
  | Some out =>
      match fgets 64 out with
      | None =>
          ([Tm_popen "tmux display-message -p '#S'"; Tm_pclose;
            Tm_stderr ("Failed to get tmux session name." +:+ NL)], false)
      | Some line =>
          let session_name := trim_newline line in
          let cmd := snprintf 128 ("tmux kill-session -t " +:+ cstr session_name) in
          ([Tm_popen "tmux display-message -p '#S'"; Tm_pclose;
            Tm_printf ("Executing: " +:+ cmd +:+ NL); Tm_system cmd]
           ++ (if system_ret =? 0 then []
               else [Tm_stderr ("tmux kill-session command failed with code "
                                +:+ fmt_d system_ret +:+ "." +:+ NL)])
           ++ [Tm_exit 0], true)
      end
  end.

(** What the calls that set up the listening socket return. *)
Record listener : Type := mkListener {
  socket_ret : Z;
  bind_ret : Z;
  listen_ret : Z
}.

(** What one round of the loop of main finds: the result of select; what
    accept returns, when the listening socket is readable; the slots whose
    sockets select reports readable, with what recv then returns; the line
    fgets stores, when the console is readable; and what a monitor or an
    exit command typed there goes on to find. *)
Record round : Type := mkRound {
  rd_select : Z;
  rd_accept : option Z;
  rd_ready : Z -> option recv_result;
  rd_console : option (option string);
  rd_clock : timeval;
  rd_ticks : list tick;
  rd_pipe : option string;
  rd_system : Z
}.

(** How a round ends: with the next round, with the break after a failed
    select, or with the exit of the process in shutdown_tmux. *)
Inductive round_end : Type :=
| Round_next
| Round_break
| Round_exit.

(** One round of the loop of main.  A slot filled by this round's accept
    was not in the set select looked at, so it is not read in this round. *)
Definition main_round (st : server) (rd : round)
  : outcome (round_end * list tmux_step * server) :=
  if rd_select rd <? 0 then Defined (Round_break, [], emit st [Ev_perror "select"])
  else
    let* st1 := match rd_accept rd with
                | Some client_sock => handle_new_connection st client_sock
                | None => Defined st
                end in
    let* st2 := poll_clients st1 (fun i => if slot_active st i then rd_ready rd i else None) in
    match rd_console rd with
    | None => Defined (Round_next, [], st2)
    | Some line =>
        let* cs := handle_console_input st2 line in
        match fst cs with
        | Ctl_continue => Defined (Round_next, [], snd cs)
        | Ctl_monitor fps =>
            let* s := monitor_mode (snd cs) fps (rd_clock rd) (rd_ticks rd) in
            Defined (Round_next, [], s)
        | Ctl_exit =>
            let sh := shutdown_tmux (rd_pipe rd) (rd_system rd) in
            Defined (if snd sh then Round_exit else Round_next, fst sh, snd cs)
        end
    end.

(** The loop of main over the rounds it gets to run. *)
Fixpoint main_loop (st : server) (rounds : list round)
  : outcome (round_end * list tmux_step * server) :=
  match rounds with
  | [] => Defined (Round_next, [], st)
  | rd :: rest =>
      let* r := main_round st rd in
      match fst (fst r) with
      | Round_next =>
          let* r' := main_loop (snd r) rest in
          Defined (fst (fst r'), snd (fst r) ++ snd (fst r'), snd r')
      | _ => Defined r
      end
  end.

(** How main stands after the rounds it was given: still in its loop,
    returned, or exited. *)
Inductive ending : Type :=
| Still_running
| Returned (status : Z)
| Exited (status : Z).

Definition main (arg : option string) (ls : listener)
    (file again : option (list string)) (rounds : list round)
  : outcome (ending * list tmux_step * server) :=
  let* port := server_port arg in
  let server_fd := socket_ret ls in
  if server_fd <? 0 then Defined (Returned 1, [], emit init_server [Ev_perror "socket"])
  else if bind_ret ls <? 0 then
    Defined (Returned 1, [], emit init_server [Ev_perror "bind"; Ev_close server_fd])
  else if listen_ret ls <? 0 then
    Defined (Returned 1, [], emit init_server [Ev_perror "listen"; Ev_close server_fd])
  else
    let st0 := emit init_server
                 [Ev_printf ("Switchboard Server listening on port " +:+ fmt_d port
                             +:+ "." +:+ NL);
                  Ev_printf ("Type 'help' for commands." +:+ NL)] in
    let* st1 := process_routing_file st0 file again in
    let* r := main_loop st1 rounds in
    match fst (fst r) with
    | Round_next => Defined (Still_running, snd (fst r), snd r)
    | Round_break => Defined (Returned 0, snd (fst r), emit (snd r) [Ev_close server_fd])
    | Round_exit => Defined (Exited 0, snd (fst r), snd r)
    end.

(** ** Vocabulary of the properties *)

(** Every byte of the string satisfies [p]. *)
Fixpoint str_forall (p : ascii -> bool) (s : string) : bool :=
  match s with
  | "" => true
  | String c s' => p c && str_forall p s'
  end.

Definition differs (c x : ascii) : bool := negb (Ascii.eqb x c).

(** Text that can travel inside one frame: no terminator and no newline. *)
Definition line_text (s : string) : bool :=
  str_forall (fun x => differs LF x && differs NUL x) s.

(** The text [outc: X] of an output frame, without its newline. *)
Definition out_frame (c : Z) (X : string) : string :=
  "out" +:+ fmt_d c +:+ ": " +:+ X.

(** What the dispatcher keeps of the text [X] that follows "outc: " on a
    line: the part before the first carriage return, leading blanks
    skipped. *)
Definition payload_of (X : string) : string := skip_blanks (cut_at CR X).

(** A payload that the dispatcher passes on as it stands: frame text with
    no carriage return that does not begin with a blank. *)
Definition payload_ok (X : string) : bool :=
  str_forall (fun x => differs LF x && differs NUL x && differs CR x) X
  && String.eqb (skip_blanks X) X.

(** A read is made of complete frames when it is empty or ends in a
    newline. *)
Fixpoint complete_frames (s : string) : bool :=
  match s with
  | "" => true
  | String c s' =>
      match s' with
      | "" => Ascii.eqb c LF
      | _ => complete_frames s'
      end
  end.

(** A word of a command line: not empty, no space, no terminator, no line
    end. *)
Definition is_token (s : string) : bool :=
  negb (String.eqb s "")
  && str_forall (fun x => differs SP x && differs NUL x && differs LF x && differs CR x) s.

(** The text [route A s1 B s2] as fgets stores it. *)
Definition route_line (pA s1 pB s2 : string) : string :=
  "route " +:+ pA +:+ " " +:+ s1 +:+ " " +:+ pB +:+ " " +:+ s2 +:+ NL.

(** What a run of the loader leaves behind, apart from its count of
    commands: the server and the success flag. *)
Definition loader_tables (ld : loader) : server * bool := (ld_server ld, all_success ld).

(** The cached texts of a slot. *)
Definition out_cache (st : server) (i ch : Z) : outcome string :=
  let* cd := arr_get (client_data st) i in
  arr_get (last_out cd) ch.

Definition in_cache (st : server) (i ch : Z) : outcome string :=
  let* cd := arr_get (client_data st) i in
  arr_get (last_in cd) ch.

(** Client [cid] is connected. *)
Definition live (st : server) (cid : Z) : Prop :=
  exists i ci, arr_get (clients st) i = Defined ci /\ active ci = true /\ client_id ci = cid.

(** Client [cid] was connected once and is gone. *)
Definition retired (st : server) (cid : Z) : Prop :=
  cid < next_client_id st /\ ~ live st cid.

(** The inputs that can change the routing table: console lines that begin
    with the word route. *)
Definition route_input (inp : input) : bool :=
  match inp with
  | In_console (Some l) _ _ => strncmp_eq (trim_newline l) "route" 5
  | _ => false
  end.

(** ** Invariants *)

(** The tables have the sizes of their C declarations. *)
Record wf (st : server) : Prop := mk_wf {
  wf_clients : length (clients st) = Z.to_nat MAX_CLIENTS;
  wf_client_data : length (client_data st) = Z.to_nat MAX_CLIENTS;
  wf_caches :
    Forall (fun cd => length (last_out cd) = Z.to_nat CHANNELS_PER_APP
                      /\ length (last_in cd) = Z.to_nat CHANNELS_PER_APP)
           (client_data st);
  wf_routing : length (routing st) = Z.to_nat (MAX_CLIENTS + 1);
  wf_rows : Forall (fun row => length row = Z.to_nat CHANNELS_PER_APP) (routing st)
}.

(** Identifiers start at 1, are handed out in increasing order, and two
    live slots never share one. *)
Record ids_ok (st : server) : Prop := mk_ids_ok {
  ids_next : 1 <= next_client_id st;
  ids_positive : Forall (fun c => active c = true -> 1 <= client_id c) (clients st);
  ids_below : Forall (fun c => client_id c < next_client_id st) (clients st);
  ids_distinct : forall i j ci cj,
      arr_get (clients st) i = Defined ci -> arr_get (clients st) j = Defined cj ->
      active ci = true -> active cj = true -> client_id ci = client_id cj -> i = j
}.

(** Every route that names a destination names one of its five input
    channels. *)
Definition routes_ok (st : server) : Prop :=
  forall a c r, route_at st a c = Defined r -> 0 <= in_client_id r ->
                0 <= in_channel r < CHANNELS_PER_APP.

(** The invariant of the event loop. *)
Record inv (st : server) : Prop := mk_inv {
  inv_wf : wf st;
  inv_ids : ids_ok st;
  inv_routes : routes_ok st
}.

(** A handler that leaves the registry alone. *)
Definition quiet (st st' : server) : Prop :=
  clients st' = clients st /\ next_client_id st' = next_client_id st /\
  (wf st -> wf st') /\ (routes_ok st -> routes_ok st').

(** What every handler keeps. *)
Definition preserves (st st' : server) : Prop :=
  (inv st -> inv st') /\ (forall cid, retired st cid -> retired st' cid).

(** The routing table is the same in both states. *)
Definition same_routes (st st' : server) : Prop := routing st' = routing st.

(** What stays true of the locals of monitor_mode: the start time is the
    one taken on entry, and a recording has an open log file. *)
Definition monitor_ok (t0 : timeval) (m : monitor) : Prop :=
  start_time m = t0 /\ (recording m = true -> exists f, log_file m = Some f).

(** ** Sample states *)

(** The server after start-up without a route.rt file. *)
Definition booted : server :=
  emit init_server [Ev_printf ("Routing file 'route.rt' not found." +:+ NL)].

(** Two clients have connected on the sockets 4 and 5. *)
Definition two_clients : server :=
  Eval vm_compute in
    match run booted [In_accept 4; In_accept 5] with
    | Defined s => s
    | Undefined => booted
    end.

(** The entries of the first two slots of [two_clients]. *)
Definition client1 : ClientInfo := mkClientInfo 4 1 true "Client1".
Definition client2 : ClientInfo := mkClientInfo 5 2 true "Client2".

(** The operator has then typed [route 1 0 2 0]. *)
Definition two_clients_routed : server :=
  Eval vm_compute in
    match run two_clients
            [In_console (Some (route_line "1" "0" "2" "0")) (mkTimeval 0 0) []] with
    | Defined s => s
    | Undefined => two_clients
    end.

(** Or else client 1 has sent [out0: hello] with no route configured. *)
Definition one_spoke : server :=
  Eval vm_compute in
    match run two_clients [In_client 0 (Recv_bytes ("out0: hello" +:+ NL))] with
    | Defined s => s
    | Undefined => two_clients
    end.

(** Twenty clients connect on the sockets 4 to 23, and the registry is
    full. *)
Definition twenty_accepts : list input := map In_accept (seqZ 4 MAX_CLIENTS).

Definition full_registry : server :=
  Eval vm_compute in
    match run booted twenty_accepts with
    | Defined s => s
    | Undefined => booted
    end.

(** A round of the monitor loop in which the operator presses R, 300.25
    seconds after monitor mode was entered at second 100. *)
Definition tick_toggle : tick :=
  mkTick 1 (fun _ => None) (Some "R"%char) "20250101_120000" true (mkTimeval 400 250000).

(** ** Vocabulary of the further properties *)

(** Text that can stand between the channel digit and the colon of a
    frame: no colon, no line end, no terminator. *)
Definition filler (w : string) : bool :=
  str_forall (fun x => differs ":"%char x && differs LF x && differs CR x && differs NUL x) w.

(** Every client that is connected in the first state either sits in the
    same slot with the same entry in the second, or is gone for good. *)
Definition keeps_slots (st st' : server) : Prop :=
  forall i ci, arr_get (clients st) i = Defined ci -> active ci = true ->
               arr_get (clients st') i = Defined ci \/ retired st' (client_id ci).

Definition stable (st st' : server) : Prop :=
  preserves st st' /\ (inv st -> keeps_slots st st').

(** Every channel that has a destination in the first state has one in the
    second. *)
Definition keeps_routes (st st' : server) : Prop :=
  forall a c r, route_at st a c = Defined r -> 0 <= in_client_id r ->
                exists r', route_at st' a c = Defined r' /\ 0 <= in_client_id r'.

Definition lasting (st st' : server) : Prop :=
  preserves st st' /\ (inv st -> keeps_routes st st').

(** The second state has the trace of the first and then events that all
    satisfy [P]. *)
Definition grows (P : event -> Prop) (st st' : server) : Prop :=
  exists evs, trace st' = trace st ++ evs /\ Forall P evs.

(** The events a client handler causes: what it sends, what it prints and
    the socket it closes. *)
Definition client_event (ev : event) : bool :=
  match ev with
  | Ev_send _ _ | Ev_printf _ | Ev_close _ => true
  | _ => false
  end.

(** The use of log files along a sequence of events, from the file that is
    open at its start to the one that is open at its end: a file is opened
    only while none is open, written and closed only while it is the open
    one.  [None] when the sequence breaks this discipline. *)
Fixpoint log_protocol (open : option string) (evs : list event) : option (option string) :=
  match evs with
  | [] => Some open
  | Ev_fopen f true :: evs' =>
      match open with
      | None => log_protocol (Some f) evs'
      | Some _ => None
      end
  | Ev_fprintf f _ :: evs' =>
      match open with
      | Some g => if String.eqb f g then log_protocol open evs' else None
      | None => None
      end
  | Ev_fclose f :: evs' =>
      match open with
      | Some g => if String.eqb f g then log_protocol None evs' else None
      | None => None
      end
  | _ :: evs' => log_protocol open evs'
  end.

(** Between its start and its end monitor mode accepts nobody: who is
    connected in the second state was connected in the first, in the same
    slot with the same entry. *)
Definition only_releases (st st' : server) : Prop :=
  next_client_id st' = next_client_id st /\ routing st' = routing st /\
  length (clients st') = length (clients st) /\
  forall i ci', arr_get (clients st') i = Defined ci' -> active ci' = true ->
                arr_get (clients st) i = Defined ci'.

(** The columns of a line of the log file after the time stamp: for every
    recorded slot, in the order of recording, its five channels. *)
Fixpoint columns (indices : list Z) : list (Z * Z) :=
  match indices with
  | [] => []
  | idx :: rest => ((fun ch => (idx, ch)) <$> seqZ 0 CHANNELS_PER_APP) ++ columns rest
  end.

(** The text of a column in the header line and in a data line. *)
Definition header_text (st : server) (col : Z * Z) : outcome string :=
  let* ci := arr_get (clients st) (fst col) in
  Defined ("client" +:+ fmt_d (client_id ci) +:+ "_ch" +:+ fmt_d (snd col)).

Definition data_text (st : server) (col : Z * Z) : outcome string :=
  let* o := out_cache st (fst col) (snd col) in
  Defined (quoted (blank_newlines (strncpy o (Z.to_nat (MAX_MSG_LENGTH - 1))))).

(** A cell as the loops print it: the text, and a comma unless the column
    is the last one of the line. *)
Definition cell_of (text : Z * Z -> outcome string) (count j : nat) (idx ch : Z)
  : outcome string :=
  let* t := text (idx, ch) in
  Defined (t +:+ (if last_column count j ch then "" else ",")).

(** No byte of the string ends a line. *)
Definition one_line (s : string) : bool :=
  str_forall (fun x => differs LF x && differs CR x) s.



(** What can follow inside a word of a command line: no space, no
    terminator, no line end.  The empty string qualifies. *)
Definition word_tail (w : string) : bool :=
  str_forall (fun x => differs SP x && differs NUL x && differs LF x && differs CR x) w.

(** The line the routes command prints for the entry [r] of channel [c] of
    client [a]. *)
Definition route_text (a c : Z) (r : Route) : string :=
  " client" +:+ fmt_d a +:+ ".out" +:+ fmt_d c +:+ " -> client" +:+ fmt_d (in_client_id r)
  +:+ ".in" +:+ fmt_d (in_channel r) +:+ NL.

(** An entry of the routing table with its place: the source client, the
    output channel and the route stored there; the line that the routes
    command prints for it; and the order of the table, by source client and
    then by channel. *)
Definition entry_text (e : Z * Z * Route) : string :=
  route_text (fst (fst e)) (snd (fst e)) (snd e).

Definition route_before (x y : Z * Z * Route) : Prop :=
  fst (fst x) < fst (fst y) \/ (fst (fst x) = fst (fst y) /\ snd (fst x) < snd (fst y)).

(** What can follow the command word on a console line: no terminator and
    no line end. *)
Definition arguments (rest : string) : bool :=
  str_forall (fun x => differs NUL x && differs LF x && differs CR x) rest.

(** ** Further sample states *)

(** The locals of monitor mode while a recording of the first two slots
    runs. *)
Definition recording_two : monitor :=
  mkMonitor 2 (mkTimeval 100 0) true (Some "logs/monitor_20250101_120000.csv")
            "logs/monitor_20250101_120000.csv" [0; 1].

(** The operator starts the server as [server 8080] with a route.rt of one
    line; two clients connect in the first two rounds, and in the third
    client 1 speaks while the operator lists the routes. *)
Definition sample_rounds : list round :=
  [ mkRound 1 (Some 4) (fun _ => None) None (mkTimeval 0 0) [] None 0;
    mkRound 1 (Some 5) (fun _ => None) None (mkTimeval 0 0) [] None 0;
    mkRound 2 None
      (fun i => if i =? 0 then Some (Recv_bytes ("out0: hello" +:+ NL)) else None)
      (Some (Some ("routes" +:+ NL))) (mkTimeval 0 0) [] None 0 ].

Definition sample_main : server :=
  Eval vm_compute in
    match main (Some "8080") (mkListener 3 0 0)
               (Some [route_line "1" "0" "2" "0"]) (Some [route_line "1" "0" "2" "0"])
               sample_rounds with
    | Defined r => snd r
    | Undefined => init_server
    end.

(** A round of the monitor loop in which the client of slot 1 closes its
    connection, and one in which the operator presses Q. *)
Definition tick_leave : tick :=
  mkTick 1 (fun i => if i =? 1 then Some Recv_eof else None) None "" true (mkTimeval 400 0).

Definition tick_quit : tick :=
  mkTick 1 (fun _ => None) (Some "Q"%char) "" true (mkTimeval 401 0).

(** The server after a stay in monitor mode with a recording. *)
Definition monitored : server :=
  Eval vm_compute in
    match monitor_mode two_clients 2 (mkTimeval 100 0) [tick_toggle; tick_leave; tick_quit] with
    | Defined s => s
    | Undefined => two_clients
    end.

(** A route.rt of three lines whose second line names channel 9: the
    loader before that line, after it, and at the end of the file. *)
Definition loader_before : loader :=
  Eval vm_compute in
    match loader_seq (mkLoader init_server true 0) [route_line "1" "0" "2" "0"] with
    | Defined l => l
    | Undefined => mkLoader init_server true 0
    end.

Definition loader_after : loader :=
  Eval vm_compute in
    match process_routing_line loader_before (route_line "1" "9" "2" "0") with
    | Defined l => l
    | Undefined => loader_before
    end.

Definition loader_end : loader :=
  Eval vm_compute in
    match loader_seq loader_after [route_line "2" "0" "1" "0"] with
    | Defined l => l
    | Undefined => loader_after
    end.

(* ================================================================ *)
(** * Properties *)

(** ** Arrays *)

Lemma arr_get_Defined {A} (a : list A) i x :
  arr_get a i = Defined x <-> 0 <= i /\ a !! Z.to_nat i = Some x.
Proof.
  unfold arr_get. destruct (Z.leb_spec 0 i).
  - destruct (a !! Z.to_nat i) eqn:E; split; intros H'; try discriminate.
    + inversion H'; subst. auto.
    + destruct H' as [_ H']. congruence.
    + destruct H' as [_ H']. congruence.
  - split; [discriminate | intros [? _]; lia].
Qed.

Lemma arr_get_in_range {A} (a : list A) i :
  0 <= i < Z.of_nat (length a) -> exists x, arr_get a i = Defined x.
Proof.
  intros H. destruct (lookup_lt_is_Some_2 a (Z.to_nat i)) as [x Hx]; [lia|].
  exists x. apply arr_get_Defined. split; [lia | done].
Qed.

Lemma arr_get_range {A} (a : list A) i x :
  arr_get a i = Defined x -> 0 <= i < Z.of_nat (length a).
Proof.
  intros [H1 H2]%arr_get_Defined. apply lookup_lt_Some in H2. lia.
Qed.

Lemma arr_set_Defined {A} (a : list A) i x a' :
  arr_set a i x = Defined a' <->
  0 <= i < Z.of_nat (length a) /\ a' = <[Z.to_nat i := x]> a.
Proof.
  unfold arr_set.
  destruct (Z.leb_spec 0 i), (Z.ltb_spec i (Z.of_nat (length a))); simpl;
    split; intros H'; try discriminate; try lia.
  - inversion H'. split; [lia | done].
  - destruct H' as [_ ->]. done.
Qed.

Lemma arr_set_in_range {A} (a : list A) i x :
  0 <= i < Z.of_nat (length a) -> arr_set a i x = Defined (<[Z.to_nat i := x]> a).
Proof. intros H. apply arr_set_Defined. done. Qed.

Lemma arr_set_length {A} (a : list A) i x a' :
  arr_set a i x = Defined a' -> length a' = length a.
Proof. intros [_ ->]%arr_set_Defined. apply length_insert. Qed.

Lemma arr_get_set_eq {A} (a : list A) i x a' :
  arr_set a i x = Defined a' -> arr_get a' i = Defined x.
Proof.
  intros [H ->]%arr_set_Defined. apply arr_get_Defined. split; [lia|].
  apply list_lookup_insert_eq. lia.
Qed.

Lemma arr_get_set_ne {A} (a : list A) i j x a' :
  arr_set a i x = Defined a' -> i <> j -> arr_get a' j = arr_get a j.
Proof.
  intros [H ->]%arr_set_Defined Hne. unfold arr_get.
  destruct (Z.leb_spec 0 j); [|done].
  rewrite list_lookup_insert_ne; [done | lia].
Qed.

(** ** Strings *)

Lemma length_append a b : String.length (a +:+ b) = (String.length a + String.length b)%nat.
Proof. induction a as [|x a IH]; simpl; auto. Qed.

Lemma append_assoc a b c : (a +:+ b) +:+ c = a +:+ (b +:+ c).
Proof. induction a as [|x a IH]; simpl; [done | by rewrite IH]. Qed.

Lemma append_empty_r a : a +:+ "" = a.
Proof. induction a as [|x a IH]; simpl; [done | by rewrite IH]. Qed.

Lemma length_NL : String.length NL = 1%nat.
Proof. reflexivity. Qed.

Lemma take_0 s : take 0 s = "".
Proof. by destruct s. Qed.

Lemma take_all n s : (String.length s <= n)%nat -> take n s = s.
Proof.
  revert n; induction s; intros [|n] H; simpl in *; try done; try lia.
  f_equal. apply IHs. lia.
Qed.

Lemma take_app_length a b : take (String.length a) (a +:+ b) = a.
Proof. induction a as [|x a IH]; simpl; [by destruct b | by rewrite IH]. Qed.

Lemma take_app_lt k a b : (k <= String.length a)%nat -> take k (a +:+ b) = take k a.
Proof.
  revert a; induction k as [|k IH]; intros a H.
  - by rewrite !take_0.
  - destruct a as [|x a]; simpl in *; [lia|]. f_equal. apply IH. lia.
Qed.

Lemma drop_0 s : drop 0 s = s.
Proof. by destruct s. Qed.

Lemma drop_length n s : String.length (drop n s) = (String.length s - n)%nat.
Proof. revert s; induction n; intros [|c s]; simpl; auto. Qed.

Lemma drop_app_length a c b : drop (S (String.length a)) (a +:+ String c b) = b.
Proof. induction a as [|x a IH]; simpl; auto. Qed.

Lemma drop_app_le k a b : (k <= String.length a)%nat -> drop k (a +:+ b) = drop k a +:+ b.
Proof.
  revert a; induction k as [|k IH]; intros a H.
  - by rewrite !drop_0.
  - destruct a as [|x a]; simpl in *; [lia|]. apply IH. lia.
Qed.

Lemma length_take_le n s : (String.length (take n s) <= String.length s)%nat.
Proof. revert s; induction n; intros [|c s]; simpl; try lia. specialize (IHn s). lia. Qed.

Lemma str_forall_impl (p q : ascii -> bool) s :
  (forall x, p x = true -> q x = true) -> str_forall p s = true -> str_forall q s = true.
Proof.
  intros Hpq. induction s as [|x s IH]; simpl; [done|].
  intros [H1 H2]%andb_prop. rewrite Hpq, IH; done.
Qed.

Lemma str_forall_app p a b :
  str_forall p (a +:+ b) = str_forall p a && str_forall p b.
Proof. induction a as [|x a IH]; simpl; [done|]. by rewrite IH, andb_assoc. Qed.

Lemma str_forall_and p q s :
  str_forall (fun x => p x && q x) s = str_forall p s && str_forall q s.
Proof.
  induction s as [|x s IH]; simpl; [done|]. rewrite IH.
  destruct (p x), (q x), (str_forall p s), (str_forall q s); done.
Qed.

Lemma str_forall_take p n s : str_forall p s = true -> str_forall p (take n s) = true.
Proof.
  revert s; induction n as [|n IH]; intros [|x s]; simpl; try done.
  intros [H1 H2]%andb_prop. by rewrite H1, IH.
Qed.

Lemma str_forall_skip_blanks p s :
  str_forall p s = true -> str_forall p (skip_blanks s) = true.
Proof.
  induction s as [|x s IH]; simpl; [done|].
  intros H. destruct (_ || _); [|exact H]. apply andb_prop in H as [_ H]. by apply IH.
Qed.

Lemma cstr_plain s : str_forall (differs NUL) s = true -> cstr s = s.
Proof.
  induction s as [|x s IH]; simpl; [done|]. unfold differs at 1.
  intros [H1 H2]%andb_prop. apply negb_true_iff in H1. rewrite H1, IH; done.
Qed.

Lemma strchr_app_found s c rest :
  str_forall (fun x => differs c x && differs NUL x) s = true ->
  strchr (s +:+ String c rest) c = Some (String.length s).
Proof.
  induction s as [|x s IH]; simpl.
  - intros _. by rewrite Ascii.eqb_refl.
  - unfold differs at 1 2. intros [[H1 H2]%andb_prop H3]%andb_prop.
    apply negb_true_iff in H1, H2. rewrite H1, H2, IH by done. done.
Qed.

Lemma strchr_app_l a b c k : strchr a c = Some k -> strchr (a +:+ b) c = Some k.
Proof.
  revert k; induction a as [|x a IH]; simpl; [done|]. intros k.
  destruct (Ascii.eqb x c); [done|]. destruct (Ascii.eqb x NUL); [done|].
  destruct (strchr a c) as [k'|]; simpl; [|done]. intros [= <-].
  by rewrite (IH k').
Qed.

Lemma strchr_absent s c :
  str_forall (differs c) s = true -> strchr s c = None.
Proof.
  induction s as [|x s IH]; simpl; [done|]. unfold differs at 1.
  intros [H1 H2]%andb_prop. apply negb_true_iff in H1. rewrite H1, IH by done.
  by destruct (Ascii.eqb x NUL).
Qed.

Lemma strchr_lt s c k : strchr s c = Some k -> (k < String.length s)%nat.
Proof.
  revert k; induction s as [|x s IH]; simpl; [done|]. intros k.
  destruct (Ascii.eqb x c); [intros [= <-]; lia|].
  destruct (Ascii.eqb x NUL); [done|].
  destruct (strchr s c) as [k'|]; simpl; [|done]. intros [= <-].
  specialize (IH k' eq_refl). lia.
Qed.

Lemma strchr_take_absent s c k :
  strchr s c = Some k -> str_forall (differs c) (take k s) = true.
Proof.
  revert k; induction s as [|x s IH]; simpl; [done|]. intros k.
  destruct (Ascii.eqb x c) eqn:E1; [by intros [= <-]|].
  destruct (Ascii.eqb x NUL); [done|].
  destruct (strchr s c) as [k'|]; simpl; [|done]. intros [= <-]. simpl.
  unfold differs at 1. rewrite E1. simpl. by apply IH.
Qed.

Lemma strchr_none_plain s c :
  str_forall (differs NUL) s = true -> strchr s c = None ->
  str_forall (differs c) s = true.
Proof.
  induction s as [|x s IH]; simpl; [done|]. unfold differs at 1 3.
  intros [H1 H2]%andb_prop. apply negb_true_iff in H1. rewrite H1.
  destruct (Ascii.eqb x c); [done|]. simpl.
  destruct (strchr s c); simpl; [done|]. intros _. by apply IH.
Qed.

Lemma cut_at_absent s c : str_forall (differs c) s = true -> cut_at c s = s.
Proof. intros H. unfold cut_at. by rewrite strchr_absent. Qed.

Lemma cut_at_clean s c :
  str_forall (differs NUL) s = true -> str_forall (differs c) (cut_at c s) = true.
Proof.
  intros Hn. unfold cut_at. destruct (strchr s c) as [k|] eqn:E.
  - by apply strchr_take_absent.
  - by apply strchr_none_plain.
Qed.

Lemma cut_at_cons x c s :
  Ascii.eqb x c = false -> Ascii.eqb x NUL = false ->
  cut_at c (String x s) = String x (cut_at c s).
Proof.
  intros H1 H2. unfold cut_at. simpl. rewrite H1, H2.
  by destruct (strchr s c).
Qed.

Lemma str_forall_cut_at p c s : str_forall p s = true -> str_forall p (cut_at c s) = true.
Proof. intros H. unfold cut_at. destruct (strchr s c); [by apply str_forall_take | done]. Qed.

Lemma length_skip_blanks_le s : (String.length (skip_blanks s) <= String.length s)%nat.
Proof. induction s as [|x s IH]; simpl; [lia|]. destruct (_ || _); simpl; lia. Qed.

Lemma length_cut_at_le c s : (String.length (cut_at c s) <= String.length s)%nat.
Proof. unfold cut_at. destruct (strchr s c); [apply length_take_le | lia]. Qed.

Lemma line_text_parts X :
  line_text X = true ->
  str_forall (differs LF) X = true /\ str_forall (differs NUL) X = true.
Proof. unfold line_text. rewrite str_forall_and. by intros [? ?]%andb_prop. Qed.

(** ** Numbers as text *)

Lemma digit_cases c :
  0 <= c < CHANNELS_PER_APP -> c = 0 \/ c = 1 \/ c = 2 \/ c = 3 \/ c = 4.
Proof. unfold CHANNELS_PER_APP. lia. Qed.

Lemma digit_char_isdigit d : 0 <= d < 10 -> isdigit (digit_char d) = true.
Proof.
  intros H.
  assert (d = 0 \/ d = 1 \/ d = 2 \/ d = 3 \/ d = 4 \/ d = 5 \/ d = 6 \/ d = 7 \/ d = 8 \/ d = 9)
    as [->|[->|[->|[->|[->|[->|[->|[->|[->| ->]]]]]]]]] by lia; reflexivity.
Qed.

Lemma code_digit_char d : 0 <= d < 10 -> code (digit_char d) - 48 = d.
Proof.
  intros H.
  assert (d = 0 \/ d = 1 \/ d = 2 \/ d = 3 \/ d = 4 \/ d = 5 \/ d = 6 \/ d = 7 \/ d = 8 \/ d = 9)
    as [->|[->|[->|[->|[->|[->|[->|[->|[->| ->]]]]]]]]] by lia; reflexivity.
Qed.

Lemma isdigit_differs c x : isdigit c = false -> isdigit x = true -> differs c x = true.
Proof.
  intros Hc Hx. unfold differs. apply negb_true_iff, Ascii.eqb_neq. congruence.
Qed.

Lemma digits_plain s : str_forall isdigit s = true -> str_forall (differs NUL) s = true.
Proof. apply str_forall_impl. intros x. by apply isdigit_differs. Qed.

Lemma udec_digits fuel z : 0 <= z -> str_forall isdigit (udec fuel z) = true.
Proof.
  revert z. induction fuel as [|f IH]; intros z Hz; simpl; [done|].
  destruct (Z.ltb_spec z 10).
  - simpl. rewrite digit_char_isdigit by lia. done.
  - rewrite str_forall_app, IH by (apply Z.div_pos; lia). simpl.
    rewrite digit_char_isdigit; [done|]. apply Z.mod_pos_bound. lia.
Qed.

Lemma fmt_d_digits z : 0 <= z -> str_forall isdigit (fmt_d z) = true.
Proof.
  intros Hz. unfold fmt_d. destruct (Z.ltb_spec z 0); [lia|]. by apply udec_digits.
Qed.

Lemma udec_nonempty fuel z : udec (S fuel) z <> "".
Proof.
  simpl. destruct (z <? 10); [done|]. by destruct (udec fuel (z / 10)).
Qed.

Lemma length_udec fuel z : (String.length (udec fuel z) <= fuel)%nat.
Proof.
  revert z. induction fuel as [|f IH]; intros z; simpl; [lia|].
  destruct (z <? 10); simpl; [lia|]. rewrite length_append. simpl.
  specialize (IH (z / 10)). lia.
Qed.

Lemma length_fmt_d z : (String.length (fmt_d z) <= 11)%nat.
Proof.
  unfold fmt_d. destruct (z <? 0).
  - rewrite length_append. change (String.length "-") with 1%nat.
    pose proof (length_udec 10 (- z)). lia.
  - pose proof (length_udec 10 z). lia.
Qed.

Lemma length_fmt_d_channel d : 0 <= d < CHANNELS_PER_APP -> String.length (fmt_d d) = 1%nat.
Proof. intros Hd. destruct (digit_cases d Hd) as [->|[->|[->|[->| ->]]]]; reflexivity. Qed.

Lemma digits_val_app acc s t :
  str_forall isdigit s = true -> digits_val acc (s +:+ t) = digits_val (digits_val acc s) t.
Proof.
  revert acc. induction s as [|x s IH]; intros acc; simpl; [done|].
  intros [H1 H2]%andb_prop. rewrite H1. by apply IH.
Qed.

Lemma digits_val_udec fuel z :
  0 <= z < 10 ^ Z.of_nat fuel -> digits_val 0 (udec fuel z) = z.
Proof.
  revert z. induction fuel as [|f IH]; intros z Hz.
  - simpl in *. lia.
  - cbn [udec]. destruct (Z.ltb_spec z 10).
    + cbn [digits_val]. rewrite digit_char_isdigit, code_digit_char by lia. simpl. lia.
    + assert (Hq : 0 <= z / 10 < 10 ^ Z.of_nat f).
      { rewrite Nat2Z.inj_succ, Z.pow_succ_r in Hz by lia.
        split; [apply Z.div_pos; lia | apply Z.div_lt_upper_bound; lia]. }
      rewrite digits_val_app by (apply udec_digits; lia).
      rewrite IH by done. cbn [digits_val].
      pose proof (Z.mod_pos_bound z 10 ltac:(lia)) as Hm.
      rewrite digit_char_isdigit, code_digit_char by lia.
      pose proof (Z.div_mod z 10 ltac:(lia)). lia.
Qed.

Lemma atoi_digits s :
  s <> "" -> str_forall isdigit s = true ->
  atoi s = if (INT_MIN <=? digits_val 0 s) && (digits_val 0 s <=? INT_MAX)
           then Defined (digits_val 0 s) else Undefined.
Proof.
  intros Hne Hd. destruct s as [|c s]; [done|]. simpl in Hd.
  apply andb_prop in Hd as [Hc Hs].
  assert (Hsp : isspace c = false).
  { destruct (isspace c) eqn:E; [|done]. unfold isspace in E.
    repeat (apply orb_prop in E as [E|E]); apply Ascii.eqb_eq in E; subst c; discriminate. }
  assert (Hm : Ascii.eqb c "-"%char = false).
  { apply Ascii.eqb_neq. intros ->. discriminate. }
  assert (Hp : Ascii.eqb c "+"%char = false).
  { apply Ascii.eqb_neq. intros ->. discriminate. }
  unfold atoi. cbn [skip_space]. by rewrite Hsp, Hm, Hp.
Qed.

(** atoi reads back what "%d" prints. *)
Lemma atoi_fmt_d z : INT_MIN <= z <= INT_MAX -> atoi (fmt_d z) = Defined z.
Proof.
  intros Hz. unfold fmt_d. destruct (Z.ltb_spec z 0).
  - assert (Hv : digits_val 0 (udec 10 (- z)) = - z).
    { apply digits_val_udec. unfold INT_MIN in Hz. simpl. lia. }
    unfold atoi. change ("-" +:+ udec 10 (- z)) with (String "-"%char (udec 10 (- z))).
    cbn [skip_space]. change (isspace "-"%char) with false. cbv iota.
    change (Ascii.eqb "-" "-")%char with true. cbv iota. rewrite Hv.
    destruct (Z.leb_spec INT_MIN (- - z)); [|lia].
    destruct (Z.leb_spec (- - z) INT_MAX); [|lia]. cbn [andb]. f_equal. lia.
  - assert (Hv : digits_val 0 (udec 10 z) = z).
    { apply digits_val_udec. unfold INT_MAX in Hz. simpl. lia. }
    rewrite atoi_digits by (apply udec_nonempty || (apply udec_digits; lia)).
    rewrite Hv.
    destruct (Z.leb_spec INT_MIN z); [|lia]. by destruct (Z.leb_spec z INT_MAX); [|lia].
Qed.

(** ** Outcomes and loops *)

Ltac inv_bind H :=
  match type of H with
  | bind ?m _ = Defined _ =>
      let E := fresh "E" in
      destruct m eqn:E; cbn [bind] in H; [|discriminate H]
  end.

Lemma foldl_bind_undefined {S X} (f : S -> X -> outcome S) l :
  foldl (fun acc x => let* s := acc in f s x) Undefined l = Undefined.
Proof. induction l as [|x l IH]; simpl; [done | exact IH]. Qed.

Lemma foldl_bind_cons {S X} (f : S -> X -> outcome S) x l s :
  foldl (fun acc x => let* s := acc in f s x) (Defined s) (x :: l) =
  let* s' := f s x in foldl (fun acc x => let* s := acc in f s x) (Defined s') l.
Proof.
  simpl. destruct (f s x); simpl; [done | apply foldl_bind_undefined].
Qed.

Lemma foldl_bind_rel {S X} (R : S -> S -> Prop) (f : S -> X -> outcome S) l s s' :
  (forall s, R s s) -> (forall s1 s2 s3, R s1 s2 -> R s2 s3 -> R s1 s3) ->
  (forall s x s', x ∈ l -> f s x = Defined s' -> R s s') ->
  foldl (fun acc x => let* s := acc in f s x) (Defined s) l = Defined s' -> R s s'.
Proof.
  intros Hrefl Htrans. revert s. induction l as [|x l IH]; intros s Hf.
  - intros [= <-]. apply Hrefl.
  - rewrite foldl_bind_cons. intros H. inv_bind H.
    apply (Htrans _ a).
    + apply (Hf _ x); [apply list_elem_of_here | done].
    + apply IH; [|done]. intros s0 x0 s0' Hx0. apply Hf. by apply list_elem_of_further.
Qed.

Lemma foldl_bind_map {S X Y} (g : S -> X -> outcome S) (h : Y -> X) l s :
  foldl (fun acc x => let* s := acc in g s x) (Defined s) (map h l)
  = foldl (fun acc y => let* s := acc in g s (h y)) (Defined s) l.
Proof.
  revert s. induction l as [|y l IH]; intros s; [done|].
  cbn [map]. rewrite !foldl_bind_cons. destruct (g s (h y)); cbn [bind]; [apply IH | done].
Qed.

Lemma foldl_bind_ext {S X} (f g : S -> X -> outcome S) l s :
  (forall s x, x ∈ l -> f s x = g s x) ->
  foldl (fun acc x => let* s := acc in f s x) (Defined s) l
  = foldl (fun acc x => let* s := acc in g s x) (Defined s) l.
Proof.
  revert s. induction l as [|x l IH]; intros s H; [done|].
  rewrite !foldl_bind_cons, (H s x) by apply list_elem_of_here.
  destruct (g s x); cbn [bind]; [|done].
  apply IH. intros s' x' Hx'. apply H. by apply list_elem_of_further.
Qed.

Lemma channels_list : seqZ 0 CHANNELS_PER_APP = [0; 1; 2; 3; 4].
Proof. reflexivity. Qed.

Lemma elem_of_channels i : i ∈ seqZ 0 CHANNELS_PER_APP <-> 0 <= i < CHANNELS_PER_APP.
Proof. rewrite elem_of_seqZ. unfold CHANNELS_PER_APP. lia. Qed.

Lemma for_channels_rel (R : server -> server -> Prop) body st st' :
  (forall s, R s s) -> (forall s1 s2 s3, R s1 s2 -> R s2 s3 -> R s1 s3) ->
  (forall s i s', 0 <= i < CHANNELS_PER_APP -> body s i = Defined s' -> R s s') ->
  for_channels body st = Defined st' -> R st st'.
Proof.
  intros Hrefl Htrans Hb. unfold for_channels.
  apply (foldl_bind_rel R body); try done.
  intros s i s' Hi. apply Hb. by apply elem_of_channels.
Qed.

(** ** Slots *)

Lemma find_slot_spec p cl k :
  0 <= k ->
  (find_slot p cl k = -1 /\ Forall (fun c => p c = false) cl) \/
  (exists c, k <= find_slot p cl k < k + Z.of_nat (length cl) /\
             cl !! Z.to_nat (find_slot p cl k - k) = Some c /\ p c = true /\
             forall j c', (j < Z.to_nat (find_slot p cl k - k))%nat ->
                          cl !! j = Some c' -> p c' = false).
Proof.
  revert k. induction cl as [|c cl IH]; intros k Hk; simpl.
  - left. split; [done | constructor].
  - destruct (p c) eqn:Hp.
    + right. exists c. replace (k - k) with 0 by lia. simpl.
      repeat split; try lia; try done.
    + destruct (IH (k + 1)) as [[H1 H2] | (c0 & H1 & H2 & H3 & H4)]; [lia| |].
      * left. split; [done | by constructor].
      * right. exists c0.
        replace (Z.to_nat (find_slot p cl (k + 1) - k))
          with (S (Z.to_nat (find_slot p cl (k + 1) - (k + 1)))) by lia.
        repeat split; try lia; try done.
        intros [|j] c' Hj Hc'; simpl in Hc'; [congruence|].
        apply (H4 j); [lia | done].
Qed.

Lemma find_client_index_cases st cid :
  (find_client_index st cid = -1 /\
   Forall (fun c => active c && (client_id c =? cid) = false) (clients st)) \/
  (exists ci, 0 <= find_client_index st cid < Z.of_nat (length (clients st)) /\
              arr_get (clients st) (find_client_index st cid) = Defined ci /\
              active ci = true /\ client_id ci = cid).
Proof.
  unfold find_client_index.
  destruct (find_slot_spec (fun c => active c && (client_id c =? cid)) (clients st) 0)
    as [[H1 H2] | (c & H1 & H2 & H3 & _)]; [lia | by left |].
  right. exists c. apply andb_prop in H3 as [Ha Hc]. apply Z.eqb_eq in Hc.
  rewrite Z.sub_0_r in H2. repeat split; try lia; try done.
  apply arr_get_Defined. split; [lia | done].
Qed.

Lemma find_client_index_found st cid i :
  find_client_index st cid = i -> 0 <= i ->
  exists ci, arr_get (clients st) i = Defined ci /\ active ci = true /\ client_id ci = cid.
Proof.
  intros <- Hi. destruct (find_client_index_cases st cid) as [[H _] | (ci & _ & H)]; [lia|].
  by exists ci.
Qed.

Lemma find_client_index_not_live st cid :
  find_client_index st cid = -1 <-> ~ live st cid.
Proof.
  split.
  - intros H (i & ci & Hi & Ha & Hc).
    destruct (find_client_index_cases st cid) as [[_ HF] | (c & Hr & _)]; [|lia].
    apply arr_get_Defined in Hi as [_ Hi].
    rewrite Forall_lookup in HF. specialize (HF _ _ Hi). simpl in HF.
    rewrite Ha, Hc, Z.eqb_refl in HF. done.
  - intros Hn. destruct (find_client_index_cases st cid) as [[H _] | (c & Hr & Hg & Ha & Hc)]; [done|].
    exfalso. apply Hn. by exists (find_client_index st cid), c.
Qed.

Lemma find_client_index_live st cid :
  0 <= find_client_index st cid <-> live st cid.
Proof.
  split.
  - intros H. destruct (find_client_index_found st cid _ eq_refl H) as (ci & ?).
    by exists (find_client_index st cid), ci.
  - intros Hl. destruct (find_client_index_cases st cid) as [[H _] | (c & Hr & _)]; [|lia].
    apply find_client_index_not_live in H. done.
Qed.

Lemma find_client_index_unique st i ci :
  ids_ok st -> arr_get (clients st) i = Defined ci -> active ci = true ->
  find_client_index st (client_id ci) = i.
Proof.
  intros Hok Hi Ha.
  destruct (find_client_index_cases st (client_id ci)) as [[H _] | (c & Hr & Hg & Hac & Hc)].
  - apply find_client_index_not_live in H. exfalso. apply H. by exists i, ci.
  - symmetry. eapply (ids_distinct st Hok); eauto.
Qed.

Lemma find_client_index_same_clients st st' cid :
  clients st' = clients st -> find_client_index st' cid = find_client_index st cid.
Proof. unfold find_client_index. by intros ->. Qed.

(** The free slot the acceptor picks is the lowest one that is not in use. *)
Lemma find_free_slot_spec st :
  (find_free_slot st = -1 /\ Forall (fun c => active c = true) (clients st)) \/
  (exists c, 0 <= find_free_slot st < Z.of_nat (length (clients st)) /\
             arr_get (clients st) (find_free_slot st) = Defined c /\ active c = false /\
             forall k ck, 0 <= k < find_free_slot st ->
                          arr_get (clients st) k = Defined ck -> active ck = true).
Proof.
  unfold find_free_slot.
  destruct (find_slot_spec (fun c => negb (active c)) (clients st) 0)
    as [[H1 H2] | (c & H1 & H2 & H3 & H4)]; [lia | |].
  - left. split; [done|]. eapply Forall_impl; [exact H2|].
    intros x Hx. simpl in Hx. by apply negb_false_iff in Hx.
  - right. exists c. rewrite Z.sub_0_r in *. split_and!; try lia.
    + apply arr_get_Defined. split; [lia | done].
    + by apply negb_true_iff in H3.
    + intros k ck Hk [_ Hck]%arr_get_Defined.
      specialize (H4 (Z.to_nat k) ck). apply negb_false_iff, H4; [lia | done].
Qed.

Lemma all_active_no_free_slot st :
  Forall (fun c => active c = true) (clients st) -> find_free_slot st = -1.
Proof.
  intros HF. unfold find_free_slot.
  destruct (find_slot_spec (fun c => negb (active c)) (clients st) 0)
    as [[H _] | (c & _ & Hc & Hp & _)]; [lia | done |].
  rewrite Forall_lookup in HF. specialize (HF _ _ Hc). simpl in HF.
  rewrite HF in Hp. done.
Qed.

(** ** Effects of the writes to the tables *)

Lemma wf_emit st evs : wf st -> wf (emit st evs).
Proof. intros []. by constructor. Qed.

Lemma wf_cache_lengths st i cd :
  wf st -> arr_get (client_data st) i = Defined cd ->
  length (last_out cd) = Z.to_nat CHANNELS_PER_APP /\
  length (last_in cd) = Z.to_nat CHANNELS_PER_APP.
Proof.
  intros Hwf [_ H]%arr_get_Defined.
  pose proof (wf_caches st Hwf) as HF. rewrite Forall_lookup in HF. exact (HF _ _ H).
Qed.

Lemma wf_row_length st a row :
  wf st -> arr_get (routing st) a = Defined row -> length row = Z.to_nat CHANNELS_PER_APP.
Proof.
  intros Hwf [_ H]%arr_get_Defined.
  pose proof (wf_rows st Hwf) as HF. rewrite Forall_lookup in HF. exact (HF _ _ H).
Qed.

Lemma slot_in_range st i ci :
  wf st -> arr_get (clients st) i = Defined ci -> 0 <= i < MAX_CLIENTS.
Proof.
  intros Hwf H%arr_get_range. rewrite (wf_clients _ Hwf) in H. unfold MAX_CLIENTS in *. lia.
Qed.

Lemma record_output_inv st i ch msg st' :
  record_output st i ch msg = Defined st' ->
  clients st' = clients st /\ routing st' = routing st /\
  next_client_id st' = next_client_id st /\ trace st' = trace st /\
  (wf st -> wf st') /\
  out_cache st' i ch = Defined (strncpy msg (Z.to_nat (MAX_MSG_LENGTH - 1))) /\
  (forall i' ch', i' <> i \/ ch' <> ch -> out_cache st' i' ch' = out_cache st i' ch') /\
  (forall i' ch', in_cache st' i' ch' = in_cache st i' ch').
Proof.
  unfold record_output. intros H. inv_bind H. inv_bind H. inv_bind H.
  injection H as <-. cbn [clients routing next_client_id trace set_client_data].
  split_and!; try done.
  - intros Hwf. destruct (wf_cache_lengths _ _ _ Hwf E) as [Ho Hi].
    destruct Hwf. constructor; cbn [clients routing client_data set_client_data]; try done.
    + by rewrite (arr_set_length _ _ _ _ E1).
    + apply arr_set_Defined in E1 as [_ ->]. apply Forall_insert; [done|].
      cbn [set_last_out last_out last_in]. by rewrite (arr_set_length _ _ _ _ E0).
  - unfold out_cache. cbn [client_data set_client_data].
    rewrite (arr_get_set_eq _ _ _ _ E1). cbn [bind set_last_out last_out].
    exact (arr_get_set_eq _ _ _ _ E0).
  - intros i' ch' Hne. unfold out_cache. cbn [client_data set_client_data].
    destruct (Z.eq_dec i' i) as [->|Hi].
    + rewrite (arr_get_set_eq _ _ _ _ E1), E. cbn [bind set_last_out last_out].
      apply (arr_get_set_ne _ _ _ _ _ E0). destruct Hne; congruence.
    + by rewrite (arr_get_set_ne _ _ _ _ _ E1) by congruence.
  - intros i' ch'. unfold in_cache. cbn [client_data set_client_data].
    destruct (Z.eq_dec i' i) as [->|Hi].
    + by rewrite (arr_get_set_eq _ _ _ _ E1), E.
    + by rewrite (arr_get_set_ne _ _ _ _ _ E1) by congruence.
Qed.

Lemma record_output_defined st i ch msg :
  wf st -> 0 <= i < MAX_CLIENTS -> 0 <= ch < CHANNELS_PER_APP ->
  exists st', record_output st i ch msg = Defined st'.
Proof.
  intros Hwf Hi Hch. unfold record_output.
  destruct (arr_get_in_range (client_data st) i) as [cd Hcd].
  { rewrite (wf_client_data _ Hwf). lia. }
  rewrite Hcd. cbn [bind]. destruct (wf_cache_lengths _ _ _ Hwf Hcd) as [Ho _].
  rewrite arr_set_in_range by (rewrite Ho; lia). cbn [bind].
  rewrite arr_set_in_range by (rewrite (wf_client_data _ Hwf); lia). cbn [bind]. eauto.
Qed.

Lemma record_input_inv st i ch msg st' :
  record_input st i ch msg = Defined st' ->
  clients st' = clients st /\ routing st' = routing st /\
  next_client_id st' = next_client_id st /\ trace st' = trace st /\
  (wf st -> wf st') /\
  in_cache st' i ch = Defined (strncpy msg (Z.to_nat (MAX_MSG_LENGTH - 1))) /\
  (forall i' ch', i' <> i \/ ch' <> ch -> in_cache st' i' ch' = in_cache st i' ch') /\
  (forall i' ch', out_cache st' i' ch' = out_cache st i' ch').
Proof.
  unfold record_input. intros H. inv_bind H. inv_bind H. inv_bind H.
  injection H as <-. cbn [clients routing next_client_id trace set_client_data].
  split_and!; try done.
  - intros Hwf. destruct (wf_cache_lengths _ _ _ Hwf E) as [Ho Hi].
    destruct Hwf. constructor; cbn [clients routing client_data set_client_data]; try done.
    + by rewrite (arr_set_length _ _ _ _ E1).
    + apply arr_set_Defined in E1 as [_ ->]. apply Forall_insert; [done|].
      cbn [set_last_in last_out last_in]. by rewrite (arr_set_length _ _ _ _ E0).
  - unfold in_cache. cbn [client_data set_client_data].
    rewrite (arr_get_set_eq _ _ _ _ E1). cbn [bind set_last_in last_in].
    exact (arr_get_set_eq _ _ _ _ E0).
  - intros i' ch' Hne. unfold in_cache. cbn [client_data set_client_data].
    destruct (Z.eq_dec i' i) as [->|Hi].
    + rewrite (arr_get_set_eq _ _ _ _ E1), E. cbn [bind set_last_in last_in].
      apply (arr_get_set_ne _ _ _ _ _ E0). destruct Hne; congruence.
    + by rewrite (arr_get_set_ne _ _ _ _ _ E1) by congruence.
  - intros i' ch'. unfold out_cache. cbn [client_data set_client_data].
    destruct (Z.eq_dec i' i) as [->|Hi].
    + by rewrite (arr_get_set_eq _ _ _ _ E1), E.
    + by rewrite (arr_get_set_ne _ _ _ _ _ E1) by congruence.
Qed.

Lemma record_input_defined st i ch msg :
  wf st -> 0 <= i < MAX_CLIENTS -> 0 <= ch < CHANNELS_PER_APP ->
  exists st', record_input st i ch msg = Defined st'.
Proof.
  intros Hwf Hi Hch. unfold record_input.
  destruct (arr_get_in_range (client_data st) i) as [cd Hcd].
  { rewrite (wf_client_data _ Hwf). lia. }
  rewrite Hcd. cbn [bind]. destruct (wf_cache_lengths _ _ _ Hwf Hcd) as [_ Hl].
  rewrite arr_set_in_range by (rewrite Hl; lia). cbn [bind].
  rewrite arr_set_in_range by (rewrite (wf_client_data _ Hwf); lia). cbn [bind]. eauto.
Qed.

Lemma write_route_inv st a c b d st' :
  write_route st a c b d = Defined st' ->
  clients st' = clients st /\ client_data st' = client_data st /\
  next_client_id st' = next_client_id st /\ trace st' = trace st /\
  (wf st -> wf st') /\
  route_at st' a c = Defined (mkRoute b d) /\
  (forall a' c', a' <> a \/ c' <> c -> route_at st' a' c' = route_at st a' c').
Proof.
  unfold write_route. intros H. inv_bind H. inv_bind H. inv_bind H.
  injection H as <-. cbn [clients client_data next_client_id trace set_routing].
  split_and!; try done.
  - intros Hwf. pose proof (wf_row_length _ _ _ Hwf E) as Hl.
    destruct Hwf. constructor; cbn [clients routing client_data set_routing]; try done.
    + by rewrite (arr_set_length _ _ _ _ E1).
    + apply arr_set_Defined in E1 as [_ ->]. apply Forall_insert; [done|].
      by rewrite (arr_set_length _ _ _ _ E0).
  - unfold route_at. cbn [routing set_routing].
    rewrite (arr_get_set_eq _ _ _ _ E1). cbn [bind].
    exact (arr_get_set_eq _ _ _ _ E0).
  - intros a' c' Hne. unfold route_at. cbn [routing set_routing].
    destruct (Z.eq_dec a' a) as [->|Hi].
    + rewrite (arr_get_set_eq _ _ _ _ E1), E. cbn [bind].
      apply (arr_get_set_ne _ _ _ _ _ E0). destruct Hne; congruence.
    + by rewrite (arr_get_set_ne _ _ _ _ _ E1) by congruence.
Qed.

Lemma write_route_defined st a c b d :
  wf st -> 0 <= a <= MAX_CLIENTS -> 0 <= c < CHANNELS_PER_APP ->
  exists st', write_route st a c b d = Defined st'.
Proof.
  intros Hwf Ha Hc. unfold write_route.
  destruct (arr_get_in_range (routing st) a) as [row Hrow].
  { rewrite (wf_routing _ Hwf). unfold MAX_CLIENTS in *. lia. }
  rewrite Hrow. cbn [bind]. pose proof (wf_row_length _ _ _ Hwf Hrow) as Hl.
  rewrite arr_set_in_range by (rewrite Hl; lia). cbn [bind].
  rewrite arr_set_in_range by (rewrite (wf_routing _ Hwf); unfold MAX_CLIENTS in *; lia).
  cbn [bind]. eauto.
Qed.

Lemma write_route_out_of_bounds st a c b d :
  wf st -> ~ 0 <= a <= MAX_CLIENTS -> write_route st a c b d = Undefined.
Proof.
  intros Hwf Ha. unfold write_route.
  destruct (arr_get (routing st) a) as [row|] eqn:E; [|done].
  apply arr_get_range in E. rewrite (wf_routing _ Hwf) in E.
  unfold MAX_CLIENTS in *. lia.
Qed.

Lemma route_at_defined st a c :
  wf st -> 0 <= a <= MAX_CLIENTS -> 0 <= c < CHANNELS_PER_APP ->
  exists r, route_at st a c = Defined r.
Proof.
  intros Hwf Ha Hc. unfold route_at.
  destruct (arr_get_in_range (routing st) a) as [row Hrow].
  { rewrite (wf_routing _ Hwf). unfold MAX_CLIENTS in *. lia. }
  rewrite Hrow. cbn [bind]. apply arr_get_in_range.
  rewrite (wf_row_length _ _ _ Hwf Hrow). lia.
Qed.

Lemma route_at_range st a c r :
  wf st -> route_at st a c = Defined r ->
  0 <= a <= MAX_CLIENTS /\ 0 <= c < CHANNELS_PER_APP.
Proof.
  intros Hwf. unfold route_at. destruct (arr_get (routing st) a) as [row|] eqn:E; [|done].
  cbn [bind]. intros H%arr_get_range. rewrite (wf_row_length _ _ _ Hwf E) in H.
  apply arr_get_range in E. rewrite (wf_routing _ Hwf) in E.
  unfold MAX_CLIENTS, CHANNELS_PER_APP in *. lia.
Qed.

Lemma route_at_same st st' a c :
  routing st' = routing st -> route_at st' a c = route_at st a c.
Proof. unfold route_at. by intros ->. Qed.

(** ** The loop over the lines of a read *)

Lemma dispatch_loop_fuel fuel1 fuel2 st i start :
  (String.length start < fuel1)%nat -> (String.length start < fuel2)%nat ->
  dispatch_loop fuel1 st i start = dispatch_loop fuel2 st i start.
Proof.
  revert fuel2 st start. induction fuel1 as [|f1 IH]; intros [|f2] st start H1 H2; try lia.
  cbn [dispatch_loop]. destruct (strchr start LF) as [k|] eqn:E; [|done].
  destruct (dispatch_line st i (take k start)) as [st'|]; cbn [bind]; [|done].
  apply strchr_lt in E. apply IH; rewrite drop_length; lia.
Qed.

Lemma dispatch_loop_step fuel st i line rest :
  str_forall (fun x => differs LF x && differs NUL x) line = true ->
  (String.length (line +:+ NL +:+ rest) < fuel)%nat ->
  dispatch_loop fuel st i (line +:+ NL +:+ rest) =
  let* st' := dispatch_line st i line in
  dispatch_loop (S (String.length rest)) st' i rest.
Proof.
  intros Hl Hf. remember (S (String.length rest)) as f2 eqn:Hf2.
  destruct fuel as [|fuel]; [lia|]. cbn [dispatch_loop].
  unfold NL in *. cbn [String.append] in *. rewrite strchr_app_found by done.
  rewrite take_app_length, drop_app_length.
  destruct (dispatch_line st i line) as [st'|]; cbn [bind]; [|done].
  apply dispatch_loop_fuel; [|lia].
  rewrite length_append in Hf. simpl in Hf. lia.
Qed.

Lemma handle_single_frame st i line :
  line_text line = true ->
  handle_client_input st i (Recv_bytes (line +:+ NL)) = dispatch_line st i line.
Proof.
  intros Hl. unfold handle_client_input. cbn [recv_count recv_buf].
  rewrite length_append, length_NL.
  destruct (Z.leb_spec (Z.of_nat (String.length line + 1)) 0) as [Hle|_]; [lia|].
  pose proof (dispatch_loop_step (S (String.length line + 1)) st i line "" Hl) as H.
  change (NL +:+ "") with NL in H. rewrite H.
  - destruct (dispatch_line st i line); reflexivity.
  - rewrite length_append, length_NL. lia.
Qed.

Lemma complete_frames_drop n s : complete_frames s = true -> complete_frames (drop n s) = true.
Proof.
  revert s; induction n as [|n IH]; intros s H.
  - by rewrite drop_0.
  - destruct s as [|x s]; [done|]. cbn [drop]. apply IH.
    simpl in H. destruct s; [done | exact H].
Qed.

Lemma strchr_partial chunk partial :
  complete_frames chunk = true -> str_forall (differs LF) partial = true ->
  strchr chunk LF = None -> strchr (chunk +:+ partial) LF = None.
Proof.
  intros Hc Hp. induction chunk as [|x chunk IH]; simpl.
  - intros _. by apply strchr_absent.
  - destruct (Ascii.eqb x LF) eqn:E1; [done|].
    destruct (Ascii.eqb x NUL); [done|].
    destruct (strchr chunk LF) eqn:E2; simpl; [done|]. intros _.
    rewrite IH; [done | | done].
    simpl in Hc. destruct chunk; [congruence | done].
Qed.

Lemma dispatch_loop_partial fuel1 fuel2 st i chunk partial :
  complete_frames chunk = true -> str_forall (differs LF) partial = true ->
  (String.length (chunk +:+ partial) < fuel1)%nat -> (String.length chunk < fuel2)%nat ->
  dispatch_loop fuel1 st i (chunk +:+ partial) = dispatch_loop fuel2 st i chunk.
Proof.
  intros Hc Hp. revert fuel2 st chunk Hc.
  induction fuel1 as [|f1 IH]; intros [|f2] st chunk Hc H1 H2; try lia.
  cbn [dispatch_loop]. destruct (strchr chunk LF) as [k|] eqn:E.
  - rewrite (strchr_app_l _ _ _ _ E). pose proof (strchr_lt _ _ _ E) as Hk.
    rewrite take_app_lt, drop_app_le by lia.
    destruct (dispatch_line st i (take k chunk)) as [st'|]; cbn [bind]; [|done].
    apply IH.
    + by apply complete_frames_drop.
    + rewrite length_append, drop_length. rewrite length_append in H1. lia.
    + rewrite drop_length. lia.
  - by rewrite strchr_partial.
Qed.

(** ** Handlers keep the invariant *)

Lemma quiet_refl st : quiet st st.
Proof. by split_and!. Qed.

Lemma quiet_trans st1 st2 st3 : quiet st1 st2 -> quiet st2 st3 -> quiet st1 st3.
Proof.
  intros (A1 & A2 & A3 & A4) (B1 & B2 & B3 & B4).
  split_and!; [congruence | congruence | auto | auto].
Qed.

Lemma routes_ok_same st st' : routing st' = routing st -> routes_ok st -> routes_ok st'.
Proof. intros H Hr a c r. unfold route_at. rewrite H. apply Hr. Qed.

Lemma quiet_emit st evs : quiet st (emit st evs).
Proof.
  split_and!; [done | done | apply wf_emit | by apply routes_ok_same].
Qed.

Lemma live_same st st' cid : clients st' = clients st -> live st' cid <-> live st cid.
Proof. unfold live. by intros ->. Qed.

Lemma ids_ok_same st st' :
  clients st' = clients st -> next_client_id st' = next_client_id st ->
  ids_ok st -> ids_ok st'.
Proof. intros H1 H2 []. constructor; rewrite ?H1, ?H2; done. Qed.

Lemma preserves_refl st : preserves st st.
Proof. by split. Qed.

Lemma preserves_trans st1 st2 st3 :
  preserves st1 st2 -> preserves st2 st3 -> preserves st1 st3.
Proof. intros [A1 A2] [B1 B2]. split; auto. Qed.

Lemma quiet_preserves st st' : quiet st st' -> preserves st st'.
Proof.
  intros (H1 & H2 & H3 & H4). split.
  - intros []. constructor; auto. by apply (ids_ok_same st).
  - intros cid [Hlt Hnl]. split; [by rewrite H2|]. by rewrite (live_same st).
Qed.

Lemma preserves_emit st evs : preserves st (emit st evs).
Proof. apply quiet_preserves, quiet_emit. Qed.

Lemma record_output_quiet st i ch msg st' :
  record_output st i ch msg = Defined st' -> quiet st st'.
Proof.
  intros (H1 & H2 & H3 & _ & H5 & _)%record_output_inv.
  split_and!; try done. by apply routes_ok_same.
Qed.

Lemma record_input_quiet st i ch msg st' :
  record_input st i ch msg = Defined st' -> quiet st st'.
Proof.
  intros (H1 & H2 & H3 & _ & H5 & _)%record_input_inv.
  split_and!; try done. by apply routes_ok_same.
Qed.

Lemma dispatch_line_quiet st i line st' :
  dispatch_line st i line = Defined st' -> quiet st st'.
Proof.
  unfold dispatch_line. intros H.
  destruct ((0 <=? _) && _); [|injection H as <-; apply quiet_refl].
  inv_bind H. pose proof (record_output_quiet _ _ _ _ _ E) as Hq.
  inv_bind H. inv_bind H.
  destruct (0 <=? in_client_id _); [|by injection H as <-].
  destruct (0 <=? find_client_index _ _); [|by injection H as <-].
  inv_bind H. destruct (active _); [|by injection H as <-].
  apply record_input_quiet in H.
  eapply quiet_trans; [exact Hq|]. eapply quiet_trans; [apply quiet_emit | exact H].
Qed.

Lemma dispatch_loop_quiet fuel st i start st' :
  dispatch_loop fuel st i start = Defined st' -> quiet st st'.
Proof.
  revert st start. induction fuel as [|fuel IH]; intros st start; cbn [dispatch_loop].
  - intros [= <-]. apply quiet_refl.
  - destruct (strchr start LF); [|intros [= <-]; apply quiet_refl].
    intros H. inv_bind H. apply dispatch_line_quiet in E. apply IH in H.
    by eapply quiet_trans.
Qed.

Lemma disconnect_preserves st i ci cl evs :
  arr_get (clients st) i = Defined ci ->
  arr_set (clients st) i (mkClientInfo (sockfd ci) (client_id ci) false (name ci)) = Defined cl ->
  preserves st (set_clients (emit st evs) cl).
Proof.
  intros Hci Hcl.
  assert (Hold : forall k ck, arr_get cl k = Defined ck -> active ck = true ->
                              k <> i /\ arr_get (clients st) k = Defined ck).
  { intros k ck Hk Ha. destruct (Z.eq_dec k i) as [->|Hne].
    - rewrite (arr_get_set_eq _ _ _ _ Hcl) in Hk. injection Hk as <-. done.
    - split; [done|]. by rewrite <- (arr_get_set_ne _ _ _ _ _ Hcl) by congruence. }
  split.
  - intros [Hwf [Hn Hp Hb Hd] Hr]. constructor.
    + destruct Hwf. constructor; cbn [clients client_data routing set_clients emit]; try done.
      by rewrite (arr_set_length _ _ _ _ Hcl).
    + constructor; cbn [clients next_client_id set_clients emit].
      * done.
      * apply arr_set_Defined in Hcl as [_ ->]. by apply Forall_insert.
      * apply arr_set_Defined in Hcl as [_ ->]. apply Forall_insert; [done|].
        cbn [client_id]. apply arr_get_Defined in Hci as [_ Hci].
        rewrite Forall_lookup in Hb. exact (Hb _ _ Hci).
      * intros k j ck cj Hk Hj Hak Haj Heq.
        destruct (Hold _ _ Hk Hak) as [_ Hk'], (Hold _ _ Hj Haj) as [_ Hj'].
        by apply (Hd k j ck cj).
    + by apply (routes_ok_same st).
  - intros cid [Hlt Hnl]. split; [done|].
    intros (k & ck & Hk & Hak & Hid). cbn [clients set_clients] in Hk.
    destruct (Hold _ _ Hk Hak) as [_ Hk']. apply Hnl. by exists k, ck.
Qed.

Lemma handle_client_input_preserves st i r st' :
  handle_client_input st i r = Defined st' -> preserves st st'.
Proof.
  unfold handle_client_input. destruct (recv_count r <=? 0).
  - intros H. inv_bind H. inv_bind H. injection H as <-.
    cbn [clients emit] in E0. by eapply disconnect_preserves.
  - intros H. apply quiet_preserves. by eapply dispatch_loop_quiet.
Qed.

Lemma connect_preserves st idx sock nm cl evs :
  arr_set (clients st) idx (mkClientInfo sock (next_client_id st) true nm) = Defined cl ->
  preserves st (emit (set_clients (set_next_client_id st (next_client_id st + 1)) cl) evs).
Proof.
  intros Hcl.
  assert (Hold : forall k ck, arr_get cl k = Defined ck ->
                   (k = idx /\ client_id ck = next_client_id st) \/
                   (k <> idx /\ arr_get (clients st) k = Defined ck)).
  { intros k ck Hk. destruct (Z.eq_dec k idx) as [->|Hne].
    - rewrite (arr_get_set_eq _ _ _ _ Hcl) in Hk. injection Hk as <-. by left.
    - right. split; [done|]. by rewrite <- (arr_get_set_ne _ _ _ _ _ Hcl) by congruence. }
  assert (Hlt : forall k ck, ids_ok st -> arr_get (clients st) k = Defined ck ->
                             client_id ck < next_client_id st).
  { intros k ck [_ _ Hb _] [_ Hk]%arr_get_Defined.
    rewrite Forall_lookup in Hb. exact (Hb _ _ Hk). }
  split.
  - intros [Hwf Hids Hr]. constructor.
    + destruct Hwf. constructor;
        cbn [clients client_data routing set_clients set_next_client_id emit]; try done.
      by rewrite (arr_set_length _ _ _ _ Hcl).
    + pose proof (ids_next _ Hids) as Hn.
      constructor; cbn [clients next_client_id set_clients set_next_client_id emit].
      * lia.
      * apply arr_set_Defined in Hcl as [_ ->]. apply Forall_insert.
        -- apply (ids_positive _ Hids).
        -- cbn [client_id]. intros _. exact Hn.
      * rewrite Forall_lookup. intros n c Hc.
        assert (Hg : arr_get cl (Z.of_nat n) = Defined c).
        { apply arr_get_Defined. rewrite Nat2Z.id. split; [lia | done]. }
        destruct (Hold _ _ Hg) as [[_ ->] | [_ Hg']]; [clear; lia|].
        specialize (Hlt _ _ Hids Hg'). clear -Hlt. lia.
      * intros k j ck cj Hk Hj Hak Haj Heq.
        destruct (Hold _ _ Hk) as [[-> Hk1] | [Hk1 Hk2]],
                 (Hold _ _ Hj) as [[-> Hj1] | [Hj1 Hj2]]; try done.
        -- specialize (Hlt _ _ Hids Hj2). clear -Hlt Heq Hk1. lia.
        -- specialize (Hlt _ _ Hids Hk2). clear -Hlt Heq Hj1. lia.
        -- by apply (ids_distinct st Hids k j ck cj).
    + by apply (routes_ok_same st).
  - intros cid [Hc Hnl]. split; [cbn [next_client_id set_next_client_id set_clients emit]; lia|].
    intros (k & ck & Hk & Hak & Hid).
    cbn [clients set_clients set_next_client_id emit] in Hk.
    destruct (Hold _ _ Hk) as [[-> Hk1] | [Hk1 Hk2]]; [clear -Hc Hid Hk1; lia|].
    apply Hnl. by exists k, ck.
Qed.

Lemma handle_new_connection_preserves st sock st' :
  handle_new_connection st sock = Defined st' -> preserves st st'.
Proof.
  unfold handle_new_connection. destruct (sock <? 0).
  { intros [= <-]. apply quiet_preserves, quiet_emit. }
  destruct (find_free_slot st <? 0).
  { intros [= <-]. apply quiet_preserves, quiet_emit. }
  destruct (next_client_id st =? INT_MAX); [done|].
  intros H. inv_bind H. injection H as <-. by eapply connect_preserves.
Qed.

Lemma write_route_quiet st a c b d st' :
  write_route st a c b d = Defined st' -> 0 <= d < CHANNELS_PER_APP -> quiet st st'.
Proof.
  intros H Hd. destruct (write_route_inv _ _ _ _ _ _ H) as (H1 & _ & H3 & _ & H5 & H6 & H7).
  split_and!; try done. intros Hr a' c' r Hget Hin.
  destruct (Z.eq_dec a' a) as [->|Ha]; [destruct (Z.eq_dec c' c) as [->|Hc]|].
  - rewrite H6 in Hget. injection Hget as <-. done.
  - rewrite H7 in Hget by auto. by apply (Hr a c').
  - rewrite H7 in Hget by auto. by apply (Hr a' c').
Qed.

Lemma route_command_quiet st a c b d st' :
  route_command st a c b d = Defined st' -> 0 <= d < CHANNELS_PER_APP -> quiet st st'.
Proof.
  unfold route_command. intros H Hd.
  destruct (find_client_index st a <? 0); [injection H as <-; apply quiet_emit|].
  destruct (find_client_index st b <? 0); [injection H as <-; apply quiet_emit|].
  inv_bind H. injection H as <-.
  eapply quiet_trans; [by eapply write_route_quiet | apply quiet_emit].
Qed.

Lemma route_command_from_file_quiet st a c b d st' :
  route_command_from_file st a c b d = Defined st' -> 0 <= d < CHANNELS_PER_APP ->
  quiet st st'.
Proof.
  unfold route_command_from_file. intros H Hd. inv_bind H. injection H as <-.
  eapply quiet_trans; [by eapply write_route_quiet | apply quiet_emit].
Qed.

Lemma channel_in_range all fixed :
  channel_out_of_range all fixed = false -> all = false ->
  0 <= fixed < CHANNELS_PER_APP.
Proof.
  unfold channel_out_of_range. intros H ->. simpl in H.
  apply orb_false_elim in H as [H1 H2]. lia.
Qed.

Lemma expand_route_quiet route1 st outCID outAll fixedOut inCID inAll fixedIn st' :
  (forall s a c b d s', route1 s a c b d = Defined s' -> 0 <= d < CHANNELS_PER_APP ->
                        quiet s s') ->
  channel_out_of_range inAll fixedIn = false ->
  expand_route route1 st outCID outAll fixedOut inCID inAll fixedIn = Defined st' ->
  quiet st st'.
Proof.
  intros Hr Hin. unfold expand_route.
  destruct outAll, inAll; cbn [andb negb].
  - apply for_channels_rel; [apply quiet_refl | apply quiet_trans |].
    intros s i s' Hi H. by apply Hr in H.
  - apply for_channels_rel; [apply quiet_refl | apply quiet_trans |].
    intros s i s' Hi H. apply Hr in H; [done|]. by apply (channel_in_range false).
  - apply for_channels_rel; [apply quiet_refl | apply quiet_trans |].
    intros s i s' Hi H. by apply Hr in H.
  - intros H. apply Hr in H; [done|]. by apply (channel_in_range false).
Qed.

Lemma console_route_quiet st cmdline st' :
  console_route st cmdline = Defined st' -> quiet st st'.
Proof.
  unfold console_route.
  destruct (strtok cmdline) as [t0 s1], (strtok s1) as [p1 s2], (strtok s2) as [p2 s3],
           (strtok s3) as [p3 s4], (strtok s4) as [p4 s5].
  destruct p1 as [p1|], p2 as [p2|], p3 as [p3|], p4 as [p4|];
    try (intros [= <-]; apply quiet_emit).
  unfold console_route_args.
  intros H. inv_bind H. inv_bind H. inv_bind H. inv_bind H.
  destruct (channel_out_of_range (strcmp_eq p2 "all") a1); [injection H as <-; apply quiet_emit|].
  destruct (channel_out_of_range (strcmp_eq p4 "all") a2) eqn:Hin;
    [injection H as <-; apply quiet_emit|].
  eapply expand_route_quiet; [|exact Hin|exact H].
  intros. by eapply route_command_quiet.
Qed.

Lemma list_routes_quiet st st' : list_routes st = Defined st' -> quiet st st'.
Proof.
  unfold list_routes. intros H.
  apply (quiet_trans _ (emit st [Ev_printf ("Routes:" +:+ NL)])); [apply quiet_emit|].
  revert H.
  apply (foldl_bind_rel quiet
           (fun s cid => if find_client_index s cid <? 0 then Defined s
                         else let* evs := list_routes_of s cid in Defined (emit s evs)));
    [apply quiet_refl | apply quiet_trans |].
  intros s x s' _. destruct (find_client_index s x <? 0); [intros [= <-]; apply quiet_refl|].
  intros H. inv_bind H. injection H as <-. apply quiet_emit.
Qed.

Lemma print_command_quiet st cmdline st' :
  print_command st cmdline = Defined st' -> quiet st st'.
Proof.
  unfold print_command.
  destruct (strtok cmdline) as [t0 s1], (strtok s1) as [p1 s2].
  destruct p1 as [p1|]; [|intros [= <-]; apply quiet_emit].
  intros H. inv_bind H.
  destruct (find_client_index st a <? 0); [injection H as <-; apply quiet_emit|].
  inv_bind H. inv_bind H. injection H as <-. apply quiet_emit.
Qed.

Lemma handle_console_input_quiet st line ctl st' :
  handle_console_input st line = Defined (ctl, st') -> quiet st st'.
Proof.
  unfold handle_console_input. destruct line as [l|]; [|intros [= _ <-]; apply quiet_refl].
  repeat match goal with
         | |- (if ?b then _ else _) = _ -> _ => destruct b
         end;
    try (intros [= _ <-]; first [apply quiet_refl | apply quiet_emit]);
    intros H; inv_bind H; injection H as _ <-.
  - by apply list_routes_quiet.
  - apply quiet_refl.
  - by eapply print_command_quiet.
  - by eapply console_route_quiet.
Qed.

Lemma process_routing_line_quiet ld raw ld' :
  process_routing_line ld raw = Defined ld' -> quiet (ld_server ld) (ld_server ld').
Proof.
  unfold process_routing_line, loader_fail.
  destruct (_ || _); [intros [= <-]; apply quiet_refl|].
  destruct (strtok (trim_newline raw)) as [t0 s1].
  destruct t0 as [tok|]; [|intros [= <-]; apply quiet_emit].
  destruct (negb (strcmp_eq tok "route")); [intros [= <-]; apply quiet_emit|].
  destruct (strtok s1) as [p1 s2], (strtok s2) as [p2 s3],
           (strtok s3) as [p3 s4], (strtok s4) as [p4 s5].
  destruct p1 as [p1|], p2 as [p2|], p3 as [p3|], p4 as [p4|];
    try (intros [= <-]; apply quiet_emit).
  unfold loader_route_args, loader_fail.
  intros H. inv_bind H. inv_bind H. inv_bind H.
  destruct a1 as [fixedOut|]; [|injection H as <-; apply quiet_emit].
  inv_bind H. destruct a1 as [fixedIn|]; [|injection H as <-; apply quiet_emit].
  destruct (channel_out_of_range (strcmp_eq p2 "all") fixedOut);
    [injection H as <-; apply quiet_emit|].
  destruct (channel_out_of_range (strcmp_eq p4 "all") fixedIn) eqn:Hin;
    [injection H as <-; apply quiet_emit|].
  inv_bind H. injection H as <-. cbn [ld_server].
  eapply expand_route_quiet; [|exact Hin|exact E3].
  intros. by eapply route_command_from_file_quiet.
Qed.

Lemma process_routing_file_quiet st file again st' :
  process_routing_file st file again = Defined st' -> quiet st st'.
Proof.
  unfold process_routing_file. destruct file as [lines|]; [|intros [= <-]; apply quiet_emit].
  intros H. inv_bind H.
  assert (Hq : quiet st (ld_server a)).
  { revert E.
    apply (foldl_bind_rel (fun l l' => quiet (ld_server l) (ld_server l'))
             process_routing_line lines (mkLoader st true 0) a).
    - intros. apply quiet_refl.
    - intros ? ? ?. apply quiet_trans.
    - intros ? ? ? _. apply process_routing_line_quiet. }
  destruct (_ || _).
  - injection H as <-. eapply quiet_trans; [exact Hq | apply quiet_emit].
  - destruct again; injection H as <-; [|done].
    eapply quiet_trans; [exact Hq | apply quiet_emit].
Qed.

Lemma toggle_recording_quiet m st t m' st' :
  toggle_recording m st t = Defined (m', st') -> quiet st st'.
Proof.
  unfold toggle_recording. destruct (recording m); [intros [= _ <-]; apply quiet_emit|].
  destruct (fopen_ok t); [|intros [= _ <-]; apply quiet_emit].
  intros H. inv_bind H. injection H as _ <-. apply quiet_emit.
Qed.

Lemma record_row_quiet m st t st' : record_row m st t = Defined st' -> quiet st st'.
Proof.
  unfold record_row. destruct (recording m), (log_file m);
    try (intros [= <-]; apply quiet_refl).
  intros H. inv_bind H. injection H as <-. apply quiet_emit.
Qed.

Lemma poll_clients_preserves st ready st' :
  poll_clients st ready = Defined st' -> preserves st st'.
Proof.
  unfold poll_clients.
  apply (foldl_bind_rel preserves
           (fun s i => let* ci := arr_get (clients s) i in
                       match ready i with
                       | Some r => if active ci then handle_client_input s i r else Defined s
                       | None => Defined s
                       end));
    [apply preserves_refl | apply preserves_trans |].
  intros s i s' _ H. inv_bind H.
  destruct (ready i) as [r|]; [|injection H as <-; apply preserves_refl].
  destruct (active a); [|injection H as <-; apply preserves_refl].
  by eapply handle_client_input_preserves.
Qed.

Lemma monitor_tick_preserves m st t go m' st' :
  monitor_tick m st t = Defined (go, m', st') -> preserves st st'.
Proof.
  unfold monitor_tick. destruct (select_ret t <? 0); [intros [= _ _ <-]; apply preserves_emit|].
  intros H. inv_bind H. apply poll_clients_preserves in E.
  inv_bind H. inv_bind H. injection H as _ _ <-.
  apply record_row_quiet, quiet_preserves in E1.
  eapply preserves_trans; [exact E|]. eapply preserves_trans; [|exact E1].
  destruct (_ && _).
  - destruct a0 as [m1 s1]. apply toggle_recording_quiet in E0. by apply quiet_preserves.
  - injection E0 as <-. apply preserves_refl.
Qed.

Lemma monitor_loop_preserves m st ticks m' st' :
  monitor_loop m st ticks = Defined (m', st') -> preserves st st'.
Proof.
  revert m st. induction ticks as [|t ticks IH]; intros m st; cbn [monitor_loop].
  - intros [= _ <-]. apply preserves_refl.
  - intros H. inv_bind H. destruct a as [[go m1] s1]. cbn [fst snd] in H.
    apply monitor_tick_preserves in E. destruct go.
    + apply IH in H. by eapply preserves_trans.
    + by injection H as _ <-.
Qed.

Lemma monitor_mode_preserves st fps t0 ticks st' :
  monitor_mode st fps t0 ticks = Defined st' -> preserves st st'.
Proof.
  unfold monitor_mode, monitor_exit. intros H. inv_bind H. injection H as <-.
  destruct a as [m1 s1]. apply monitor_loop_preserves in E. cbn [fst snd].
  eapply preserves_trans; [apply preserves_emit|].
  eapply preserves_trans; [exact E | apply preserves_emit].
Qed.

Lemma server_step_preserves st inp go st' :
  server_step st inp = Defined (go, st') -> preserves st st'.
Proof.
  destruct inp as [sock | i r | line t0 ticks]; cbn [server_step].
  - intros H. inv_bind H. injection H as _ <-. by eapply handle_new_connection_preserves.
  - destruct (slot_active st i); [|intros [= _ <-]; apply preserves_refl].
    intros H. inv_bind H. injection H as _ <-. by eapply handle_client_input_preserves.
  - intros H. inv_bind H. destruct a as [ctl s1]. cbn [fst snd] in H.
    apply handle_console_input_quiet, quiet_preserves in E.
    destruct ctl; [by injection H as _ <- | | by injection H as _ <-].
    inv_bind H. injection H as _ <-. apply monitor_mode_preserves in E0.
    by eapply preserves_trans.
Qed.

Lemma run_preserves st inputs st' : run st inputs = Defined st' -> preserves st st'.
Proof.
  revert st. induction inputs as [|inp inputs IH]; intros st; cbn [run].
  - intros [= <-]. apply preserves_refl.
  - intros H. inv_bind H. destruct a as [go s1]. cbn [fst snd] in H.
    apply server_step_preserves in E. destruct go.
    + apply IH in H. by eapply preserves_trans.
    + by injection H as <-.
Qed.

Lemma init_clients_inactive i ci :
  arr_get (clients init_server) i = Defined ci -> ci = mkClientInfo 0 0 false "".
Proof.
  intros [_ H]%arr_get_Defined. cbn [clients init_server] in H.
  by apply lookup_replicate_1 in H as [-> _].
Qed.

Lemma inv_init_server : inv init_server.
Proof.
  constructor.
  - constructor; cbn [clients client_data routing init_server];
      rewrite ?length_replicate; try done; by apply Forall_replicate.
  - constructor.
    + done.
    + cbn [clients init_server]. by apply Forall_replicate.
    + cbn [clients next_client_id init_server]. by apply Forall_replicate.
    + intros i j ci cj Hi _ Ha. apply init_clients_inactive in Hi. by subst.
  - intros a c r. unfold route_at. cbn [routing init_server].
    destruct (arr_get _ a) as [row|] eqn:E; [|done]. cbn [bind].
    apply arr_get_Defined in E as [_ E]. apply lookup_replicate_1 in E as [-> _].
    intros [_ H]%arr_get_Defined. apply lookup_replicate_1 in H as [-> _]. simpl. lia.
Qed.

Lemma reachable_inv st : reachable st -> inv st.
Proof.
  intros (file & again & inputs & s0 & H0 & Hrun).
  apply process_routing_file_quiet, quiet_preserves in H0.
  apply run_preserves in Hrun.
  apply Hrun, H0, inv_init_server.
Qed.

Lemma live_id_positive st i ci :
  ids_ok st -> arr_get (clients st) i = Defined ci -> active ci = true -> 1 <= client_id ci.
Proof.
  intros Hids [_ H]%arr_get_Defined Ha.
  pose proof (ids_positive _ Hids) as HF. rewrite Forall_lookup in HF. by apply (HF _ _ H).
Qed.

(** ** Who writes the routing table *)

Lemma same_routes_refl st : same_routes st st.
Proof. reflexivity. Qed.

Lemma same_routes_trans st1 st2 st3 :
  same_routes st1 st2 -> same_routes st2 st3 -> same_routes st1 st3.
Proof. unfold same_routes. congruence. Qed.

Lemma same_routes_emit st evs : same_routes st (emit st evs).
Proof. reflexivity. Qed.

Lemma dispatch_line_routes st i line st' :
  dispatch_line st i line = Defined st' -> same_routes st st'.
Proof.
  unfold dispatch_line. intros H.
  destruct ((0 <=? _) && _); [|by injection H as <-].
  inv_bind H. destruct (record_output_inv _ _ _ _ _ E) as (_ & Hr & _).
  inv_bind H. inv_bind H.
  destruct (0 <=? in_client_id _); [|by injection H as <-].
  destruct (0 <=? find_client_index _ _); [|by injection H as <-].
  inv_bind H. destruct (active _); [|by injection H as <-].
  destruct (record_input_inv _ _ _ _ _ H) as (_ & Hr2 & _).
  unfold same_routes. rewrite Hr2. exact Hr.
Qed.

Lemma dispatch_loop_routes fuel st i start st' :
  dispatch_loop fuel st i start = Defined st' -> same_routes st st'.
Proof.
  revert st start. induction fuel as [|fuel IH]; intros st start; cbn [dispatch_loop].
  - by intros [= <-].
  - destruct (strchr start LF); [|by intros [= <-]].
    intros H. inv_bind H. apply dispatch_line_routes in E. apply IH in H.
    by eapply same_routes_trans.
Qed.

Lemma handle_client_input_routes st i r st' :
  handle_client_input st i r = Defined st' -> same_routes st st'.
Proof.
  unfold handle_client_input. destruct (recv_count r <=? 0).
  - intros H. inv_bind H. inv_bind H. by injection H as <-.
  - apply dispatch_loop_routes.
Qed.

Lemma handle_new_connection_routes st sock st' :
  handle_new_connection st sock = Defined st' -> same_routes st st'.
Proof.
  unfold handle_new_connection. destruct (sock <? 0); [by intros [= <-]|].
  destruct (find_free_slot st <? 0); [by intros [= <-]|].
  destruct (next_client_id st =? INT_MAX); [done|].
  intros H. inv_bind H. by injection H as <-.
Qed.

Lemma list_routes_routes st st' : list_routes st = Defined st' -> same_routes st st'.
Proof.
  unfold list_routes. intros H.
  apply (same_routes_trans _ (emit st [Ev_printf ("Routes:" +:+ NL)]));
    [apply same_routes_emit|].
  revert H.
  apply (foldl_bind_rel same_routes
           (fun s cid => if find_client_index s cid <? 0 then Defined s
                         else let* evs := list_routes_of s cid in Defined (emit s evs)));
    [apply same_routes_refl | apply same_routes_trans |].
  intros s x s' _. destruct (find_client_index s x <? 0); [by intros [= <-]|].
  intros H. inv_bind H. by injection H as <-.
Qed.

Lemma print_command_routes st cmdline st' :
  print_command st cmdline = Defined st' -> same_routes st st'.
Proof.
  unfold print_command.
  destruct (strtok cmdline) as [t0 s1], (strtok s1) as [p1 s2].
  destruct p1 as [p1|]; [|by intros [= <-]].
  intros H. inv_bind H.
  destruct (find_client_index st a <? 0); [by injection H as <-|].
  inv_bind H. inv_bind H. by injection H as <-.
Qed.

Lemma handle_console_input_routes st l ctl st' :
  strncmp_eq (trim_newline l) "route" 5 = false ->
  handle_console_input st (Some l) = Defined (ctl, st') -> same_routes st st'.
Proof.
  intros Hno. unfold handle_console_input. rewrite Hno.
  repeat match goal with
         | |- (if ?b then _ else _) = _ -> _ => destruct b
         end;
    try (by intros [= _ <-]);
    intros H; inv_bind H; injection H as _ <-.
  - by apply list_routes_routes.
  - apply same_routes_refl.
  - by eapply print_command_routes.
Qed.

Lemma monitor_mode_routes st fps t0 ticks st' :
  monitor_mode st fps t0 ticks = Defined st' -> same_routes st st'.
Proof.
  assert (Htoggle : forall m s t m' s',
            toggle_recording m s t = Defined (m', s') -> same_routes s s').
  { intros m s t m' s'. unfold toggle_recording.
    destruct (recording m); [by intros [= _ <-]|].
    destruct (fopen_ok t); [|by intros [= _ <-]].
    intros H. inv_bind H. by injection H as _ <-. }
  assert (Hrow : forall m s t s', record_row m s t = Defined s' -> same_routes s s').
  { intros m s t s'. unfold record_row.
    destruct (recording m), (log_file m); try (by intros [= <-]).
    intros H. inv_bind H. by injection H as <-. }
  assert (Hpoll : forall s ready s', poll_clients s ready = Defined s' -> same_routes s s').
  { intros s ready s'. unfold poll_clients.
    apply (foldl_bind_rel same_routes
             (fun s i => let* ci := arr_get (clients s) i in
                         match ready i with
                         | Some r => if active ci then handle_client_input s i r else Defined s
                         | None => Defined s
                         end));
      [apply same_routes_refl | apply same_routes_trans |].
    intros s0 i s0' _ H. inv_bind H.
    destruct (ready i) as [r|]; [|by injection H as <-].
    destruct (active a); [|by injection H as <-].
    by eapply handle_client_input_routes. }
  assert (Htick : forall m s t go m' s',
            monitor_tick m s t = Defined (go, m', s') -> same_routes s s').
  { intros m s t go m' s'. unfold monitor_tick.
    destruct (select_ret t <? 0); [by intros [= _ _ <-]|].
    intros H. inv_bind H. apply Hpoll in E. inv_bind H. inv_bind H.
    injection H as _ _ <-. apply Hrow in E1.
    eapply same_routes_trans; [exact E|]. eapply same_routes_trans; [|exact E1].
    destruct (_ && _).
    - destruct a0 as [m1 s1]. by apply Htoggle in E0.
    - by injection E0 as <-. }
  assert (Hloop : forall ticks m s m' s',
            monitor_loop m s ticks = Defined (m', s') -> same_routes s s').
  { clear ticks. induction ticks as [|t ticks IH]; intros m s m' s'; cbn [monitor_loop].
    - by intros [= _ <-].
    - intros H. inv_bind H. destruct a as [[go m1] s1]. cbn [fst snd] in H.
      apply Htick in E. destruct go.
      + apply IH in H. by eapply same_routes_trans.
      + by injection H as _ <-. }
  unfold monitor_mode, monitor_exit. intros H. inv_bind H. injection H as <-.
  destruct a as [m1 s1]. apply Hloop in E. exact E.
Qed.

Lemma server_step_routes st inp go st' :
  route_input inp = false ->
  server_step st inp = Defined (go, st') -> same_routes st st'.
Proof.
  destruct inp as [sock | i r | line t0 ticks]; cbn [server_step route_input].
  - intros _ H. inv_bind H. injection H as _ <-. by eapply handle_new_connection_routes.
  - intros _. destruct (slot_active st i); [|by intros [= _ <-]].
    intros H. inv_bind H. injection H as _ <-. by eapply handle_client_input_routes.
  - intros Hno H. inv_bind H. destruct a as [ctl s1]. cbn [fst snd] in H.
    assert (Hs1 : same_routes st s1).
    { destruct line as [l|]; [by eapply handle_console_input_routes|].
      by injection E as _ <-. }
    destruct ctl; [by injection H as _ <- | | by injection H as _ <-].
    inv_bind H. injection H as _ <-. apply monitor_mode_routes in E0.
    by eapply same_routes_trans.
Qed.

(** Nothing but a route command changes the routing table. *)
Lemma run_routes st inputs st' :
  Forall (fun inp => route_input inp = false) inputs ->
  run st inputs = Defined st' -> routing st' = routing st.
Proof.
  revert st. induction inputs as [|inp inputs IH]; intros st HF; cbn [run].
  - by intros [= <-].
  - apply Forall_cons in HF as [Hinp HF].
    intros H. inv_bind H. destruct a as [go s1]. cbn [fst snd] in H.
    apply server_step_routes in E; [|done]. destruct go.
    + apply IH in H; [|done]. unfold same_routes in E. congruence.
    + by injection H as <-.
Qed.

(** ** Frames *)

(** The dispatcher reads [outc: X] as channel [c] with the payload of [X]. *)
Lemma out_frame_parse c X :
  0 <= c < CHANNELS_PER_APP -> line_text X = true ->
  parse_out_ch (frame_text (out_frame c X)) = c /\
  message_of (frame_text (out_frame c X)) = payload_of X /\
  str_forall (differs NUL) (payload_of X) = true.
Proof.
  intros Hc [Hlf Hnul]%line_text_parts.
  assert (Hcut : str_forall (differs CR) (cut_at CR X) = true) by by apply cut_at_clean.
  assert (Hcut_lf : str_forall (differs LF) (cut_at CR X) = true) by by apply str_forall_cut_at.
  assert (Hcut_nul : str_forall (differs NUL) (cut_at CR X) = true) by by apply str_forall_cut_at.
  assert (Hft : frame_text (out_frame c X) = out_frame c (cut_at CR X)).
  { unfold frame_text, trim_newline.
    assert (H1 : cut_at CR (out_frame c X) = out_frame c (cut_at CR X)).
    { destruct (digit_cases c Hc) as [->|[->|[->|[->| ->]]]];
        unfold out_frame; simpl; by rewrite !cut_at_cons. }
    rewrite H1.
    assert (H2 : str_forall (differs LF) (out_frame c (cut_at CR X)) = true).
    { destruct (digit_cases c Hc) as [->|[->|[->|[->| ->]]]]; exact Hcut_lf. }
    assert (H3 : str_forall (differs CR) (out_frame c (cut_at CR X)) = true).
    { destruct (digit_cases c Hc) as [->|[->|[->|[->| ->]]]]; exact Hcut. }
    rewrite (cut_at_absent _ LF) by exact H2. by rewrite (cut_at_absent _ CR) by exact H3. }
  rewrite Hft. split_and!.
  - destruct (digit_cases c Hc) as [->|[->|[->|[->| ->]]]]; vm_compute; reflexivity.
  - destruct (digit_cases c Hc) as [->|[->|[->|[->| ->]]]]; reflexivity.
  - by apply str_forall_skip_blanks.
Qed.

Lemma out_frame_line_text c X :
  0 <= c < CHANNELS_PER_APP -> line_text X = true -> line_text (out_frame c X) = true.
Proof.
  intros Hc HX. destruct (digit_cases c Hc) as [->|[->|[->|[->| ->]]]]; exact HX.
Qed.

Lemma length_out_frame c X :
  0 <= c < CHANNELS_PER_APP ->
  String.length (out_frame c X) = (6 + String.length X)%nat.
Proof. intros Hc. destruct (digit_cases c Hc) as [->|[->|[->|[->| ->]]]]; reflexivity. Qed.

Lemma length_payload_of_le X : (String.length (payload_of X) <= String.length X)%nat.
Proof.
  unfold payload_of. pose proof (length_skip_blanks_le (cut_at CR X)).
  pose proof (length_cut_at_le CR X). lia.
Qed.

Lemma payload_of_ok X : payload_ok X = true -> payload_of X = X.
Proof.
  unfold payload_ok, payload_of. intros [H1 H2]%andb_prop.
  rewrite !str_forall_and in H1. apply andb_prop in H1 as [_ Hcr].
  rewrite cut_at_absent by done. by apply String.eqb_eq.
Qed.

(** The envelope of a message that came in one read is not cut short. *)
Lemma envelope_fits b d a msg :
  0 <= d < CHANNELS_PER_APP -> str_forall (differs NUL) msg = true ->
  (String.length msg <= 504)%nat ->
  envelope (mkRoute b d) a msg =
  "in" +:+ fmt_d d +:+ " from client" +:+ fmt_d a +:+ ": " +:+ msg +:+ NL.
Proof.
  intros Hd Hnul Hlen. unfold envelope, snprintf. cbn [in_channel].
  rewrite (cstr_plain _ Hnul). apply take_all.
  rewrite !length_append, (length_fmt_d_channel d Hd), length_NL.
  pose proof (length_fmt_d a). simpl. lia.
Qed.

(** What the dispatcher does with a line on channel [c]: it records the
    message as output, then either stops there or sends the envelope to the
    live destination of the route and records it as input. *)
Lemma dispatch_line_cases st i ci line c msg :
  inv st -> arr_get (clients st) i = Defined ci ->
  0 <= client_id ci <= MAX_CLIENTS ->
  parse_out_ch (frame_text line) = c -> 0 <= c < CHANNELS_PER_APP ->
  message_of (frame_text line) = msg ->
  exists st1 r,
    record_output st i c msg = Defined st1 /\
    route_at st (client_id ci) c = Defined r /\
    (((in_client_id r < 0 \/ find_client_index st (in_client_id r) = -1) /\
      dispatch_line st i line = Defined st1)
     \/
     (exists j cj st2,
        0 <= in_client_id r /\ find_client_index st (in_client_id r) = j /\ 0 <= j /\
        arr_get (clients st) j = Defined cj /\ active cj = true /\
        client_id cj = in_client_id r /\
        record_input (emit st1 [Ev_send (sockfd cj) (envelope r (client_id ci) msg)])
                     j (in_channel r) (envelope r (client_id ci) msg) = Defined st2 /\
        dispatch_line st i line = Defined st2)).
Proof.
  intros [Hwf Hids Hroutes] Hci Hid Hc Hcr Hmsg.
  pose proof (slot_in_range _ _ _ Hwf Hci) as Hi.
  destruct (record_output_defined st i c msg Hwf Hi Hcr) as [st1 Hst1].
  destruct (record_output_inv _ _ _ _ _ Hst1) as (Hcl & Hrt & _ & _ & Hwf1 & _).
  destruct (route_at_defined st (client_id ci) c Hwf Hid Hcr) as [r Hr].
  exists st1, r. split; [done|]. split; [done|].
  unfold dispatch_line. rewrite Hc, Hmsg.
  destruct (Z.leb_spec 0 c); [|lia]. destruct (Z.ltb_spec c CHANNELS_PER_APP); [|lia].
  cbn [andb]. rewrite Hst1. cbn [bind]. rewrite Hcl, Hci. cbn [bind].
  rewrite (route_at_same st st1) by done. rewrite Hr. cbn [bind].
  rewrite (find_client_index_same_clients st st1) by done.
  destruct (Z.leb_spec 0 (in_client_id r)) as [Hin|Hin]; [|left; split; [left; lia | done]].
  destruct (find_client_index_cases st (in_client_id r))
    as [[Hnone _] | (cj & Hj & Hcj & Haj & Hidj)].
  - rewrite Hnone. cbn [Z.leb Z.compare]. left. split; [by right | done].
  - destruct (Z.leb_spec 0 (find_client_index st (in_client_id r))); [|lia].
    rewrite Hcj. cbn [bind]. rewrite Haj.
    assert (Hjr : 0 <= find_client_index st (in_client_id r) < MAX_CLIENTS)
      by (eapply slot_in_range; eauto).
    destruct (record_input_defined
                (emit st1 [Ev_send (sockfd cj) (envelope r (client_id ci) msg)])
                (find_client_index st (in_client_id r)) (in_channel r)
                (envelope r (client_id ci) msg)) as [st2 Hst2].
    { apply wf_emit. auto. }
    { done. }
    { by apply (Hroutes (client_id ci) c). }
    right. exists (find_client_index st (in_client_id r)), cj, st2. by split_and!.
Qed.

(** ** Connections and routes *)

Lemma disconnect_spec st j cj r :
  wf st -> arr_get (clients st) j = Defined cj -> recv_count r <= 0 ->
  exists st1,
    handle_client_input st j r = Defined st1 /\
    routing st1 = routing st /\ client_data st1 = client_data st /\
    next_client_id st1 = next_client_id st /\
    trace st1 = trace st ++ [Ev_printf ("Client " +:+ fmt_d (client_id cj)
                                        +:+ " disconnected." +:+ NL);
                             Ev_close (sockfd cj)] /\
    arr_get (clients st1) j
      = Defined (mkClientInfo (sockfd cj) (client_id cj) false (name cj)) /\
    (forall k, k <> j -> arr_get (clients st1) k = arr_get (clients st) k).
Proof.
  intros Hwf Hcj Hr. unfold handle_client_input.
  destruct (Z.leb_spec (recv_count r) 0); [|lia].
  rewrite Hcj. cbn [bind clients emit].
  pose proof (arr_get_range _ _ _ Hcj) as Hj.
  rewrite arr_set_in_range by done. cbn [bind].
  eexists. split; [reflexivity|].
  cbn [routing client_data next_client_id trace clients set_clients emit].
  split_and!; try done.
  - exact (arr_get_set_eq _ _ _ _ (arr_set_in_range (clients st) j _ Hj)).
  - intros k Hk.
    apply (arr_get_set_ne _ _ _ _ _ (arr_set_in_range (clients st) j _ Hj)). congruence.
Qed.

Lemma disconnect_retires st j cj r st1 :
  inv st -> arr_get (clients st) j = Defined cj -> active cj = true ->
  recv_count r <= 0 -> handle_client_input st j r = Defined st1 ->
  retired st1 (client_id cj).
Proof.
  intros Hinv Hcj Ha Hr H1.
  destruct (disconnect_spec st j cj r (inv_wf _ Hinv) Hcj Hr)
    as (st1' & H1' & _ & _ & Hn & _ & Hj & Hother).
  rewrite H1 in H1'. injection H1' as <-.
  split.
  - rewrite Hn. pose proof (ids_below _ (inv_ids _ Hinv)) as HF.
    rewrite Forall_lookup in HF. apply arr_get_Defined in Hcj as [_ Hcj].
    exact (HF _ _ Hcj).
  - intros (k & ck & Hk & Hak & Hidk).
    destruct (Z.eq_dec k j) as [->|Hne].
    + rewrite Hj in Hk. injection Hk as <-. done.
    + rewrite Hother in Hk by done.
      apply Hne. by apply (ids_distinct _ (inv_ids _ Hinv) k j ck cj).
Qed.

Lemma connect_spec st client_sock :
  0 <= client_sock -> 0 <= find_free_slot st -> next_client_id st <> INT_MAX ->
  exists st',
    handle_new_connection st client_sock = Defined st' /\
    client_data st' = client_data st /\ routing st' = routing st /\
    next_client_id st' = next_client_id st + 1 /\
    arr_get (clients st') (find_free_slot st)
      = Defined (mkClientInfo client_sock (next_client_id st) true
                   (snprintf 64 ("Client" +:+ fmt_d (next_client_id st)))) /\
    (forall k, k <> find_free_slot st -> arr_get (clients st') k = arr_get (clients st) k).
Proof.
  intros Hs Hidx Hn. unfold handle_new_connection.
  destruct (Z.ltb_spec client_sock 0); [lia|].
  destruct (Z.ltb_spec (find_free_slot st) 0); [lia|].
  destruct (Z.eqb_spec (next_client_id st) INT_MAX); [done|].
  destruct (find_free_slot_spec st) as [[Hf _] | (c & Hr & _)]; [lia|].
  pose proof (arr_set_in_range (clients st) (find_free_slot st)
                (mkClientInfo client_sock (next_client_id st) true
                   (snprintf 64 ("Client" +:+ fmt_d (next_client_id st)))) Hr) as Hset.
  rewrite Hset. cbn [bind]. eexists. split; [reflexivity|].
  cbn [client_data routing next_client_id clients emit set_clients set_next_client_id].
  split_and!; try done.
  - exact (arr_get_set_eq _ _ _ _ Hset).
  - intros k Hk. apply (arr_get_set_ne _ _ _ _ _ Hset). congruence.
Qed.

Lemma route_command_live st a c b d :
  wf st -> 0 <= a <= MAX_CLIENTS -> 0 <= c < CHANNELS_PER_APP ->
  0 <= find_client_index st a -> 0 <= find_client_index st b ->
  exists st0,
    write_route st a c b d = Defined st0 /\
    route_command st a c b d =
    Defined (emit st0 [Ev_printf ("Routed client" +:+ fmt_d a +:+ " out" +:+ fmt_d c
                                  +:+ " -> client" +:+ fmt_d b +:+ " in" +:+ fmt_d d +:+ NL)]).
Proof.
  intros Hwf Ha Hc Hla Hlb. unfold route_command.
  destruct (Z.ltb_spec (find_client_index st a) 0); [lia|].
  destruct (Z.ltb_spec (find_client_index st b) 0); [lia|].
  destruct (write_route_defined st a c b d Hwf Ha Hc) as [st0 Hw].
  exists st0. by rewrite Hw.
Qed.

(** ** Command lines *)

Lemma is_token_parts t :
  is_token t = true ->
  t <> "" /\ str_forall (differs SP) t = true /\ str_forall (differs NUL) t = true /\
  str_forall (differs LF) t = true /\ str_forall (differs CR) t = true.
Proof.
  unfold is_token. intros [H1 H2]%andb_prop.
  rewrite !str_forall_and in H2.
  apply andb_prop in H2 as [H2 Hcr]. apply andb_prop in H2 as [H2 Hlf].
  apply andb_prop in H2 as [Hsp Hnul].
  split_and!; try done. intros ->. done.
Qed.

Lemma is_token_digits s : s <> "" -> str_forall isdigit s = true -> is_token s = true.
Proof.
  intros Hne Hd. unfold is_token. apply andb_true_intro. split.
  - apply negb_true_iff, String.eqb_neq. done.
  - revert Hd. apply str_forall_impl. intros x Hx.
    by rewrite !(isdigit_differs _ x) by done.
Qed.

Lemma is_token_fmt_d z : is_token (fmt_d z) = true.
Proof.
  unfold fmt_d. destruct (Z.ltb_spec z 0).
  - pose proof (is_token_digits (udec 10 (- z)) (udec_nonempty 9 _)
                  (udec_digits 10 (- z) ltac:(lia))) as H'.
    unfold is_token in *. apply andb_prop in H' as [_ H']. simpl. exact H'.
  - apply is_token_digits; [apply udec_nonempty | by apply udec_digits].
Qed.

Lemma span_token_token t rest :
  str_forall (differs SP) t = true -> str_forall (differs NUL) t = true ->
  span_token (t +:+ String SP rest) = (t, rest).
Proof.
  induction t as [|x t IH]; simpl.
  - intros _ _. reflexivity.
  - unfold differs at 1 3. intros [H1 H2]%andb_prop [H3 H4]%andb_prop.
    apply negb_true_iff in H1, H3. rewrite H1, H3, IH by done. reflexivity.
Qed.

Lemma span_token_last t :
  str_forall (differs SP) t = true -> str_forall (differs NUL) t = true ->
  span_token t = (t, "").
Proof.
  induction t as [|x t IH]; simpl; [done|].
  unfold differs at 1 3. intros [H1 H2]%andb_prop [H3 H4]%andb_prop.
  apply negb_true_iff in H1, H3. rewrite H1, H3, IH by done. reflexivity.
Qed.

Lemma strtok_head t rest :
  is_token t = true ->
  skip_delims (t +:+ rest) = t +:+ rest /\ cstr (t +:+ rest) <> "".
Proof.
  intros (Hne & Hsp & Hnul & _)%is_token_parts.
  destruct t as [|x t]; [done|]. simpl in *.
  unfold differs in Hsp, Hnul.
  apply andb_prop in Hsp as [Hsp _]. apply andb_prop in Hnul as [Hnul _].
  apply negb_true_iff in Hsp, Hnul. by rewrite Hsp, Hnul.
Qed.

Lemma strtok_token t rest :
  is_token t = true -> strtok (t +:+ String SP rest) = (Some t, rest).
Proof.
  intros Ht. destruct (strtok_head t (String SP rest) Ht) as [H1 H2].
  destruct (is_token_parts t Ht) as (_ & Hsp & Hnul & _).
  unfold strtok. rewrite H1, span_token_token by done.
  by destruct (cstr (t +:+ String SP rest)).
Qed.

Lemma strtok_last t : is_token t = true -> strtok t = (Some t, "").
Proof.
  intros Ht. destruct (strtok_head t "" Ht) as [H1 H2].
  rewrite append_empty_r in H1, H2.
  destruct (is_token_parts t Ht) as (_ & Hsp & Hnul & _).
  unfold strtok. rewrite H1, span_token_last by done.
  by destruct (cstr t).
Qed.

Lemma trim_newline_line body :
  str_forall (differs NUL) body = true -> str_forall (differs LF) body = true ->
  str_forall (differs CR) body = true ->
  trim_newline (body +:+ NL) = body.
Proof.
  intros Hnul Hlf Hcr. unfold trim_newline, cut_at at 2. unfold NL.
  rewrite strchr_app_found.
  - rewrite take_app_length. by apply cut_at_absent.
  - rewrite str_forall_and. by rewrite Hlf, Hnul.
Qed.

(** The text of a route line without its newline. *)
Lemma route_line_body pA s1 pB s2 :
  route_line pA s1 pB s2
  = ("route " +:+ pA +:+ " " +:+ s1 +:+ " " +:+ pB +:+ " " +:+ s2) +:+ NL.
Proof. unfold route_line. by rewrite !append_assoc. Qed.

Lemma trim_route_line pA s1 pB s2 :
  is_token pA = true -> is_token s1 = true -> is_token pB = true -> is_token s2 = true ->
  trim_newline (route_line pA s1 pB s2)
  = "route " +:+ pA +:+ " " +:+ s1 +:+ " " +:+ pB +:+ " " +:+ s2.
Proof.
  intros (_ & _ & A1 & A2 & A3)%is_token_parts (_ & _ & B1 & B2 & B3)%is_token_parts
         (_ & _ & C1 & C2 & C3)%is_token_parts (_ & _ & D1 & D2 & D3)%is_token_parts.
  rewrite route_line_body. apply trim_newline_line;
    rewrite !str_forall_app; simpl;
    rewrite ?A1, ?A2, ?A3, ?B1, ?B2, ?B3, ?C1, ?C2, ?C3, ?D1, ?D2, ?D3; reflexivity.
Qed.

Lemma route_tokens pA s1 pB s2 :
  is_token pA = true -> is_token s1 = true -> is_token pB = true -> is_token s2 = true ->
  let body := "route " +:+ pA +:+ " " +:+ s1 +:+ " " +:+ pB +:+ " " +:+ s2 in
  exists r1 r2 r3 r4,
    strtok body = (Some "route", r1) /\ strtok r1 = (Some pA, r2) /\
    strtok r2 = (Some s1, r3) /\ strtok r3 = (Some pB, r4) /\ strtok r4 = (Some s2, "").
Proof.
  intros HA H1 HB H2 body.
  exists (pA +:+ " " +:+ s1 +:+ " " +:+ pB +:+ " " +:+ s2),
         (s1 +:+ " " +:+ pB +:+ " " +:+ s2), (pB +:+ " " +:+ s2), s2.
  split_and!.
  - exact (strtok_token "route" _ eq_refl).
  - by apply (strtok_token pA).
  - by apply (strtok_token s1).
  - by apply (strtok_token pB).
  - by apply strtok_last.
Qed.

Lemma console_route_line st pA s1 pB s2 :
  is_token pA = true -> is_token s1 = true -> is_token pB = true -> is_token s2 = true ->
  handle_console_input st (Some (route_line pA s1 pB s2)) =
  let* s := console_route_args st pA s1 pB s2 in Defined (Ctl_continue, s).
Proof.
  intros HA H1 HB H2. unfold handle_console_input.
  rewrite trim_route_line by done.
  destruct (route_tokens pA s1 pB s2 HA H1 HB H2) as (r1 & r2 & r3 & r4 & T0 & T1 & T2 & T3 & T4).
  set (body := "route " +:+ pA +:+ " " +:+ s1 +:+ " " +:+ pB +:+ " " +:+ s2) in *.
  assert (strcmp_eq body "" = false) as -> by reflexivity.
  assert (strcmp_eq body "help" = false) as -> by reflexivity.
  assert (strcmp_eq body "list" = false) as -> by reflexivity.
  assert (strcmp_eq body "routes" = false) as -> by reflexivity.
  assert (strcmp_eq body "exit" = false) as -> by reflexivity.
  assert (strncmp_eq body "monitor" 7 = false) as -> by reflexivity.
  assert (strncmp_eq body "print" 5 = false) as -> by reflexivity.
  assert (strncmp_eq body "route" 5 = true) as -> by reflexivity.
  unfold console_route. by rewrite T0, T1, T2, T3, T4.
Qed.

Lemma loader_route_line ld pA s1 pB s2 :
  is_token pA = true -> is_token s1 = true -> is_token pB = true -> is_token s2 = true ->
  process_routing_line ld (route_line pA s1 pB s2) =
  loader_route_args ld (cmd_count ld + 1) pA s1 pB s2.
Proof.
  intros HA H1 HB H2. unfold process_routing_line.
  rewrite trim_route_line by done.
  destruct (route_tokens pA s1 pB s2 HA H1 HB H2) as (r1 & r2 & r3 & r4 & T0 & T1 & T2 & T3 & T4).
  set (body := "route " +:+ pA +:+ " " +:+ s1 +:+ " " +:+ pB +:+ " " +:+ s2) in *.
  assert (Nat.eqb (strlen body) 0 = false) as -> by reflexivity.
  assert (strncmp_eq body "route" 5 = true) as -> by reflexivity.
  cbn [negb orb]. rewrite T0.
  assert (strcmp_eq "route" "route" = true) as -> by reflexivity.
  cbn [negb]. by rewrite T1, T2, T3, T4.
Qed.

Lemma console_route_args_all_all st pA pB :
  console_route_args st pA "all" pB "all" =
  let* a := atoi pA in let* b := atoi pB in
  for_channels (fun s i => route_command s a i b i) st.
Proof. unfold console_route_args. destruct (atoi pA), (atoi pB); reflexivity. Qed.

Lemma console_route_args_all_fixed st pA pB d :
  0 <= d < CHANNELS_PER_APP ->
  console_route_args st pA "all" pB (fmt_d d) =
  let* a := atoi pA in let* b := atoi pB in
  for_channels (fun s i => route_command s a i b d) st.
Proof.
  intros Hd. unfold console_route_args.
  destruct (digit_cases d Hd) as [->|[->|[->|[->| ->]]]];
    destruct (atoi pA), (atoi pB); reflexivity.
Qed.

Lemma console_route_args_fixed st pA pB i d :
  0 <= i < CHANNELS_PER_APP -> 0 <= d < CHANNELS_PER_APP ->
  console_route_args st pA (fmt_d i) pB (fmt_d d) =
  let* a := atoi pA in let* b := atoi pB in route_command st a i b d.
Proof.
  intros Hi Hd. unfold console_route_args.
  destruct (digit_cases i Hi) as [->|[->|[->|[->| ->]]]];
    destruct (digit_cases d Hd) as [->|[->|[->|[->| ->]]]];
    destruct (atoi pA), (atoi pB); reflexivity.
Qed.

(** Five console lines with fixed channels against one bulk loop. *)
Lemma console_seq_channels st pA pB (dst : Z -> Z) :
  is_token pA = true -> is_token pB = true ->
  (forall i, 0 <= i < CHANNELS_PER_APP -> 0 <= dst i < CHANNELS_PER_APP) ->
  console_seq st (map (fun i => route_line pA (fmt_d i) pB (fmt_d (dst i)))
                      (seqZ 0 CHANNELS_PER_APP)) =
  let* a := atoi pA in let* b := atoi pB in
  for_channels (fun s i => route_command s a i b (dst i)) st.
Proof.
  intros HA HB Hdst. unfold console_seq, for_channels.
  rewrite (foldl_bind_map
             (fun s l => let* cs := handle_console_input s (Some l) in Defined (snd cs))).
  rewrite (foldl_bind_ext _
             (fun s i => let* a := atoi pA in let* b := atoi pB in
                         route_command s a i (b : Z) (dst i))).
  - destruct (atoi pA) as [a|]; [destruct (atoi pB) as [b|]|]; cbn [bind].
    + apply foldl_bind_ext. intros s i _. by destruct (route_command s a i b (dst i)).
    + rewrite channels_list. reflexivity.
    + rewrite channels_list. reflexivity.
  - intros s i Hi%elem_of_channels.
    rewrite console_route_line by first [done | apply is_token_fmt_d].
    rewrite console_route_args_fixed by auto.
    destruct (atoi pA) as [a|]; [destruct (atoi pB) as [b|]|]; cbn [bind]; try done.
    by destruct (route_command s a i b (dst i)).
Qed.

Lemma console_seq_single st l :
  console_seq st [l] = let* cs := handle_console_input st (Some l) in Defined (snd cs).
Proof. reflexivity. Qed.

Lemma console_bulk st pA pB :
  is_token pA = true -> is_token pB = true ->
  console_seq st [route_line pA "all" pB "all"]
  = console_seq st (map (fun i => route_line pA (fmt_d i) pB (fmt_d i))
                        (seqZ 0 CHANNELS_PER_APP)).
Proof.
  intros HA HB. rewrite (console_seq_channels st pA pB (fun i => i)) by done.
  rewrite console_seq_single, console_route_line by done.
  rewrite console_route_args_all_all.
  destruct (atoi pA) as [a|]; [destruct (atoi pB) as [b|]|]; cbn [bind]; try done.
  by destruct (for_channels _ st).
Qed.

Lemma console_bulk_fixed st pA pB d :
  is_token pA = true -> is_token pB = true -> 0 <= d < CHANNELS_PER_APP ->
  console_seq st [route_line pA "all" pB (fmt_d d)]
  = console_seq st (map (fun i => route_line pA (fmt_d i) pB (fmt_d d))
                        (seqZ 0 CHANNELS_PER_APP)).
Proof.
  intros HA HB Hd. rewrite (console_seq_channels st pA pB (fun _ => d)) by done.
  rewrite console_seq_single, console_route_line by first [done | apply is_token_fmt_d].
  rewrite console_route_args_all_fixed by done.
  destruct (atoi pA) as [a|]; [destruct (atoi pB) as [b|]|]; cbn [bind]; try done.
  by destruct (for_channels _ st).
Qed.

Lemma loader_route_args_all_all ld cnt pA pB :
  loader_route_args ld cnt pA "all" pB "all" =
  let* a := atoi pA in let* b := atoi pB in
  let* s := for_channels (fun s i => route_command_from_file s a i b i) (ld_server ld) in
  Defined (mkLoader s (all_success ld) cnt).
Proof. unfold loader_route_args. destruct (atoi pA), (atoi pB); reflexivity. Qed.

Lemma loader_route_args_all_fixed ld cnt pA pB d :
  0 <= d < CHANNELS_PER_APP ->
  loader_route_args ld cnt pA "all" pB (fmt_d d) =
  let* a := atoi pA in let* b := atoi pB in
  let* s := for_channels (fun s i => route_command_from_file s a i b d) (ld_server ld) in
  Defined (mkLoader s (all_success ld) cnt).
Proof.
  intros Hd. unfold loader_route_args.
  destruct (digit_cases d Hd) as [->|[->|[->|[->| ->]]]];
    destruct (atoi pA), (atoi pB); reflexivity.
Qed.

Lemma loader_route_args_fixed ld cnt pA pB i d :
  0 <= i < CHANNELS_PER_APP -> 0 <= d < CHANNELS_PER_APP ->
  loader_route_args ld cnt pA (fmt_d i) pB (fmt_d d) =
  let* a := atoi pA in let* b := atoi pB in
  let* s := route_command_from_file (ld_server ld) a i b d in
  Defined (mkLoader s (all_success ld) cnt).
Proof.
  intros Hi Hd. unfold loader_route_args.
  destruct (digit_cases i Hi) as [->|[->|[->|[->| ->]]]];
    destruct (digit_cases d Hd) as [->|[->|[->|[->| ->]]]];
    destruct (atoi pA), (atoi pB); reflexivity.
Qed.

Lemma loader_seq_cons ld raw lines :
  loader_seq ld (raw :: lines) =
  let* l := process_routing_line ld raw in loader_seq l lines.
Proof. unfold loader_seq. apply foldl_bind_cons. Qed.

(** Lines with fixed channels, one after the other, thread the server
    through route_command_from_file and leave the success flag alone. *)
Lemma loader_seq_fixed pA pB a b (dst : Z -> Z) l ld :
  is_token pA = true -> is_token pB = true ->
  atoi pA = Defined a -> atoi pB = Defined b ->
  (forall i, i ∈ l -> 0 <= i < CHANNELS_PER_APP /\ 0 <= dst i < CHANNELS_PER_APP) ->
  outcome_map loader_tables
    (loader_seq ld (map (fun i => route_line pA (fmt_d i) pB (fmt_d (dst i))) l))
  = outcome_map (fun s => (s, all_success ld))
      (foldl (fun acc i => let* s := acc in route_command_from_file s a i b (dst i))
             (Defined (ld_server ld)) l).
Proof.
  intros HA HB Ha Hb. revert ld. induction l as [|i l IH]; intros ld Hl; [reflexivity|].
  cbn [map]. rewrite loader_seq_cons, foldl_bind_cons.
  destruct (Hl i (list_elem_of_here _ _)) as [Hi Hd].
  rewrite loader_route_line by first [done | apply is_token_fmt_d].
  rewrite loader_route_args_fixed, Ha, Hb by done. cbn [bind].
  destruct (route_command_from_file (ld_server ld) a i b (dst i)) as [s|]; cbn [bind];
    [|reflexivity].
  rewrite IH; [reflexivity|]. intros j Hj. apply Hl. by apply list_elem_of_further.
Qed.

Lemma loader_seq_channels ld pA pB (dst : Z -> Z) :
  is_token pA = true -> is_token pB = true ->
  (forall i, 0 <= i < CHANNELS_PER_APP -> 0 <= dst i < CHANNELS_PER_APP) ->
  outcome_map loader_tables
    (loader_seq ld (map (fun i => route_line pA (fmt_d i) pB (fmt_d (dst i)))
                        (seqZ 0 CHANNELS_PER_APP)))
  = let* a := atoi pA in let* b := atoi pB in
    let* s := for_channels (fun s i => route_command_from_file s a i b (dst i))
                           (ld_server ld) in
    Defined (s, all_success ld).
Proof.
  intros HA HB Hdst.
  destruct (atoi pA) as [a|] eqn:Ha; [destruct (atoi pB) as [b|] eqn:Hb|]; cbn [bind].
  - rewrite (loader_seq_fixed pA pB a b dst) by
      (done || (intros i Hi%elem_of_channels; auto)).
    reflexivity.
  - rewrite channels_list. cbn [map]. rewrite loader_seq_cons.
    rewrite loader_route_line by first [done | apply is_token_fmt_d].
    unfold loader_route_args. by rewrite Ha, Hb.
  - rewrite channels_list. cbn [map]. rewrite loader_seq_cons.
    rewrite loader_route_line by first [done | apply is_token_fmt_d].
    unfold loader_route_args. by rewrite Ha.
Qed.

Lemma loader_seq_single ld raw : loader_seq ld [raw] = process_routing_line ld raw.
Proof.
  rewrite loader_seq_cons. by destruct (process_routing_line ld raw).
Qed.

Lemma loader_bulk ld pA pB :
  is_token pA = true -> is_token pB = true ->
  outcome_map loader_tables (loader_seq ld [route_line pA "all" pB "all"])
  = outcome_map loader_tables
      (loader_seq ld (map (fun i => route_line pA (fmt_d i) pB (fmt_d i))
                          (seqZ 0 CHANNELS_PER_APP))).
Proof.
  intros HA HB. rewrite (loader_seq_channels ld pA pB (fun i => i)) by done.
  rewrite loader_seq_single, loader_route_line by done.
  rewrite loader_route_args_all_all.
  destruct (atoi pA) as [a|]; [destruct (atoi pB) as [b|]|]; cbn [bind]; try done.
  by destruct (for_channels _ (ld_server ld)).
Qed.

Lemma loader_bulk_fixed ld pA pB d :
  is_token pA = true -> is_token pB = true -> 0 <= d < CHANNELS_PER_APP ->
  outcome_map loader_tables (loader_seq ld [route_line pA "all" pB (fmt_d d)])
  = outcome_map loader_tables
      (loader_seq ld (map (fun i => route_line pA (fmt_d i) pB (fmt_d d))
                          (seqZ 0 CHANNELS_PER_APP))).
Proof.
  intros HA HB Hd. rewrite (loader_seq_channels ld pA pB (fun _ => d)) by done.
  rewrite loader_seq_single, loader_route_line by first [done | apply is_token_fmt_d].
  rewrite loader_route_args_all_fixed by done.
  destruct (atoi pA) as [a|]; [destruct (atoi pB) as [b|]|]; cbn [bind]; try done.
  by destruct (for_channels _ (ld_server ld)).
Qed.

(** The console line [route A c B d] with decimal identifiers and channel
    numbers is a call of route_command with these four numbers. *)
Lemma console_line_is_route_command st A c B d :
  INT_MIN <= A <= INT_MAX -> INT_MIN <= B <= INT_MAX ->
  0 <= c < CHANNELS_PER_APP -> 0 <= d < CHANNELS_PER_APP ->
  handle_console_input st (Some (route_line (fmt_d A) (fmt_d c) (fmt_d B) (fmt_d d)))
  = let* s := route_command st A c B d in Defined (Ctl_continue, s).
Proof.
  intros HA HB Hc Hd.
  rewrite console_route_line by apply is_token_fmt_d.
  by rewrite console_route_args_fixed, !atoi_fmt_d by done.
Qed.

(** The same for a line of the startup file and route_command_from_file. *)
Lemma loader_line_is_route_command_from_file ld A c B d :
  INT_MIN <= A <= INT_MAX -> INT_MIN <= B <= INT_MAX ->
  0 <= c < CHANNELS_PER_APP -> 0 <= d < CHANNELS_PER_APP ->
  process_routing_line ld (route_line (fmt_d A) (fmt_d c) (fmt_d B) (fmt_d d))
  = let* s := route_command_from_file (ld_server ld) A c B d in
    Defined (mkLoader s (all_success ld) (cmd_count ld + 1)).
Proof.
  intros HA HB Hc Hd.
  rewrite loader_route_line by apply is_token_fmt_d.
  by rewrite loader_route_args_fixed, !atoi_fmt_d by done.
Qed.

(** ** The locals of monitor mode *)

Lemma monitor_ok_enter fps t0 : monitor_ok t0 (monitor_enter fps t0).
Proof. split; [done | discriminate]. Qed.

Lemma toggle_recording_ok t0 m st t m' st' :
  monitor_ok t0 m -> toggle_recording m st t = Defined (m', st') -> monitor_ok t0 m'.
Proof.
  intros [Hs Hl]. unfold toggle_recording.
  destruct (recording m); [intros [= <- _]; split; [done | discriminate]|].
  destruct (fopen_ok t); [|intros [= <- _]; split; [done | discriminate]].
  intros H. inv_bind H. injection H as <- _. split; [done|]. intros _. by eexists.
Qed.

Lemma monitor_tick_ok t0 m st t go m' st' :
  monitor_ok t0 m -> monitor_tick m st t = Defined (go, m', st') -> monitor_ok t0 m'.
Proof.
  intros Hok. unfold monitor_tick. destruct (select_ret t <? 0); [by intros [= _ <- _]|].
  intros H. inv_bind H. inv_bind H. inv_bind H. injection H as _ <- _.
  destruct (_ && _).
  - destruct a0 as [m1 s1]. by eapply toggle_recording_ok.
  - by injection E0 as <-.
Qed.

Lemma monitor_loop_ok t0 m st ticks m' st' :
  monitor_ok t0 m -> monitor_loop m st ticks = Defined (m', st') -> monitor_ok t0 m'.
Proof.
  revert m st. induction ticks as [|t ticks IH]; intros m st Hok; cbn [monitor_loop].
  - by intros [= <- _].
  - intros H. inv_bind H. destruct a as [[go m1] s1]. cbn [fst snd] in H.
    pose proof (monitor_tick_ok _ _ _ _ _ _ _ Hok E) as Hok1. destruct go.
    + by eapply IH.
    + by injection H as <- _.
Qed.

(** ** Facts about the sample states *)

Lemma reachable_booted inputs st : run booted inputs = Defined st -> reachable st.
Proof. intros H. by exists None, None, inputs, booted. Qed.

Lemma reachable_two_clients : reachable two_clients.
Proof. apply (reachable_booted [In_accept 4; In_accept 5]). vm_compute. reflexivity. Qed.

Lemma reachable_two_clients_routed : reachable two_clients_routed.
Proof.
  apply (reachable_booted
           [In_accept 4; In_accept 5;
            In_console (Some (route_line "1" "0" "2" "0")) (mkTimeval 0 0) []]).
  vm_compute. reflexivity.
Qed.

Lemma wf_booted : wf booted.
Proof. apply wf_emit, inv_init_server. Qed.

Lemma wf_one_spoke : wf one_spoke.
Proof.
  apply inv_wf, reachable_inv.
  apply (reachable_booted [In_accept 4; In_accept 5;
                           In_client 0 (Recv_bytes ("out0: hello" +:+ NL))]).
  vm_compute. reflexivity.
Qed.

Lemma full_registry_run : run booted twenty_accepts = Defined full_registry.
Proof. vm_compute. reflexivity. Qed.

Lemma tick_toggle_starts_recording :
  exists m' st',
    monitor_tick (monitor_enter 2 (mkTimeval 100 0)) two_clients tick_toggle
      = Defined (true, m', st') /\
    recording m' = true.
Proof. eexists. eexists. split; [vm_compute; reflexivity | reflexivity]. Qed.

(** ** Routing correctness (C1) *)

(** Counterexample to C1 as stated.  With the route 1 0 2 0 in place, a frame
    of client 1 whose payload is 500 letters is sent on to client 2 in full,
    519 bytes with envelope and newline, but the text kept as the last input
    of client 2 is not that text: it stops after 511 bytes.  And a payload
    with a carriage return inside, "a\rb", is not delivered as sent: client 2
    receives "in0 from client1: a". *)
Lemma routed_text_is_cut :
  (exists st' stored,
     handle_client_input two_clients_routed 0
       (Recv_bytes (out_frame 0 (replicate_char 500 "a"%char) +:+ NL)) = Defined st' /\
     trace st' = trace two_clients_routed
                 ++ [Ev_send 5 ("in0 from client1: " +:+ replicate_char 500 "a"%char +:+ NL)] /\
     in_cache st' 1 0 = Defined stored /\
     stored <> "in0 from client1: " +:+ replicate_char 500 "a"%char +:+ NL /\
     String.length stored = 511%nat) /\
  (exists st',
     handle_client_input two_clients_routed 0
       (Recv_bytes (out_frame 0 ("a" +:+ String CR "b") +:+ NL)) = Defined st' /\
     trace st' = trace two_clients_routed ++ [Ev_send 5 ("in0 from client1: a" +:+ NL)]).
Proof.
  split.
  - eexists. eexists. split; [vm_compute; reflexivity|].
    split; [vm_compute; reflexivity|]. split; [vm_compute; reflexivity|].
    split; [|vm_compute; reflexivity].
    intros H. apply (f_equal String.length) in H. vm_compute in H. discriminate.
  - eexists. split; [vm_compute; reflexivity|]. vm_compute. reflexivity.
Qed.

(** C1 -- Routing correctness, as the code has it.  In a reachable state let
    A (slot [i], identifier [a] at most MAX_CLIENTS) and B (slot [j],
    identifier [b]) be live and let [c], [d] be channels.  Then the command
    route a c b d succeeds, and afterwards a frame "outc: X" that arrives from
    A in one read makes the server send exactly one message, to the socket of
    B and to no other: the text "ind from clienta: P" and a newline, where P
    is the payload of X.  The first 511 bytes of that text become
    [last_in[d]] of B.  For a payload that has no carriage return and no
    leading blank, P is X. *)
Theorem routing_correctness st i j ci cj a b c d X :
  reachable st ->
  arr_get (clients st) i = Defined ci -> active ci = true -> client_id ci = a ->
  arr_get (clients st) j = Defined cj -> active cj = true -> client_id cj = b ->
  a <= MAX_CLIENTS ->
  0 <= c < CHANNELS_PER_APP -> 0 <= d < CHANNELS_PER_APP ->
  line_text X = true ->
  (String.length (out_frame c X +:+ NL) <= 511)%nat ->
  exists st1 st2 T,
    route_command st a c b d = Defined st1 /\
    handle_client_input st1 i (Recv_bytes (out_frame c X +:+ NL)) = Defined st2 /\
    T = "in" +:+ fmt_d d +:+ " from client" +:+ fmt_d a +:+ ": " +:+ payload_of X +:+ NL /\
    trace st2 = trace st1 ++ [Ev_send (sockfd cj) T] /\
    in_cache st2 j d = Defined (take (Z.to_nat (MAX_MSG_LENGTH - 1)) T) /\
    (payload_ok X = true -> payload_of X = X).
Proof.
  intros Hreach Hci Hai Hida Hcj Haj Hidb Ha Hc Hd HX Hlen.
  pose proof (reachable_inv _ Hreach) as Hinv.
  pose proof (inv_wf _ Hinv) as Hwf. pose proof (inv_ids _ Hinv) as Hids.
  pose proof (live_id_positive _ _ _ Hids Hci Hai) as Hapos.
  pose proof (live_id_positive _ _ _ Hids Hcj Haj) as Hbpos.
  pose proof (find_client_index_unique _ _ _ Hids Hci Hai) as Hfa.
  pose proof (find_client_index_unique _ _ _ Hids Hcj Haj) as Hfb.
  rewrite Hida in *. rewrite Hidb in *.
  pose proof (slot_in_range _ _ _ Hwf Hci) as Hi.
  pose proof (slot_in_range _ _ _ Hwf Hcj) as Hj.
  destruct (route_command_live st a c b d) as (st0 & H0 & Hrc); try done; try lia.
  set (st1 := emit st0 _) in Hrc.
  assert (Hq : quiet st st1) by (by eapply route_command_quiet).
  destruct Hq as (Hcl & Hnext & _ & _).
  assert (Hinv1 : inv st1).
  { eapply quiet_preserves; [|exact Hinv]. by eapply route_command_quiet. }
  destruct (write_route_inv _ _ _ _ _ _ H0) as (_ & _ & _ & _ & _ & Hroute & _).
  assert (Hroute1 : route_at st1 a c = Defined (mkRoute b d)) by exact Hroute.
  destruct (out_frame_parse c X Hc HX) as (Hch & Hmsg & Hnul).
  assert (Hci1 : arr_get (clients st1) i = Defined ci) by by rewrite Hcl.
  destruct (dispatch_line_cases st1 i ci (out_frame c X) c (payload_of X))
    as (s & r & Hs & Hr & Hcases); try done; [lia|].
  rewrite Hida, Hroute1 in Hr. injection Hr as <-. cbn [in_client_id in_channel] in Hcases.
  rewrite (find_client_index_same_clients st st1) in Hcases by done.
  rewrite Hfb, Hcl, Hida in Hcases.
  destruct Hcases as [[[Hneg|Hneg] _] | (j' & cj' & st2 & _ & <- & _ & Hcj' & _ & _ & Hst2 & Hd2)];
    [lia | lia |].
  rewrite Hcj in Hcj'. injection Hcj' as <-.
  assert (Hlenp : (String.length (payload_of X) <= 504)%nat).
  { pose proof (length_payload_of_le X). rewrite length_append, length_NL in Hlen.
    rewrite (length_out_frame c X Hc) in Hlen. lia. }
  rewrite (envelope_fits b d a _ Hd Hnul Hlenp) in Hst2.
  set (T := "in" +:+ fmt_d d +:+ " from client" +:+ fmt_d a +:+ ": " +:+ payload_of X +:+ NL) in *.
  exists st1, st2, T.
  destruct (record_output_inv _ _ _ _ _ Hs) as (_ & _ & _ & Htr & _).
  destruct (record_input_inv _ _ _ _ _ Hst2) as (_ & _ & _ & Htr2 & _ & Hin & _).
  split_and!; try done.
  - rewrite handle_single_frame by by apply out_frame_line_text. done.
  - rewrite Htr2. cbn [trace emit]. by rewrite Htr.
  - rewrite Hin. unfold strncpy. rewrite cstr_plain; [done|].
    unfold T. rewrite !str_forall_app.
    rewrite (digits_plain (fmt_d d)) by (apply fmt_d_digits; lia).
    rewrite (digits_plain (fmt_d a)) by (apply fmt_d_digits; lia).
    rewrite Hnul. reflexivity.
  - apply payload_of_ok.
Qed.

Lemma routing_correctness_witness :
  reachable two_clients /\
  arr_get (clients two_clients) 0 = Defined client1 /\ active client1 = true /\
  client_id client1 = 1 /\
  arr_get (clients two_clients) 1 = Defined client2 /\ active client2 = true /\
  client_id client2 = 2 /\
  1 <= MAX_CLIENTS /\ 0 <= 0 < CHANNELS_PER_APP /\ 0 <= 3 < CHANNELS_PER_APP /\
  line_text "hello" = true /\
  (String.length (out_frame 0 "hello" +:+ NL) <= 511)%nat /\
  exists st1 st2 T,
    route_command two_clients 1 0 2 3 = Defined st1 /\
    handle_client_input st1 0 (Recv_bytes (out_frame 0 "hello" +:+ NL)) = Defined st2 /\
    T = "in" +:+ fmt_d 3 +:+ " from client" +:+ fmt_d 1 +:+ ": " +:+ payload_of "hello" +:+ NL /\
    trace st2 = trace st1 ++ [Ev_send (sockfd client2) T] /\
    in_cache st2 1 3 = Defined (take (Z.to_nat (MAX_MSG_LENGTH - 1)) T) /\
    (payload_ok "hello" = true -> payload_of "hello" = "hello").
Proof.
  assert (H1 : arr_get (clients two_clients) 0 = Defined client1) by reflexivity.
  assert (H2 : active client1 = true) by reflexivity.
  assert (H3 : client_id client1 = 1) by reflexivity.
  assert (H4 : arr_get (clients two_clients) 1 = Defined client2) by reflexivity.
  assert (H5 : active client2 = true) by reflexivity.
  assert (H6 : client_id client2 = 2) by reflexivity.
  assert (H7 : 1 <= MAX_CLIENTS) by (vm_compute; discriminate).
  assert (H8 : 0 <= 0 < CHANNELS_PER_APP) by (unfold CHANNELS_PER_APP; lia).
  assert (H9 : 0 <= 3 < CHANNELS_PER_APP) by (unfold CHANNELS_PER_APP; lia).
  assert (H10 : line_text "hello" = true) by reflexivity.
  assert (H11 : (String.length (out_frame 0 "hello" +:+ NL) <= 511)%nat) by (vm_compute; lia).
  split; [exact reachable_two_clients|]. split; [exact H1|]. split; [exact H2|].
  split; [exact H3|]. split; [exact H4|]. split; [exact H5|]. split; [exact H6|].
  split; [exact H7|]. split; [exact H8|]. split; [exact H9|]. split; [exact H10|].
  split; [exact H11|].
  exact (routing_correctness two_clients 0 1 client1 client2 1 2 0 3 "hello"
           reachable_two_clients H1 H2 H3 H4 H5 H6 H7 H8 H9 H10 H11).
Defined.

(** ** Partial frames (C2) *)

(** Counterexample to C2 as stated: the frame "out0: hello" arrives from
    client 1 in two reads, "out0: hel" and then "lo" with the newline.  The
    server ends in the state it started from: nothing is sent to client 2
    and no cache is written, whereas the same frame in one read is
    forwarded. *)
Lemma split_frame_is_lost :
  handle_client_input two_clients_routed 0 (Recv_bytes "out0: hel")
    = Defined two_clients_routed /\
  handle_client_input two_clients_routed 0 (Recv_bytes ("lo" +:+ NL))
    = Defined two_clients_routed /\
  exists st',
    handle_client_input two_clients_routed 0 (Recv_bytes ("out0: hello" +:+ NL))
      = Defined st' /\
    trace st' = trace two_clients_routed
                ++ [Ev_send 5 ("in0 from client1: hello" +:+ NL)] /\
    out_cache st' 0 0 = Defined "hello".
Proof.
  split; [vm_compute; reflexivity|]. split; [vm_compute; reflexivity|].
  eexists. split; [vm_compute; reflexivity|]. by split.
Qed.

(** C2 -- Partial frames, as the code has it.  The buffer of
    handle_client_input is a local array that is cleared on every call, so
    nothing is carried from one read to the next.  Of the bytes of one read
    the dispatcher handles the complete newline-terminated frames [chunk];
    what follows the last newline, [partial], is discarded: the read has the
    effect of the frames of [chunk] alone, and none when there are none. *)
Theorem partial_frame_discarded st i chunk partial :
  complete_frames chunk = true ->
  str_forall (differs LF) partial = true ->
  chunk +:+ partial <> "" ->
  handle_client_input st i (Recv_bytes (chunk +:+ partial)) =
  match chunk with
  | "" => Defined st
  | _ => handle_client_input st i (Recv_bytes chunk)
  end.
Proof.
  intros Hc Hp Hne. unfold handle_client_input at 1. cbn [recv_count recv_buf].
  destruct (Z.leb_spec (Z.of_nat (String.length (chunk +:+ partial))) 0) as [Hle|_].
  { exfalso. apply Hne. destruct (chunk +:+ partial); [done | simpl in Hle; lia]. }
  rewrite (dispatch_loop_partial _ (S (String.length chunk)) st i chunk partial)
    by (done || lia).
  destruct chunk as [|x chunk]; [reflexivity|].
  unfold handle_client_input. cbn [recv_count recv_buf].
  destruct (Z.leb_spec (Z.of_nat (String.length (String x chunk))) 0) as [Hle|_];
    [simpl in Hle; lia | reflexivity].
Qed.

Lemma partial_frame_discarded_witness :
  complete_frames ("out0: one" +:+ NL) = true /\
  str_forall (differs LF) "out1: tw" = true /\
  ("out0: one" +:+ NL) +:+ "out1: tw" <> "" /\
  handle_client_input two_clients_routed 0
    (Recv_bytes (("out0: one" +:+ NL) +:+ "out1: tw")) =
  handle_client_input two_clients_routed 0 (Recv_bytes ("out0: one" +:+ NL)).
Proof.
  assert (H1 : complete_frames ("out0: one" +:+ NL) = true) by reflexivity.
  assert (H2 : str_forall (differs LF) "out1: tw" = true) by reflexivity.
  assert (H3 : ("out0: one" +:+ NL) +:+ "out1: tw" <> "") by discriminate.
  split; [exact H1|]. split; [exact H2|]. split; [exact H3|].
  exact (partial_frame_discarded two_clients_routed 0 ("out0: one" +:+ NL) "out1: tw" H1 H2 H3).
Defined.

(** ** Route pre-configuration (C3) *)

(** Counterexample to C3 as stated: on a server without clients the console
    command [route 1 0 2 0] prints "No such client 1" and installs nothing. *)
Lemma console_route_requires_live_clients :
  exists st',
    handle_console_input booted (Some (route_line "1" "0" "2" "0"))
      = Defined (Ctl_continue, st') /\
    routing st' = routing booted /\
    route_at st' 1 0 = Defined (mkRoute (-1) (-1)) /\
    trace st' = trace booted ++ [Ev_printf ("No such client 1" +:+ NL)].
Proof. eexists. split; [vm_compute; reflexivity|]. by split_and!. Qed.

(** C3 -- Route pre-configuration, as the code has it.  For a source
    identifier that indexes the routing table and a source channel in [0,5),
    the startup loader's route_command_from_file installs the entry whoever
    is connected, and the console's route_command installs it when both
    identifiers are live.  When one of them is not, whatever the numbers
    are, route_command prints "No such client" with the identifier it
    misses, the source first, and does nothing else: the routing table and
    every other table stay as they were. *)
Theorem route_preconfiguration st a c b d :
  (wf st -> 0 <= a <= MAX_CLIENTS -> 0 <= c < CHANNELS_PER_APP ->
   (exists st', route_command_from_file st a c b d = Defined st' /\
                route_at st' a c = Defined (mkRoute b d)) /\
   (live st a -> live st b ->
    exists st', route_command st a c b d = Defined st' /\
                route_at st' a c = Defined (mkRoute b d))) /\
  (~ live st a ->
   route_command st a c b d
   = Defined (emit st [Ev_printf ("No such client " +:+ fmt_d a +:+ NL)])) /\
  (live st a -> ~ live st b ->
   route_command st a c b d
   = Defined (emit st [Ev_printf ("No such client " +:+ fmt_d b +:+ NL)])) /\
  (~ live st a \/ ~ live st b ->
   exists st', route_command st a c b d = Defined st' /\ routing st' = routing st).
Proof.
  assert (Ha : ~ live st a ->
               route_command st a c b d
               = Defined (emit st [Ev_printf ("No such client " +:+ fmt_d a +:+ NL)])).
  { intros Hn. unfold route_command.
    destruct (Z.ltb_spec (find_client_index st a) 0) as [|Hla]; [done|].
    by apply find_client_index_live in Hla. }
  assert (Hb : live st a -> ~ live st b ->
               route_command st a c b d
               = Defined (emit st [Ev_printf ("No such client " +:+ fmt_d b +:+ NL)])).
  { intros Hl Hn. unfold route_command.
    destruct (Z.ltb_spec (find_client_index st a) 0) as [Hla|_];
      [apply find_client_index_live in Hl; lia|].
    destruct (Z.ltb_spec (find_client_index st b) 0) as [|Hlb]; [done|].
    by apply find_client_index_live in Hlb. }
  split_and!; [|exact Ha|exact Hb|].
  - intros Hwf Hra Hc. split.
    + unfold route_command_from_file.
      destruct (write_route_defined st a c b d Hwf Hra Hc) as [st0 H0]. rewrite H0. cbn [bind].
      eexists. split; [reflexivity|].
      by destruct (write_route_inv _ _ _ _ _ _ H0) as (_ & _ & _ & _ & _ & Hr & _).
    + intros Hla%find_client_index_live Hlb%find_client_index_live.
      destruct (route_command_live st a c b d Hwf Hra Hc Hla Hlb) as (st0 & H0 & ->).
      eexists. split; [reflexivity|].
      by destruct (write_route_inv _ _ _ _ _ _ H0) as (_ & _ & _ & _ & _ & Hr & _).
  - intros Hn.
    destruct (Z.ltb_spec (find_client_index st a) 0) as [Hla|Hla].
    + rewrite Ha; [by eexists|]. intros Hl%find_client_index_live. lia.
    + apply find_client_index_live in Hla. destruct Hn as [Hn|Hn]; [done|].
      rewrite (Hb Hla Hn). by eexists.
Qed.

Lemma route_preconfiguration_witness :
  ((exists st', route_command_from_file booted 1 0 2 3 = Defined st' /\
                route_at st' 1 0 = Defined (mkRoute 2 3)) /\
   (live two_clients 1 -> live two_clients 2 ->
    exists st', route_command two_clients 1 0 2 3 = Defined st' /\
                route_at st' 1 0 = Defined (mkRoute 2 3))) /\
  route_command booted 25 0 1 0
  = Defined (emit booted [Ev_printf ("No such client " +:+ fmt_d 25 +:+ NL)]) /\
  route_command two_clients 1 0 25 0
  = Defined (emit two_clients [Ev_printf ("No such client " +:+ fmt_d 25 +:+ NL)]).
Proof.
  assert (H1 : 0 <= 1 <= MAX_CLIENTS) by (unfold MAX_CLIENTS; lia).
  assert (H2 : 0 <= 0 < CHANNELS_PER_APP) by (unfold CHANNELS_PER_APP; lia).
  assert (Hno : forall st, Forall (fun ci => negb (active ci && (client_id ci =? 25)) = true)
                                  (clients st) -> ~ live st 25).
  { intros st HF (i & ci & Hi & Hact & Hid). rewrite Forall_lookup in HF.
    apply arr_get_Defined in Hi as [_ Hi]. specialize (HF _ _ Hi).
    rewrite Hact, Hid in HF. discriminate. }
  assert (N1 : ~ live booted 25) by (apply Hno; vm_compute; repeat constructor).
  assert (N2 : ~ live two_clients 25) by (apply Hno; vm_compute; repeat constructor).
  assert (L1 : live two_clients 1) by (by exists 0, client1).
  split; [|split].
  - split.
    + exact (proj1 (proj1 (route_preconfiguration booted 1 0 2 3) wf_booted H1 H2)).
    + exact (proj2 (proj1 (route_preconfiguration two_clients 1 0 2 3)
                      (inv_wf _ (reachable_inv _ reachable_two_clients)) H1 H2)).
  - exact (proj1 (proj2 (route_preconfiguration booted 25 0 1 0)) N1).
  - exact (proj1 (proj2 (proj2 (route_preconfiguration two_clients 1 0 25 0))) L1 N2).
Defined.

(** ** Time stamps of recorded rows (C4) *)

(** Counterexample to C4 as stated: monitor mode is entered at second 100
    and the operator starts recording in a round whose clock reads
    400.250000.  The first row of the session, written in that same round,
    carries the time stamp 300.250000. *)
Lemma first_row_counts_from_monitor_entry :
  exists m' st',
    monitor_tick (monitor_enter 2 (mkTimeval 100 0)) two_clients tick_toggle
      = Defined (true, m', st') /\
    recording m' = true /\
    trace st' = trace two_clients
      ++ [Ev_mkdir "logs";
          Ev_fopen "logs/monitor_20250101_120000.csv" true;
          Ev_fprintf "logs/monitor_20250101_120000.csv"
            ("timestamp,client1_ch0,client1_ch1,client1_ch2,client1_ch3,client1_ch4,"
             +:+ "client2_ch0,client2_ch1,client2_ch2,client2_ch3,client2_ch4" +:+ NL);
          Ev_fprintf "logs/monitor_20250101_120000.csv"
            (quoted "300.250000" +:+ "," +:+ quoted "" +:+ "," +:+ quoted "" +:+ ","
             +:+ quoted "" +:+ "," +:+ quoted "" +:+ "," +:+ quoted "" +:+ ","
             +:+ quoted "" +:+ "," +:+ quoted "" +:+ "," +:+ quoted "" +:+ ","
             +:+ quoted "" +:+ "," +:+ quoted "" +:+ NL)].
Proof. eexists. eexists. split; [vm_compute; reflexivity|]. by split. Qed.

(** C4 -- Time stamps of recorded rows, as the code has it.  monitor_mode
    reads the clock once, before its loop, and every data row is stamped with
    the time elapsed since then.  Whatever rounds the loop has been through
    since monitor mode was entered at [t0], a round in which select succeeds
    and which ends with the recording on appends one row to the open log
    file, and the first column of that row is the quoted difference between
    the clock of the round and [t0], as seconds, a dot, and microseconds in
    six digits.  The moment at which the recording was switched on plays no
    part. *)
Theorem recording_timestamp_baseline fps t0 st ticks m st1 t go m' st' :
  monitor_loop (monitor_enter fps t0) st ticks = Defined (m, st1) ->
  0 <= select_ret t ->
  monitor_tick m st1 t = Defined (go, m', st') ->
  recording m' = true ->
  exists f cells pre,
    log_file m' = Some f /\
    trace st' = pre ++
      [Ev_fprintf f
         (quoted (fmt_ld (tv_sec (timeval_delta (now t) t0)) +:+ "."
                  +:+ fmt_06ld (tv_usec (timeval_delta (now t) t0)))
          +:+ "," +:+ cells +:+ NL)].
Proof.
  intros Hloop Hsel Htick Hrec.
  pose proof (monitor_loop_ok _ _ _ _ _ _ (monitor_ok_enter fps t0) Hloop) as Hok.
  pose proof (monitor_tick_ok _ _ _ _ _ _ _ Hok Htick) as [Hstart [f Hf]]; [done|].
  unfold monitor_tick in Htick. destruct (Z.ltb_spec (select_ret t) 0); [lia|].
  inv_bind Htick. inv_bind Htick. inv_bind Htick. injection Htick as _ <- <-.
  unfold record_row in E1. rewrite Hrec, Hf in E1. inv_bind E1. injection E1 as <-.
  exists f, a2, (trace (snd a0)). split; [done|].
  cbn [trace emit]. unfold row_timestamp. by rewrite Hstart.
Qed.

Lemma recording_timestamp_baseline_witness :
  monitor_loop (monitor_enter 2 (mkTimeval 100 0)) two_clients []
    = Defined (monitor_enter 2 (mkTimeval 100 0), two_clients) /\
  0 <= select_ret tick_toggle /\
  exists m' st',
    monitor_tick (monitor_enter 2 (mkTimeval 100 0)) two_clients tick_toggle
      = Defined (true, m', st') /\
    recording m' = true /\
    exists f cells pre,
      log_file m' = Some f /\
      trace st' = pre ++
        [Ev_fprintf f
           (quoted (fmt_ld (tv_sec (timeval_delta (now tick_toggle) (mkTimeval 100 0))) +:+ "."
                    +:+ fmt_06ld (tv_usec (timeval_delta (now tick_toggle) (mkTimeval 100 0))))
            +:+ "," +:+ cells +:+ NL)].
Proof.
  assert (H1 : monitor_loop (monitor_enter 2 (mkTimeval 100 0)) two_clients []
               = Defined (monitor_enter 2 (mkTimeval 100 0), two_clients)) by reflexivity.
  assert (H2 : 0 <= select_ret tick_toggle) by (vm_compute; discriminate).
  split; [exact H1|]. split; [exact H2|].
  destruct tick_toggle_starts_recording as (m' & st' & H3 & H4).
  exists m', st'. split; [exact H3|]. split; [exact H4|].
  exact (recording_timestamp_baseline 2 (mkTimeval 100 0) two_clients [] _ _
           tick_toggle true m' st' H1 H2 H3 H4).
Defined.

(** ** Stale routes (C5) *)

(** C5 -- Stale-route safety.  In a reachable state let the route of
    (a, c) lead to channel [d] of a live client B in slot [j].  When B
    disconnects (recv returns 0 or fails) its slot is released and the
    routing table is left as it was, so the entry is still there; and it
    stays there through every later input that is not a route command of the
    operator.  From then on, whatever the server goes through, as long as the
    entry of (a, c) still names B, a line on channel [c] from the live client
    with identifier [a] is handled without leaving defined behaviour and
    without any effect on the outside: nothing is sent or printed, the
    registry and the routing table are unchanged, and the only cache that may
    change is the sender's own output cache of channel [c]. *)
Theorem stale_route_safety st j cj a c d r :
  reachable st ->
  arr_get (clients st) j = Defined cj -> active cj = true ->
  route_at st a c = Defined (mkRoute (client_id cj) d) ->
  recv_count r <= 0 ->
  exists st1,
    handle_client_input st j r = Defined st1 /\
    routing st1 = routing st /\
    route_at st1 a c = Defined (mkRoute (client_id cj) d) /\
    slot_active st1 j = false /\
    (forall inputs st2,
       Forall (fun inp => route_input inp = false) inputs ->
       run st1 inputs = Defined st2 ->
       route_at st2 a c = Defined (mkRoute (client_id cj) d)) /\
    forall inputs st2 i ci line,
      run st1 inputs = Defined st2 ->
      route_at st2 a c = Defined (mkRoute (client_id cj) d) ->
      arr_get (clients st2) i = Defined ci -> active ci = true -> client_id ci = a ->
      line_text line = true -> parse_out_ch (frame_text line) = c ->
      exists st3,
        handle_client_input st2 i (Recv_bytes (line +:+ NL)) = Defined st3 /\
        trace st3 = trace st2 /\
        clients st3 = clients st2 /\
        routing st3 = routing st2 /\
        next_client_id st3 = next_client_id st2 /\
        (forall i' ch', in_cache st3 i' ch' = in_cache st2 i' ch') /\
        (forall i' ch', i' <> i \/ ch' <> c -> out_cache st3 i' ch' = out_cache st2 i' ch').
Proof.
  intros Hinv%reachable_inv Hcj Haj Hroute Hr.
  destruct (disconnect_spec st j cj r (inv_wf _ Hinv) Hcj Hr)
    as (st1 & H1 & Hrt & _ & _ & _ & Hj & _).
  exists st1. split; [done|]. split; [done|].
  split; [by rewrite (route_at_same st st1)|].
  split; [unfold slot_active; by rewrite Hj|].
  split.
  { intros inputs st2 Hquiet Hrun.
    rewrite (route_at_same st st2); [done|].
    rewrite (run_routes _ _ _ Hquiet Hrun). exact Hrt. }
  intros inputs st2 i ci line Hrun Hroute2 Hci Hai Hida Hline Hch.
  pose proof (handle_client_input_preserves _ _ _ _ H1) as [Hp1 Hr1].
  pose proof (run_preserves _ _ _ Hrun) as [Hp2 Hr2].
  assert (Hinv2 : inv st2) by auto.
  assert (Hret : retired st2 (client_id cj)).
  { apply Hr2. exact (disconnect_retires st j cj r st1 Hinv Hcj Haj Hr H1). }
  destruct (route_at_range _ _ _ _ (inv_wf _ Hinv2) Hroute2) as [Harange Hcrange].
  rewrite handle_single_frame by done.
  destruct (dispatch_line_cases st2 i ci line c (message_of (frame_text line)))
    as (s & r' & Hs & Hr' & Hcases); try done; [by rewrite Hida|].
  rewrite Hida, Hroute2 in Hr'. injection Hr' as <-. cbn [in_client_id] in Hcases.
  destruct (record_output_inv _ _ _ _ _ Hs) as (Hc1 & Hc2 & Hc3 & Hc4 & _ & _ & Hc7 & Hc8).
  destruct Hcases as [[_ Hd] | (j' & cj' & st3 & _ & Hfind & Hj' & _)].
  - exists s. by split_and!.
  - exfalso. destruct Hret as [_ Hnl]. apply Hnl.
    apply find_client_index_live. rewrite Hfind. done.
Qed.

Lemma stale_route_safety_witness :
  reachable two_clients_routed /\
  arr_get (clients two_clients_routed) 1 = Defined client2 /\ active client2 = true /\
  route_at two_clients_routed 1 0 = Defined (mkRoute (client_id client2) 0) /\
  recv_count Recv_eof <= 0 /\
  exists st1,
    handle_client_input two_clients_routed 1 Recv_eof = Defined st1 /\
    routing st1 = routing two_clients_routed /\
    route_at st1 1 0 = Defined (mkRoute (client_id client2) 0) /\
    slot_active st1 1 = false /\
    (forall inputs st2,
       Forall (fun inp => route_input inp = false) inputs ->
       run st1 inputs = Defined st2 ->
       route_at st2 1 0 = Defined (mkRoute (client_id client2) 0)) /\
    forall inputs st2 i ci line,
      run st1 inputs = Defined st2 ->
      route_at st2 1 0 = Defined (mkRoute (client_id client2) 0) ->
      arr_get (clients st2) i = Defined ci -> active ci = true -> client_id ci = 1 ->
      line_text line = true -> parse_out_ch (frame_text line) = 0 ->
      exists st3,
        handle_client_input st2 i (Recv_bytes (line +:+ NL)) = Defined st3 /\
        trace st3 = trace st2 /\
        clients st3 = clients st2 /\
        routing st3 = routing st2 /\
        next_client_id st3 = next_client_id st2 /\
        (forall i' ch', in_cache st3 i' ch' = in_cache st2 i' ch') /\
        (forall i' ch', i' <> i \/ ch' <> 0 -> out_cache st3 i' ch' = out_cache st2 i' ch').
Proof.
  assert (H1 : arr_get (clients two_clients_routed) 1 = Defined client2) by reflexivity.
  assert (H2 : active client2 = true) by reflexivity.
  assert (H3 : route_at two_clients_routed 1 0 = Defined (mkRoute (client_id client2) 0))
    by reflexivity.
  assert (H4 : recv_count Recv_eof <= 0) by (vm_compute; discriminate).
  split; [exact reachable_two_clients_routed|]. split; [exact H1|]. split; [exact H2|].
  split; [exact H3|]. split; [exact H4|].
  exact (stale_route_safety two_clients_routed 1 client2 1 0 0 Recv_eof
           reachable_two_clients_routed H1 H2 H3 H4).
Defined.

(** ** Registry bound (C6) *)

(** C6 -- Registry bound.  When every slot of the registry is in use, a
    further connection (accept returned the socket [client_sock]) is written
    the notice "Server full." and closed; no slot is allocated, no client
    identifier is assigned, and the slots, caches and routes of the connected
    clients are what they were. *)
Theorem registry_full_rejects st client_sock :
  0 <= client_sock ->
  Forall (fun c => active c = true) (clients st) ->
  exists st',
    handle_new_connection st client_sock = Defined st' /\
    trace st' = trace st ++ [Ev_write client_sock ("Server full." +:+ NL);
                             Ev_close client_sock] /\
    clients st' = clients st /\
    client_data st' = client_data st /\
    routing st' = routing st /\
    next_client_id st' = next_client_id st.
Proof.
  intros Hs HF. unfold handle_new_connection.
  destruct (Z.ltb_spec client_sock 0); [lia|].
  rewrite (all_active_no_free_slot _ HF). cbn [Z.ltb Z.compare].
  eexists. split; [reflexivity|]. by split_and!.
Qed.

Lemma registry_full_rejects_witness :
  0 <= 24 /\ Forall (fun c => active c = true) (clients full_registry) /\
  exists st',
    handle_new_connection full_registry 24 = Defined st' /\
    trace st' = trace full_registry ++ [Ev_write 24 ("Server full." +:+ NL); Ev_close 24] /\
    clients st' = clients full_registry /\
    client_data st' = client_data full_registry /\
    routing st' = routing full_registry /\
    next_client_id st' = next_client_id full_registry.
Proof.
  assert (H1 : 0 <= 24) by lia.
  assert (H2 : Forall (fun c => active c = true) (clients full_registry)).
  { vm_compute. repeat constructor. }
  split; [exact H1|]. split; [exact H2|].
  exact (registry_full_rejects full_registry 24 H1 H2).
Defined.

(** ** Bulk routes (C7) *)

(** C7 -- Bulk-route expansion.  For all identifiers A and B, written in
    decimal, the console line [route A all B all] leaves the server in the
    state in which the five lines [route A i B i], i = 0..4, leave it, and
    for a channel [d] in [0,5) the line [route A all B d] leaves it in the
    state of the five lines [route A i B d].  The same holds for the lines of
    the startup file: the server and the success flag of the loader come out
    the same. *)
Theorem bulk_route_expansion st ld A B d :
  0 <= d < CHANNELS_PER_APP ->
  console_seq st [route_line (fmt_d A) "all" (fmt_d B) "all"]
  = console_seq st (map (fun i => route_line (fmt_d A) (fmt_d i) (fmt_d B) (fmt_d i))
                        (seqZ 0 CHANNELS_PER_APP)) /\
  console_seq st [route_line (fmt_d A) "all" (fmt_d B) (fmt_d d)]
  = console_seq st (map (fun i => route_line (fmt_d A) (fmt_d i) (fmt_d B) (fmt_d d))
                        (seqZ 0 CHANNELS_PER_APP)) /\
  outcome_map loader_tables (loader_seq ld [route_line (fmt_d A) "all" (fmt_d B) "all"])
  = outcome_map loader_tables
      (loader_seq ld (map (fun i => route_line (fmt_d A) (fmt_d i) (fmt_d B) (fmt_d i))
                          (seqZ 0 CHANNELS_PER_APP))) /\
  outcome_map loader_tables (loader_seq ld [route_line (fmt_d A) "all" (fmt_d B) (fmt_d d)])
  = outcome_map loader_tables
      (loader_seq ld (map (fun i => route_line (fmt_d A) (fmt_d i) (fmt_d B) (fmt_d d))
                          (seqZ 0 CHANNELS_PER_APP))).
Proof.
  intros Hd. pose proof (is_token_fmt_d A) as HA. pose proof (is_token_fmt_d B) as HB.
  split_and!.
  - by apply console_bulk.
  - by apply console_bulk_fixed.
  - by apply loader_bulk.
  - by apply loader_bulk_fixed.
Qed.

Lemma bulk_route_expansion_witness :
  0 <= 3 < CHANNELS_PER_APP /\
  console_seq two_clients [route_line (fmt_d 1) "all" (fmt_d 2) "all"]
  = console_seq two_clients
      (map (fun i => route_line (fmt_d 1) (fmt_d i) (fmt_d 2) (fmt_d i))
           (seqZ 0 CHANNELS_PER_APP)) /\
  console_seq two_clients [route_line (fmt_d 1) "all" (fmt_d 2) (fmt_d 3)]
  = console_seq two_clients
      (map (fun i => route_line (fmt_d 1) (fmt_d i) (fmt_d 2) (fmt_d 3))
           (seqZ 0 CHANNELS_PER_APP)) /\
  outcome_map loader_tables
    (loader_seq (mkLoader init_server true 0) [route_line (fmt_d 1) "all" (fmt_d 2) "all"])
  = outcome_map loader_tables
      (loader_seq (mkLoader init_server true 0)
         (map (fun i => route_line (fmt_d 1) (fmt_d i) (fmt_d 2) (fmt_d i))
              (seqZ 0 CHANNELS_PER_APP))) /\
  outcome_map loader_tables
    (loader_seq (mkLoader init_server true 0) [route_line (fmt_d 1) "all" (fmt_d 2) (fmt_d 3)])
  = outcome_map loader_tables
      (loader_seq (mkLoader init_server true 0)
         (map (fun i => route_line (fmt_d 1) (fmt_d i) (fmt_d 2) (fmt_d 3))
              (seqZ 0 CHANNELS_PER_APP))).
Proof.
  assert (H : 0 <= 3 < CHANNELS_PER_APP) by (unfold CHANNELS_PER_APP; lia).
  split; [exact H|].
  exact (bulk_route_expansion two_clients (mkLoader init_server true 0) 1 2 3 H).
Defined.

(** The bulk command at work: with clients 1 and 2 connected,
    [route 1 all 2 all] routes every channel to the channel of the same
    index, and [route 1 all 2 3] routes every channel to channel 3. *)
Lemma bulk_route_installs :
  (exists s, console_seq two_clients [route_line "1" "all" "2" "all"] = Defined s /\
             map (fun i => route_at s 1 i) (seqZ 0 CHANNELS_PER_APP)
             = map (fun i => Defined (mkRoute 2 i)) (seqZ 0 CHANNELS_PER_APP)) /\
  (exists s, console_seq two_clients [route_line "1" "all" "2" "3"] = Defined s /\
             map (fun i => route_at s 1 i) (seqZ 0 CHANNELS_PER_APP)
             = map (fun _ => Defined (mkRoute 2 3)) (seqZ 0 CHANNELS_PER_APP)).
Proof.
  split; eexists; (split; [vm_compute; reflexivity | reflexivity]).
Qed.

(** ** Bounds of the routing table (C8) *)

(** C8 -- The routing table is indexed by client identifier without a check
    against its MAX_CLIENTS + 1 rows.  A line [route 21 0 1 0] of the startup
    file makes the loader write row 21; and once twenty clients have
    connected, one has left and another has come, the newcomer has the
    identifier 21, so that its first output frame makes the dispatcher read
    row 21, and a console route for it makes route_command write there. *)
Theorem routing_index_out_of_bounds :
  process_routing_file init_server (Some [route_line "21" "0" "1" "0"]) None = Undefined /\
  exists st ci,
    run booted (twenty_accepts ++ [In_client 0 Recv_eof; In_accept 24]) = Defined st /\
    arr_get (clients st) 0 = Defined ci /\ active ci = true /\ client_id ci = 21 /\
    handle_client_input st 0 (Recv_bytes (out_frame 0 "x" +:+ NL)) = Undefined /\
    handle_console_input st (Some (route_line "21" "0" "21" "0")) = Undefined.
Proof.
  split; [vm_compute; reflexivity|].
  eexists. eexists. split; [vm_compute; reflexivity|].
  split; [vm_compute; reflexivity|]. by split_and!.
Qed.

(** ** Slot reuse (C10) *)

(** C10 -- Slot reuse exposes prior caches.  Releasing a slot on disconnect
    leaves the caches as they are, and so does giving a slot to a new
    connection: the client that connects next sits in the lowest free slot
    (the released one when all lower slots are in use) and finds in its
    caches, on every channel, the output and input text that was there
    before.  The print command shows the same rows as before. *)
Theorem slot_reuse_exposes_caches st i ci r client_sock :
  wf st ->
  arr_get (clients st) i = Defined ci -> active ci = true ->
  recv_count r <= 0 -> 0 <= client_sock -> next_client_id st <> INT_MAX ->
  exists st1 st2 idx,
    handle_client_input st i r = Defined st1 /\
    client_data st1 = client_data st /\
    handle_new_connection st1 client_sock = Defined st2 /\
    client_data st2 = client_data st /\
    find_free_slot st1 = idx /\ 0 <= idx <= i /\
    arr_get (clients st2) idx
      = Defined (mkClientInfo client_sock (next_client_id st) true
                   (snprintf 64 ("Client" +:+ fmt_d (next_client_id st)))) /\
    (forall ch, out_cache st2 idx ch = out_cache st idx ch /\
                in_cache st2 idx ch = in_cache st idx ch) /\
    print_rows st2 idx = print_rows st idx /\
    ((forall k ck, 0 <= k < i -> arr_get (clients st) k = Defined ck -> active ck = true) ->
     idx = i).
Proof.
  intros Hwf Hci Ha Hr Hs Hn.
  destruct (disconnect_spec st i ci r Hwf Hci Hr)
    as (st1 & H1 & _ & Hcd1 & Hn1 & _ & Hi1 & Hother1).
  assert (Hfree : 0 <= find_free_slot st1 <= i /\
                  ((forall k ck, 0 <= k < i -> arr_get (clients st) k = Defined ck ->
                                 active ck = true) -> find_free_slot st1 = i)).
  { destruct (find_free_slot_spec st1) as [[_ HF] | (c & Hrange & Hc & Hac & Hfirst)].
    - exfalso. rewrite Forall_lookup in HF.
      apply arr_get_Defined in Hi1 as [_ Hi1]. by specialize (HF _ _ Hi1).
    - assert (Hle : find_free_slot st1 <= i).
      { destruct (Z.le_gt_cases (find_free_slot st1) i) as [|Hgt]; [done|].
        pose proof (arr_get_range _ _ _ Hci) as Hir.
        by specialize (Hfirst i _ ltac:(lia) Hi1). }
      split; [lia|]. intros Hlow.
      destruct (Z.eq_dec (find_free_slot st1) i) as [|Hne]; [done|].
      rewrite Hother1 in Hc by done.
      specialize (Hlow (find_free_slot st1) c ltac:(lia) Hc). congruence. }
  destruct Hfree as [Hidx Hlow].
  destruct (connect_spec st1 client_sock) as (st2 & H2 & Hcd2 & _ & _ & Hnew & _);
    [done | lia | by rewrite Hn1 |].
  exists st1, st2, (find_free_slot st1).
  assert (Hcd : client_data st2 = client_data st) by congruence.
  rewrite Hn1 in Hnew.
  split_and!; try done; try lia.
  - intros ch. unfold out_cache, in_cache. by rewrite Hcd.
  - unfold print_rows. by rewrite Hcd.
Qed.

Lemma slot_reuse_exposes_caches_witness :
  wf one_spoke /\
  arr_get (clients one_spoke) 0 = Defined client1 /\ active client1 = true /\
  recv_count Recv_eof <= 0 /\ 0 <= 6 /\ next_client_id one_spoke <> INT_MAX /\
  exists st1 st2 idx,
    handle_client_input one_spoke 0 Recv_eof = Defined st1 /\
    client_data st1 = client_data one_spoke /\
    handle_new_connection st1 6 = Defined st2 /\
    client_data st2 = client_data one_spoke /\
    find_free_slot st1 = idx /\ 0 <= idx <= 0 /\
    arr_get (clients st2) idx
      = Defined (mkClientInfo 6 (next_client_id one_spoke) true
                   (snprintf 64 ("Client" +:+ fmt_d (next_client_id one_spoke)))) /\
    (forall ch, out_cache st2 idx ch = out_cache one_spoke idx ch /\
                in_cache st2 idx ch = in_cache one_spoke idx ch) /\
    print_rows st2 idx = print_rows one_spoke idx /\
    ((forall k ck, 0 <= k < 0 -> arr_get (clients one_spoke) k = Defined ck ->
                   active ck = true) -> idx = 0).
Proof.
  assert (H1 : arr_get (clients one_spoke) 0 = Defined client1) by reflexivity.
  assert (H2 : active client1 = true) by reflexivity.
  assert (H3 : recv_count Recv_eof <= 0) by (vm_compute; discriminate).
  assert (H4 : 0 <= 6) by lia.
  assert (H5 : next_client_id one_spoke <> INT_MAX) by (vm_compute; discriminate).
  split; [exact wf_one_spoke|]. split; [exact H1|]. split; [exact H2|].
  split; [exact H3|]. split; [exact H4|]. split; [exact H5|].
  exact (slot_reuse_exposes_caches one_spoke 0 client1 Recv_eof 6 wf_one_spoke H1 H2 H3 H4 H5).
Defined.

(** The scenario of C10 end to end: client 1 says hello on channel 0 and
    leaves, the next client gets the identifier 3 and slot 0, and the command
    [print 3] shows hello as its output on channel 0. *)
Lemma print_shows_previous_occupant :
  exists st cs,
    run one_spoke [In_client 0 Recv_eof; In_accept 6] = Defined st /\
    handle_console_input st (Some ("print 3" +:+ NL)) = Defined cs /\
    trace (snd cs) !! (length (trace st) + 3)%nat
    = Some (Ev_printf (fmt_d_left 8 0 +:+ " | " +:+ fmt_s_left_prec 50 50 "hello"
                       +:+ " | " +:+ fmt_s_left_prec 50 50 "" +:+ NL)).
Proof.
  eexists. eexists. split; [vm_compute; reflexivity|].
  split; [vm_compute; reflexivity|]. vm_compute. reflexivity.
Qed.

(* ================================================================ *)
(** * Further properties of the handlers *)

(** ** Reads of any bytes *)

Lemma str_forall_drop p n s : str_forall p s = true -> str_forall p (drop n s) = true.
Proof.
  revert s; induction n as [|n IH]; intros [|x s]; simpl; try done.
  intros [_ H]%andb_prop. by apply IH.
Qed.

Lemma dispatch_line_defined st i ci line :
  inv st -> arr_get (clients st) i = Defined ci -> active ci = true ->
  client_id ci <= MAX_CLIENTS ->
  exists st', dispatch_line st i line = Defined st'.
Proof.
  intros Hinv Hci Ha Hid.
  pose proof (live_id_positive _ _ _ (inv_ids _ Hinv) Hci Ha) as Hpos.
  destruct (Z.leb_spec 0 (parse_out_ch (frame_text line))) as [H0|H0];
    [destruct (Z.ltb_spec (parse_out_ch (frame_text line)) CHANNELS_PER_APP) as [H1|H1]|].
  - destruct (dispatch_line_cases st i ci line _ _ Hinv Hci ltac:(lia) eq_refl
                ltac:(lia) eq_refl)
      as (st1 & r & _ & _ & [[_ H] | (j & cj & st2 & _ & _ & _ & _ & _ & _ & _ & H)]);
      eauto.
  - unfold dispatch_line.
    destruct (Z.ltb_spec (parse_out_ch (frame_text line)) CHANNELS_PER_APP); [lia|].
    rewrite andb_false_r. eauto.
  - unfold dispatch_line.
    destruct (Z.leb_spec 0 (parse_out_ch (frame_text line))); [lia|]. cbn [andb]. eauto.
Qed.

Lemma dispatch_loop_defined fuel st i ci start :
  inv st -> arr_get (clients st) i = Defined ci -> active ci = true ->
  client_id ci <= MAX_CLIENTS ->
  exists st', dispatch_loop fuel st i start = Defined st'.
Proof.
  revert st start. induction fuel as [|fuel IH]; intros st start Hinv Hci Ha Hid;
    cbn [dispatch_loop]; [eauto|].
  destruct (strchr start LF) as [k|]; [|eauto].
  destruct (dispatch_line_defined st i ci (take k start) Hinv Hci Ha Hid) as [st1 H1].
  rewrite H1. cbn [bind].
  pose proof (dispatch_line_quiet _ _ _ _ H1) as Hq.
  apply (IH st1).
  - by apply (quiet_preserves _ _ Hq).
  - destruct Hq as (-> & _). done.
  - done.
  - done.
Qed.

(** X4 -- Whatever a live client with an identifier inside the routing table
    sends, the handler runs to its end inside the bounds of every table, and
    leaves the tables in the shape the event loop relies on. *)
Theorem dispatcher_stays_in_bounds st i ci r :
  inv st -> arr_get (clients st) i = Defined ci -> active ci = true ->
  client_id ci <= MAX_CLIENTS ->
  exists st', handle_client_input st i r = Defined st' /\ inv st' /\
              routing st' = routing st /\ next_client_id st' = next_client_id st.
Proof.
  intros Hinv Hci Ha Hid.
  assert (Hdef : exists st', handle_client_input st i r = Defined st').
  { unfold handle_client_input. destruct (Z.leb_spec (recv_count r) 0) as [Hr|Hr].
    - destruct (disconnect_spec st i ci r (inv_wf _ Hinv) Hci Hr) as (st1 & H1 & _).
      unfold handle_client_input in H1.
      destruct (Z.leb_spec (recv_count r) 0); [eauto | lia].
    - by eapply dispatch_loop_defined. }
  destruct Hdef as [st' H]. exists st'. split; [done|].
  split; [by apply (handle_client_input_preserves _ _ _ _ H)|].
  split; [exact (handle_client_input_routes _ _ _ _ H)|].
  revert H. unfold handle_client_input. destruct (recv_count r <=? 0).
  - intros H. inv_bind H. inv_bind H. by injection H as <-.
  - intros H. by destruct (dispatch_loop_quiet _ _ _ _ _ H) as (_ & ? & _).
Qed.

Lemma dispatcher_stays_in_bounds_witness :
  exists st', handle_client_input two_clients 0
                (Recv_bytes ("out9" +:+ NL +:+ "out1:x" +:+ NL +:+ "tail")) = Defined st'
              /\ inv st' /\ routing st' = routing two_clients
              /\ next_client_id st' = next_client_id two_clients.
Proof.
  apply (dispatcher_stays_in_bounds two_clients 0 client1).
  - apply reachable_inv, reachable_two_clients.
  - reflexivity.
  - reflexivity.
  - vm_compute. discriminate.
Defined.

(** ** Several frames in one read *)

Lemma complete_frames_no_newline a :
  complete_frames a = true -> str_forall (differs NUL) a = true ->
  strchr a LF = None -> a = "".
Proof.
  induction a as [|x a IH]; [done|]. cbn [complete_frames str_forall strchr].
  unfold differs at 1. intros Hc [Hx Ha]%andb_prop. apply negb_true_iff in Hx.
  destruct (Ascii.eqb x LF) eqn:E; [done|]. rewrite Hx.
  destruct (strchr a LF) eqn:E2; [done|]. intros _.
  destruct a as [|y a]; [congruence|]. specialize (IH Hc Ha eq_refl). done.
Qed.

Lemma dispatch_loop_app f1 f2 f3 st i a b :
  complete_frames a = true -> str_forall (differs NUL) a = true ->
  (String.length (a +:+ b) < f1)%nat -> (String.length a < f2)%nat ->
  (String.length b < f3)%nat ->
  dispatch_loop f1 st i (a +:+ b) =
  let* st' := dispatch_loop f2 st i a in dispatch_loop f3 st' i b.
Proof.
  revert f2 st a. induction f1 as [|f1 IH]; intros [|f2] st a Hc Hn H1 H2 H3; try lia.
  destruct (strchr a LF) as [k|] eqn:E.
  - cbn [dispatch_loop]. rewrite (strchr_app_l _ _ _ _ E), E.
    pose proof (strchr_lt _ _ _ E) as Hk.
    rewrite take_app_lt, drop_app_le by lia.
    destruct (dispatch_line st i (take k a)) as [st1|]; cbn [bind]; [|done].
    apply IH.
    + by apply complete_frames_drop.
    + by apply str_forall_drop.
    + rewrite length_append, drop_length. rewrite length_append in H1. lia.
    + rewrite drop_length. lia.
    + done.
  - assert (a = "") as -> by by apply complete_frames_no_newline.
    change ("" +:+ b) with b in *.
    change (dispatch_loop (S f2) st i "") with (Defined st). cbn [bind].
    by apply dispatch_loop_fuel.
Qed.

Lemma recv_count_bytes s : s <> "" -> (recv_count (Recv_bytes s) <=? 0) = false.
Proof.
  intros Hs. cbn [recv_count]. destruct s; [done|]. simpl String.length.
  apply Z.leb_gt. lia.
Qed.

Lemma append_nonempty a b : a <> "" -> a +:+ b <> "".
Proof. by destruct a. Qed.

(** X5 -- A read that holds several complete frames and then more bytes is
    handled as the read of the frames followed by the read of the rest. *)
Theorem frames_of_one_read_in_turn st i a b :
  complete_frames a = true -> str_forall (differs NUL) a = true ->
  a <> "" -> b <> "" ->
  handle_client_input st i (Recv_bytes (a +:+ b)) =
  let* st' := handle_client_input st i (Recv_bytes a) in
  handle_client_input st' i (Recv_bytes b).
Proof.
  intros Hc Hn Ha Hb. unfold handle_client_input.
  rewrite !recv_count_bytes by (done || by apply append_nonempty).
  cbn [recv_buf]. apply dispatch_loop_app; (done || lia).
Qed.

Lemma frames_of_one_read_in_turn_witness :
  handle_client_input two_clients_routed 0
    (Recv_bytes (("out0: a" +:+ NL +:+ "out1: b" +:+ NL) +:+ ("out2: c" +:+ NL))) =
  let* st' := handle_client_input two_clients_routed 0
                (Recv_bytes ("out0: a" +:+ NL +:+ "out1: b" +:+ NL)) in
  handle_client_input st' 0 (Recv_bytes ("out2: c" +:+ NL)).
Proof.
  apply (frames_of_one_read_in_turn two_clients_routed 0
           ("out0: a" +:+ NL +:+ "out1: b" +:+ NL) ("out2: c" +:+ NL));
    (reflexivity || discriminate).
Defined.

(** ** Output cache (C9) *)





(** ** A zero byte in a read *)

Lemma strchr_app_nul a b c :
  str_forall (differs NUL) a = true -> Ascii.eqb NUL c = false ->
  strchr (a +:+ String NUL b) c = strchr a c.
Proof.
  intros Ha Hc. induction a as [|x a IH]; cbn [String.append strchr].
  - by rewrite Hc, Ascii.eqb_refl.
  - cbn [str_forall] in Ha. apply andb_prop in Ha as [_ Ha]. by rewrite IH.
Qed.

Lemma dispatch_loop_nul f1 f2 st i a b :
  str_forall (differs NUL) a = true ->
  (String.length (a +:+ String NUL b) < f1)%nat -> (String.length a < f2)%nat ->
  dispatch_loop f1 st i (a +:+ String NUL b) = dispatch_loop f2 st i a.
Proof.
  revert f2 st a. induction f1 as [|f1 IH]; intros [|f2] st a Hn H1 H2; try lia.
  cbn [dispatch_loop]. rewrite strchr_app_nul by done.
  destruct (strchr a LF) as [k|] eqn:E; [|done].
  pose proof (strchr_lt _ _ _ E) as Hk.
  rewrite take_app_lt, drop_app_le by lia.
  destruct (dispatch_line st i (take k a)) as [st1|]; cbn [bind]; [|done].
  apply IH.
  - by apply str_forall_drop.
  - rewrite length_append, drop_length. rewrite length_append in H1. lia.
  - rewrite drop_length. lia.
Qed.

(** X6 -- A zero byte ends the read.  The bytes that follow it in the same
    read, whole frames included, are never looked at. *)
Theorem zero_byte_ends_read st i a b :
  a <> "" -> str_forall (differs NUL) a = true ->
  handle_client_input st i (Recv_bytes (a +:+ String NUL b)) =
  handle_client_input st i (Recv_bytes a).
Proof.
  intros Ha Hn. unfold handle_client_input.
  rewrite !recv_count_bytes by (done || by apply append_nonempty).
  cbn [recv_buf]. apply dispatch_loop_nul; (done || lia).
Qed.

Lemma zero_byte_ends_read_witness :
  handle_client_input two_clients_routed 0
    (Recv_bytes (("out0: a" +:+ NL) +:+ String NUL ("out0: b" +:+ NL))) =
  handle_client_input two_clients_routed 0 (Recv_bytes ("out0: a" +:+ NL)).
Proof.
  apply (zero_byte_ends_read two_clients_routed 0 ("out0: a" +:+ NL) ("out0: b" +:+ NL));
    (reflexivity || discriminate).
Defined.

(** ** What counts in an output frame *)

Lemma cut_at_app_clean c P X :
  str_forall (differs c) P = true -> str_forall (differs NUL) P = true ->
  cut_at c (P +:+ X) = P +:+ cut_at c X.
Proof.
  induction P as [|x P IH]; [done|]. cbn [str_forall String.append].
  unfold differs at 1 3. intros [H1 H2]%andb_prop [H3 H4]%andb_prop.
  apply negb_true_iff in H1, H3. rewrite cut_at_cons by done. by rewrite IH.
Qed.

Lemma frame_text_clean P X :
  str_forall (differs CR) P = true -> str_forall (differs LF) P = true ->
  str_forall (differs NUL) P = true -> line_text X = true ->
  frame_text (P +:+ X) = P +:+ cut_at CR X.
Proof.
  intros Hcr Hlf Hnul [HXlf HXnul]%line_text_parts.
  unfold frame_text, trim_newline. rewrite cut_at_app_clean by done.
  rewrite (cut_at_absent _ LF).
  - apply cut_at_absent. rewrite str_forall_app, Hcr. by apply cut_at_clean.
  - rewrite str_forall_app, Hlf. by apply str_forall_cut_at.
Qed.

Lemma dispatch_line_ext st i l1 l2 :
  parse_out_ch (frame_text l1) = parse_out_ch (frame_text l2) ->
  message_of (frame_text l1) = message_of (frame_text l2) ->
  dispatch_line st i l1 = dispatch_line st i l2.
Proof. unfold dispatch_line. by intros -> ->. Qed.

Lemma filler_parts w :
  filler w = true ->
  str_forall (differs ":"%char) w = true /\ str_forall (differs LF) w = true /\
  str_forall (differs CR) w = true /\ str_forall (differs NUL) w = true.
Proof.
  unfold filler. rewrite !str_forall_and.
  intros [[[H1 H2]%andb_prop H3]%andb_prop H4]%andb_prop. done.
Qed.

(** X7 -- The dispatcher reads the channel from the one digit after "out" and
    the message from what follows the first colon.  Whatever stands between
    the digit and the colon is ignored, and a frame with no colon at all
    counts as the frame with an empty message. *)
Theorem frame_filler_is_ignored st i c w X :
  0 <= c < CHANNELS_PER_APP -> filler w = true -> line_text X = true ->
  handle_client_input st i (Recv_bytes (("out" +:+ fmt_d c +:+ w +:+ ":" +:+ X) +:+ NL))
  = handle_client_input st i (Recv_bytes (out_frame c X +:+ NL)) /\
  handle_client_input st i (Recv_bytes (("out" +:+ fmt_d c +:+ w) +:+ NL))
  = handle_client_input st i (Recv_bytes (out_frame c "" +:+ NL)).
Proof.
  intros Hc (Hw1 & Hw2 & Hw3 & Hw4)%filler_parts HX.
  destruct (line_text_parts X HX) as [HXlf HXnul].
  destruct (out_frame_parse c X Hc HX) as (Rp & Rm & _).
  destruct (out_frame_parse c "" Hc eq_refl) as (Ep & Em & _).
  assert (Hlt : forall P Y, str_forall (differs LF) P = true ->
                  str_forall (differs NUL) P = true -> line_text Y = true ->
                  line_text (P +:+ Y) = true).
  { intros P Y H1 H2 [H3 H4]%line_text_parts. unfold line_text.
    by rewrite str_forall_and, !str_forall_app, H1, H2, H3, H4. }
  split.
  - rewrite !handle_single_frame.
    + apply dispatch_line_ext.
      * rewrite Rp.
        change ("out" +:+ fmt_d c +:+ w +:+ ":" +:+ X)
          with ("out" +:+ fmt_d c +:+ w +:+ String ":"%char X).
        destruct (digit_cases c Hc) as [->|[->|[->|[->| ->]]]];
          match goal with
          | |- context [frame_text (?a +:+ ?d +:+ w +:+ String ?k X)] =>
              replace (a +:+ d +:+ w +:+ String k X) with ((a +:+ d +:+ w +:+ ":") +:+ X)
                by (by rewrite !append_assoc)
          end;
          (rewrite frame_text_clean;
           [reflexivity
           | simpl; by rewrite str_forall_app, Hw3
           | simpl; by rewrite str_forall_app, Hw2
           | simpl; by rewrite str_forall_app, Hw4
           | done]).
      * rewrite Rm.
        assert (Hm : forall P, str_forall (differs ":"%char) P = true ->
                       str_forall (differs CR) P = true -> str_forall (differs LF) P = true ->
                       str_forall (differs NUL) P = true ->
                       message_of (frame_text ((P +:+ ":") +:+ X)) = payload_of X).
        { intros P H1 H2 H3 H4.
          rewrite frame_text_clean by (done || by rewrite str_forall_app, ?H2, ?H3, ?H4).
          unfold message_of. rewrite append_assoc.
          change (":" +:+ cut_at CR X) with (String ":"%char (cut_at CR X)).
          rewrite strchr_app_found by (by rewrite str_forall_and, H1, H4).
          by rewrite drop_app_length. }
        destruct (digit_cases c Hc) as [->|[->|[->|[->| ->]]]];
          match goal with
          | |- context [frame_text (?a +:+ ?d +:+ w +:+ ?k +:+ X)] =>
              replace (a +:+ d +:+ w +:+ k +:+ X) with (((a +:+ d +:+ w) +:+ ":") +:+ X)
                by (by rewrite !append_assoc)
          end;
          apply Hm; simpl; done.
    + by apply out_frame_line_text.
    + destruct (digit_cases c Hc) as [->|[->|[->|[->| ->]]]];
        match goal with
        | |- context [line_text (?a +:+ ?d +:+ w +:+ ?k +:+ X)] =>
            replace (a +:+ d +:+ w +:+ k +:+ X) with ((a +:+ d +:+ w +:+ k) +:+ X)
              by (by rewrite !append_assoc)
        end;
        (apply Hlt; [simpl; by rewrite str_forall_app, Hw2
                    | simpl; by rewrite str_forall_app, Hw4 | done]).
  - rewrite !handle_single_frame.
    + assert (Hft : frame_text ("out" +:+ fmt_d c +:+ w) = "out" +:+ fmt_d c +:+ w).
      { rewrite <- (append_empty_r ("out" +:+ fmt_d c +:+ w)) at 1.
        destruct (digit_cases c Hc) as [->|[->|[->|[->| ->]]]];
          (rewrite frame_text_clean; [apply append_empty_r | simpl; done ..]). }
      apply dispatch_line_ext; rewrite Hft.
      * rewrite Ep. destruct (digit_cases c Hc) as [->|[->|[->|[->| ->]]]]; reflexivity.
      * rewrite Em. unfold message_of.
        rewrite strchr_absent; [reflexivity|].
        destruct (digit_cases c Hc) as [->|[->|[->|[->| ->]]]]; simpl; done.
    + by apply out_frame_line_text.
    + rewrite <- (append_empty_r ("out" +:+ fmt_d c +:+ w)).
      destruct (digit_cases c Hc) as [->|[->|[->|[->| ->]]]]; (apply Hlt; simpl; done).
Qed.

Lemma frame_filler_is_ignored_witness :
  handle_client_input two_clients_routed 0
    (Recv_bytes (("out" +:+ fmt_d 1 +:+ "2 and more" +:+ ":" +:+ "x") +:+ NL))
  = handle_client_input two_clients_routed 0 (Recv_bytes (out_frame 1 "x" +:+ NL)) /\
  handle_client_input two_clients_routed 0
    (Recv_bytes (("out" +:+ fmt_d 1 +:+ "2 and more") +:+ NL))
  = handle_client_input two_clients_routed 0 (Recv_bytes (out_frame 1 "" +:+ NL)).
Proof.
  apply (frame_filler_is_ignored two_clients_routed 0 1 "2 and more" "x");
    [unfold CHANNELS_PER_APP; lia | reflexivity | reflexivity].
Defined.

(** ** The registry *)

(** X8 -- The lookup find_client_index returns -1 exactly when no live slot
    carries the identifier, and otherwise the lowest slot that is live with
    it. *)
Theorem find_client_index_lowest_live_slot st cid :
  (find_client_index st cid = -1 /\ ~ live st cid) \/
  (0 <= find_client_index st cid < Z.of_nat (length (clients st)) /\
   (exists ci, arr_get (clients st) (find_client_index st cid) = Defined ci /\
               active ci = true /\ client_id ci = cid) /\
   forall k ck, 0 <= k < find_client_index st cid ->
                arr_get (clients st) k = Defined ck ->
                active ck = false \/ client_id ck <> cid).
Proof.
  unfold find_client_index at 1 2 3 4 5.
  destruct (find_slot_spec (fun c => active c && (client_id c =? cid)) (clients st) 0)
    as [[H1 H2] | (c & H1 & H2 & H3 & H4)]; [lia | left | right].
  - split; [done|]. by apply find_client_index_not_live.
  - rewrite Z.sub_0_r in *. apply andb_prop in H3 as [Ha Hc]. apply Z.eqb_eq in Hc.
    split; [lia|]. split.
    + exists c. split; [|done]. apply arr_get_Defined. split; [lia | done].
    + intros k ck Hk [_ Hck]%arr_get_Defined.
      specialize (H4 (Z.to_nat k) ck ltac:(lia) Hck). cbn beta in H4.
      apply andb_false_iff in H4 as [H4|H4]; [by left | right]. by apply Z.eqb_neq.
Qed.

Lemma find_slot_ext (p q : ClientInfo -> bool) cl cl' k :
  p <$> cl = q <$> cl' -> find_slot p cl k = find_slot q cl' k.
Proof.
  revert cl' k. induction cl as [|c cl IH]; intros [|c' cl'] k; try done.
  cbn [fmap list_fmap find_slot]. intros [= Hc Hcl]. rewrite Hc.
  destruct (q c'); [done|]. by apply IH.
Qed.

Lemma greeting_fits cid :
  snprintf 128 ("Welcome to Switchboard. You are client_id=" +:+ fmt_d cid
                +:+ ", with 5 in / 5 out." +:+ NL)
  = "Welcome to Switchboard. You are client_id=" +:+ fmt_d cid
    +:+ ", with 5 in / 5 out." +:+ NL.
Proof.
  unfold snprintf. apply take_all. rewrite !length_append, length_NL.
  pose proof (length_fmt_d cid). simpl. lia.
Qed.

Lemma client_name_fits cid : snprintf 64 ("Client" +:+ fmt_d cid) = "Client" +:+ fmt_d cid.
Proof.
  unfold snprintf. apply take_all. rewrite !length_append.
  pose proof (length_fmt_d cid). simpl. lia.
Qed.

(** X3 -- A connection that finds a free slot is given an identifier that no
    slot carries, in use or released; from then on the identifier is found
    in the slot it was given, the lookup of every other identifier is as
    before, and the greeting and the name carry the identifier in full. *)
Theorem connection_gets_fresh_identifier st client_sock :
  inv st -> 0 <= client_sock ->
  (exists k ck, arr_get (clients st) k = Defined ck /\ active ck = false) ->
  next_client_id st <> INT_MAX ->
  exists st',
    handle_new_connection st client_sock = Defined st' /\
    Forall (fun c => client_id c <> next_client_id st) (clients st) /\
    0 <= find_free_slot st < MAX_CLIENTS /\
    find_client_index st' (next_client_id st) = find_free_slot st /\
    (forall cid, cid <> next_client_id st ->
                 find_client_index st' cid = find_client_index st cid) /\
    arr_get (clients st') (find_free_slot st)
      = Defined (mkClientInfo client_sock (next_client_id st) true
                   ("Client" +:+ fmt_d (next_client_id st))) /\
    next_client_id st' = next_client_id st + 1 /\
    trace st' = trace st ++
      [Ev_write client_sock ("Welcome to Switchboard. You are client_id="
                             +:+ fmt_d (next_client_id st)
                             +:+ ", with 5 in / 5 out." +:+ NL);
       Ev_printf ("Client " +:+ fmt_d (next_client_id st) +:+ " connected (slot="
                  +:+ fmt_d (find_free_slot st) +:+ ")." +:+ NL)].
Proof.
  intros Hinv Hs (k & ck & Hk & Hak) Hn.
  destruct (find_free_slot_spec st) as [[_ HF] | (c & Hr & Hc & Hac & _)].
  { apply arr_get_Defined in Hk as [_ Hk]. rewrite Forall_lookup in HF.
    specialize (HF _ _ Hk). cbn beta in HF. congruence. }
  destruct (connect_spec st client_sock Hs ltac:(lia) Hn)
    as (st' & H & _ & _ & Hnext & Hnew & Hother).
  exists st'. rewrite client_name_fits in Hnew.
  pose proof (handle_new_connection_preserves _ _ _ H) as [Hinv' _].
  specialize (Hinv' Hinv).
  assert (Hcl : clients st' = <[Z.to_nat (find_free_slot st) :=
                  mkClientInfo client_sock (next_client_id st) true
                    (snprintf 64 ("Client" +:+ fmt_d (next_client_id st)))]> (clients st)
                /\ trace st' = trace st ++
      [Ev_write client_sock ("Welcome to Switchboard. You are client_id="
                             +:+ fmt_d (next_client_id st)
                             +:+ ", with 5 in / 5 out." +:+ NL);
       Ev_printf ("Client " +:+ fmt_d (next_client_id st) +:+ " connected (slot="
                  +:+ fmt_d (find_free_slot st) +:+ ")." +:+ NL)]).
  { assert (Hst' : st' =
              emit (set_clients (set_next_client_id st (next_client_id st + 1))
                      (<[Z.to_nat (find_free_slot st) :=
                           mkClientInfo client_sock (next_client_id st) true
                             (snprintf 64 ("Client" +:+ fmt_d (next_client_id st)))]>
                         (clients st)))
                [Ev_write client_sock
                   (snprintf 128 ("Welcome to Switchboard. You are client_id="
                                  +:+ fmt_d (next_client_id st)
                                  +:+ ", with 5 in / 5 out." +:+ NL));
                 Ev_printf ("Client " +:+ fmt_d (next_client_id st) +:+ " connected (slot="
                            +:+ fmt_d (find_free_slot st) +:+ ")." +:+ NL)]).
    { clear Hinv' Hnew Hother Hnext. revert H. unfold handle_new_connection.
      destruct (Z.ltb_spec client_sock 0); [lia|].
      destruct (Z.ltb_spec (find_free_slot st) 0); [lia|].
      destruct (Z.eqb_spec (next_client_id st) INT_MAX); [done|].
      rewrite arr_set_in_range by done. cbn [bind]. by intros [= <-]. }
    rewrite Hst'. cbn [clients trace emit set_clients set_next_client_id].
    by rewrite greeting_fits. }
  destruct Hcl as [Hcl Htr].
  split_and!; try done.
  - eapply Forall_impl; [exact (ids_below _ (inv_ids _ Hinv))|].
    intros x Hx. cbn beta in Hx. lia.
  - lia.
  - rewrite (wf_clients _ (inv_wf _ Hinv)) in Hr. unfold MAX_CLIENTS in *. lia.
  - by apply (find_client_index_unique st' _ _ (inv_ids _ Hinv') Hnew).
  - intros cid Hcid. unfold find_client_index. apply find_slot_ext.
    rewrite Hcl, list_fmap_insert. apply list_insert_id.
    rewrite list_lookup_fmap. apply arr_get_Defined in Hc as [_ ->].
    cbn [fmap option_fmap option_map active client_id]. rewrite Hac.
    destruct (Z.eqb_spec (next_client_id st) cid); [congruence | done].
Qed.

Lemma connection_gets_fresh_identifier_witness :
  exists st',
    handle_new_connection two_clients 6 = Defined st' /\
    Forall (fun c => client_id c <> next_client_id two_clients) (clients two_clients) /\
    0 <= find_free_slot two_clients < MAX_CLIENTS /\
    find_client_index st' (next_client_id two_clients) = find_free_slot two_clients /\
    (forall cid, cid <> next_client_id two_clients ->
                 find_client_index st' cid = find_client_index two_clients cid) /\
    arr_get (clients st') (find_free_slot two_clients)
      = Defined (mkClientInfo 6 (next_client_id two_clients) true
                   ("Client" +:+ fmt_d (next_client_id two_clients))) /\
    next_client_id st' = next_client_id two_clients + 1 /\
    trace st' = trace two_clients ++
      [Ev_write 6 ("Welcome to Switchboard. You are client_id="
                   +:+ fmt_d (next_client_id two_clients)
                   +:+ ", with 5 in / 5 out." +:+ NL);
       Ev_printf ("Client " +:+ fmt_d (next_client_id two_clients) +:+ " connected (slot="
                  +:+ fmt_d (find_free_slot two_clients) +:+ ")." +:+ NL)].
Proof.
  apply (connection_gets_fresh_identifier two_clients 6).
  - apply reachable_inv, reachable_two_clients.
  - lia.
  - exists 2, (mkClientInfo 0 0 false ""). split; reflexivity.
  - vm_compute. discriminate.
Defined.

(** ** A client and its slot *)

Lemma stable_refl st : stable st st.
Proof. split; [apply preserves_refl|]. intros _ i ci Hi _. by left. Qed.

Lemma stable_trans st1 st2 st3 : stable st1 st2 -> stable st2 st3 -> stable st1 st3.
Proof.
  intros [P1 K1] [P2 K2]. split; [by eapply preserves_trans|].
  intros Hinv i ci Hi Ha.
  destruct (K1 Hinv i ci Hi Ha) as [H2|H2].
  - apply (K2 (proj1 P1 Hinv) i ci H2 Ha).
  - right. by apply (proj2 P2).
Qed.

Lemma quiet_stable st st' : quiet st st' -> stable st st'.
Proof.
  intros Hq. split; [by apply quiet_preserves|].
  intros _ i ci Hi _. left. destruct Hq as (-> & _). done.
Qed.

Lemma handle_client_input_stable st i r st' :
  handle_client_input st i r = Defined st' -> stable st st'.
Proof.
  intros H. split; [by eapply handle_client_input_preserves|].
  intros Hinv k ck Hk Hak.
  destruct (Z.leb_spec (recv_count r) 0) as [Hr|Hr].
  - destruct (arr_get (clients st) i) as [ci|] eqn:Hci.
    + destruct (disconnect_spec st i ci r (inv_wf _ Hinv) Hci Hr)
        as (st1 & H1 & _ & _ & _ & _ & _ & Hother).
      rewrite H in H1. injection H1 as <-.
      destruct (Z.eq_dec k i) as [->|Hne].
      * right. rewrite Hci in Hk. injection Hk as <-.
        by apply (disconnect_retires st i ci r).
      * left. by rewrite Hother.
    + revert H. unfold handle_client_input.
      destruct (Z.leb_spec (recv_count r) 0); [|lia]. by rewrite Hci.
  - left. revert H. unfold handle_client_input.
    destruct (Z.leb_spec (recv_count r) 0); [lia|].
    intros (-> & _)%dispatch_loop_quiet. done.
Qed.

Lemma handle_new_connection_stable st sock st' :
  handle_new_connection st sock = Defined st' -> stable st st'.
Proof.
  intros H. split; [by eapply handle_new_connection_preserves|].
  intros Hinv k ck Hk Hak. left. revert H. unfold handle_new_connection.
  destruct (Z.ltb_spec sock 0); [by intros [= <-]|].
  destruct (Z.ltb_spec (find_free_slot st) 0); [by intros [= <-]|].
  destruct (Z.eqb_spec (next_client_id st) INT_MAX); [done|].
  intros Hc. inv_bind Hc. injection Hc as <-.
  cbn [clients emit set_clients set_next_client_id].
  rewrite (arr_get_set_ne _ _ _ _ _ E); [done|].
  intros <-.
  destruct (find_free_slot_spec st) as [[Hf _] | (c & _ & Hc & Hac & _)]; [lia|].
  congruence.
Qed.

Lemma poll_clients_stable st ready st' :
  poll_clients st ready = Defined st' -> stable st st'.
Proof.
  unfold poll_clients.
  apply (foldl_bind_rel stable
           (fun s i => let* ci := arr_get (clients s) i in
                       match ready i with
                       | Some r => if active ci then handle_client_input s i r else Defined s
                       | None => Defined s
                       end));
    [apply stable_refl | apply stable_trans |].
  intros s i s' _ H. inv_bind H.
  destruct (ready i) as [r|]; [|injection H as <-; apply stable_refl].
  destruct (active a); [|injection H as <-; apply stable_refl].
  by eapply handle_client_input_stable.
Qed.

Lemma monitor_tick_stable m st t go m' st' :
  monitor_tick m st t = Defined (go, m', st') -> stable st st'.
Proof.
  unfold monitor_tick.
  destruct (select_ret t <? 0); [intros [= _ _ <-]; apply quiet_stable, quiet_emit|].
  intros H. inv_bind H. apply poll_clients_stable in E.
  inv_bind H. inv_bind H. injection H as _ _ <-.
  apply record_row_quiet, quiet_stable in E1.
  eapply stable_trans; [exact E|]. eapply stable_trans; [|exact E1].
  destruct (_ && _).
  - destruct a0 as [m1 s1]. apply toggle_recording_quiet in E0. by apply quiet_stable.
  - injection E0 as <-. apply stable_refl.
Qed.

Lemma monitor_loop_stable m st ticks m' st' :
  monitor_loop m st ticks = Defined (m', st') -> stable st st'.
Proof.
  revert m st. induction ticks as [|t ticks IH]; intros m st; cbn [monitor_loop].
  - intros [= _ <-]. apply stable_refl.
  - intros H. inv_bind H. destruct a as [[go m1] s1]. cbn [fst snd] in H.
    apply monitor_tick_stable in E. destruct go.
    + apply IH in H. by eapply stable_trans.
    + by injection H as _ <-.
Qed.

Lemma monitor_mode_stable st fps t0 ticks st' :
  monitor_mode st fps t0 ticks = Defined st' -> stable st st'.
Proof.
  unfold monitor_mode, monitor_exit. intros H. inv_bind H. injection H as <-.
  destruct a as [m1 s1]. apply monitor_loop_stable in E. cbn [fst snd].
  eapply stable_trans; [apply quiet_stable, quiet_emit|].
  eapply stable_trans; [exact E | apply quiet_stable, quiet_emit].
Qed.

Lemma server_step_stable st inp go st' :
  server_step st inp = Defined (go, st') -> stable st st'.
Proof.
  destruct inp as [sock | i r | line t0 ticks]; cbn [server_step].
  - intros H. inv_bind H. injection H as _ <-. by eapply handle_new_connection_stable.
  - destruct (slot_active st i); [|intros [= _ <-]; apply stable_refl].
    intros H. inv_bind H. injection H as _ <-. by eapply handle_client_input_stable.
  - intros H. inv_bind H. destruct a as [ctl s1]. cbn [fst snd] in H.
    apply handle_console_input_quiet, quiet_stable in E.
    destruct ctl; [by injection H as _ <- | | by injection H as _ <-].
    inv_bind H. injection H as _ <-. apply monitor_mode_stable in E0.
    by eapply stable_trans.
Qed.

Lemma run_stable st inputs st' : run st inputs = Defined st' -> stable st st'.
Proof.
  revert st. induction inputs as [|inp inputs IH]; intros st; cbn [run].
  - intros [= <-]. apply stable_refl.
  - intros H. inv_bind H. destruct a as [go s1]. cbn [fst snd] in H.
    apply server_step_stable in E. destruct go.
    + apply IH in H. by eapply stable_trans.
    + by injection H as <-.
Qed.

(** X9 -- Through any sequence of events a connected client keeps its slot,
    its identifier, its socket and its name for as long as it is connected;
    once it is gone its identifier belongs to no client ever again. *)
Theorem client_keeps_slot_until_gone st inputs st' i ci :
  inv st -> run st inputs = Defined st' ->
  arr_get (clients st) i = Defined ci -> active ci = true ->
  (arr_get (clients st') i = Defined ci /\ find_client_index st' (client_id ci) = i) \/
  (retired st' (client_id ci) /\ find_client_index st' (client_id ci) = -1).
Proof.
  intros Hinv Hrun Hi Ha.
  destruct (run_stable _ _ _ Hrun) as [[Hinv' _] Hk]. specialize (Hinv' Hinv).
  destruct (Hk Hinv i ci Hi Ha) as [H|H]; [left | right]; (split; [done|]).
  - by apply find_client_index_unique; [apply (inv_ids _ Hinv')| |].
  - apply find_client_index_not_live. by destruct H.
Qed.

Lemma client_keeps_slot_until_gone_witness :
  (arr_get (clients full_registry) 1 = Defined client2 /\
   find_client_index full_registry (client_id client2) = 1) \/
  (retired full_registry (client_id client2) /\
   find_client_index full_registry (client_id client2) = -1).
Proof.
  apply (client_keeps_slot_until_gone two_clients (map In_accept (seqZ 6 18))
           full_registry 1 client2).
  - apply reachable_inv, reachable_two_clients.
  - vm_compute. reflexivity.
  - reflexivity.
  - reflexivity.
Defined.

(** ** Routes stay *)

Lemma keeps_routes_same st st' : same_routes st st' -> keeps_routes st st'.
Proof.
  intros H a c r Hr Hin. exists r. split; [|done]. by rewrite (route_at_same st st').
Qed.

Lemma lasting_refl st : lasting st st.
Proof. split; [apply preserves_refl|]. intros _. by apply keeps_routes_same. Qed.

Lemma lasting_trans st1 st2 st3 : lasting st1 st2 -> lasting st2 st3 -> lasting st1 st3.
Proof.
  intros [P1 K1] [P2 K2]. split; [by eapply preserves_trans|].
  intros Hinv a c r Hr Hin.
  destruct (K1 Hinv a c r Hr Hin) as (r2 & Hr2 & Hin2).
  exact (K2 (proj1 P1 Hinv) a c r2 Hr2 Hin2).
Qed.

Lemma lasting_same st st' : preserves st st' -> same_routes st st' -> lasting st st'.
Proof. intros HP HS. split; [done|]. intros _. by apply keeps_routes_same. Qed.

Lemma lasting_emit st evs : lasting st (emit st evs).
Proof. apply lasting_same; [apply preserves_emit | apply same_routes_emit]. Qed.

Lemma route_command_lasting st a c b d st' :
  route_command st a c b d = Defined st' -> 0 <= d < CHANNELS_PER_APP -> lasting st st'.
Proof.
  intros H Hd. split; [by apply quiet_preserves, (route_command_quiet st a c b d)|].
  intros Hinv. revert H. unfold route_command.
  destruct (Z.ltb_spec (find_client_index st a) 0);
    [intros [= <-]; apply keeps_routes_same, same_routes_emit|].
  destruct (Z.ltb_spec (find_client_index st b) 0) as [|Hb];
    [intros [= <-]; apply keeps_routes_same, same_routes_emit|].
  intros Hw. inv_bind Hw. injection Hw as <-.
  destruct (write_route_inv _ _ _ _ _ _ E) as (_ & _ & _ & _ & _ & Hnew & Hold).
  destruct (find_client_index_found st b _ eq_refl Hb) as (cb & Hcb & Hab & Hidb).
  pose proof (live_id_positive _ _ _ (inv_ids _ Hinv) Hcb Hab) as Hpos.
  intros a' c' r Hr Hin. rewrite (route_at_same a0 (emit a0 _)) by done.
  destruct (Z.eq_dec a' a) as [->|Hne]; [destruct (Z.eq_dec c' c) as [->|Hne]|].
  - exists (mkRoute b d). split; [done|]. cbn [in_client_id]. lia.
  - exists r. by rewrite Hold by auto.
  - exists r. by rewrite Hold by auto.
Qed.

Lemma expand_route_rel (R : server -> server -> Prop) route1
    st outCID outAll fixedOut inCID inAll fixedIn st' :
  (forall s, R s s) -> (forall s1 s2 s3, R s1 s2 -> R s2 s3 -> R s1 s3) ->
  (forall s a c b d s', route1 s a c b d = Defined s' -> 0 <= d < CHANNELS_PER_APP ->
                        R s s') ->
  channel_out_of_range inAll fixedIn = false ->
  expand_route route1 st outCID outAll fixedOut inCID inAll fixedIn = Defined st' ->
  R st st'.
Proof.
  intros Hrefl Htrans Hr Hin. unfold expand_route.
  destruct outAll, inAll; cbn [andb negb].
  - apply for_channels_rel; [done | done |].
    intros s i s' Hi H. by apply Hr in H.
  - apply for_channels_rel; [done | done |].
    intros s i s' Hi H. apply Hr in H; [done|]. by apply (channel_in_range false).
  - apply for_channels_rel; [done | done |].
    intros s i s' Hi H. by apply Hr in H.
  - intros H. apply Hr in H; [done|]. by apply (channel_in_range false).
Qed.

Lemma console_route_lasting st cmdline st' :
  console_route st cmdline = Defined st' -> lasting st st'.
Proof.
  unfold console_route.
  destruct (strtok cmdline) as [t0 s1], (strtok s1) as [p1 s2], (strtok s2) as [p2 s3],
           (strtok s3) as [p3 s4], (strtok s4) as [p4 s5].
  destruct p1 as [p1|], p2 as [p2|], p3 as [p3|], p4 as [p4|];
    try (intros [= <-]; apply lasting_emit).
  unfold console_route_args.
  intros H. inv_bind H. inv_bind H. inv_bind H. inv_bind H.
  destruct (channel_out_of_range (strcmp_eq p2 "all") a1); [injection H as <-; apply lasting_emit|].
  destruct (channel_out_of_range (strcmp_eq p4 "all") a2) eqn:Hin;
    [injection H as <-; apply lasting_emit|].
  eapply (expand_route_rel lasting);
    [apply lasting_refl | apply lasting_trans | | exact Hin | exact H].
  intros. by eapply route_command_lasting.
Qed.

Lemma handle_console_input_lasting st line ctl st' :
  handle_console_input st line = Defined (ctl, st') -> lasting st st'.
Proof.
  unfold handle_console_input. destruct line as [l|]; [|intros [= _ <-]; apply lasting_refl].
  repeat match goal with
         | |- (if ?b then _ else _) = _ -> _ => destruct b
         end;
    try (intros [= _ <-]; first [apply lasting_refl | apply lasting_emit]);
    intros H; inv_bind H; injection H as _ <-.
  - apply lasting_same; [by apply quiet_preserves, list_routes_quiet
                        | by apply list_routes_routes].
  - apply lasting_refl.
  - apply lasting_same; [by eapply quiet_preserves, print_command_quiet
                        | by eapply print_command_routes].
  - by eapply console_route_lasting.
Qed.

Lemma server_step_lasting st inp go st' :
  server_step st inp = Defined (go, st') -> lasting st st'.
Proof.
  destruct inp as [sock | i r | line t0 ticks]; cbn [server_step].
  - intros H. inv_bind H. injection H as _ <-.
    apply lasting_same; [by eapply handle_new_connection_preserves
                        | by eapply handle_new_connection_routes].
  - destruct (slot_active st i); [|intros [= _ <-]; apply lasting_refl].
    intros H. inv_bind H. injection H as _ <-.
    apply lasting_same; [by eapply handle_client_input_preserves
                        | by eapply handle_client_input_routes].
  - intros H. inv_bind H. destruct a as [ctl s1]. cbn [fst snd] in H.
    apply handle_console_input_lasting in E.
    destruct ctl; [by injection H as _ <- | | by injection H as _ <-].
    inv_bind H. injection H as _ <-.
    eapply lasting_trans; [exact E|].
    apply lasting_same; [by eapply monitor_mode_preserves | by eapply monitor_mode_routes].
Qed.

Lemma run_lasting st inputs st' : run st inputs = Defined st' -> lasting st st'.
Proof.
  revert st. induction inputs as [|inp inputs IH]; intros st; cbn [run].
  - intros [= <-]. apply lasting_refl.
  - intros H. inv_bind H. destruct a as [go s1]. cbn [fst snd] in H.
    apply server_step_lasting in E. destruct go.
    + apply IH in H. by eapply lasting_trans.
    + by injection H as <-.
Qed.

(** X10 -- Once the event loop runs, an output channel that has a destination
    never loses it.  A route command can redirect the channel, but its
    destination must be connected, and a live identifier is never negative:
    no input takes an entry of the routing table back to "none". *)
Theorem route_never_removed st inputs st' a c r :
  inv st -> run st inputs = Defined st' ->
  route_at st a c = Defined r -> 0 <= in_client_id r ->
  exists r', route_at st' a c = Defined r' /\ 0 <= in_client_id r'.
Proof.
  intros Hinv Hrun Hr Hin.
  destruct (run_lasting _ _ _ Hrun) as [_ Hk]. exact (Hk Hinv a c r Hr Hin).
Qed.

Lemma route_never_removed_witness :
  exists r',
    route_at (match run two_clients_routed
                      [In_console (Some (route_line "1" "0" "1" "4")) (mkTimeval 0 0) [];
                       In_client 1 Recv_eof;
                       In_console (Some (route_line "1" "all" "2" "all")) (mkTimeval 0 0) []]
              with
              | Defined s => s
              | Undefined => two_clients_routed
              end) 1 0 = Defined r' /\ 0 <= in_client_id r'.
Proof.
  apply (route_never_removed two_clients_routed
           [In_console (Some (route_line "1" "0" "1" "4")) (mkTimeval 0 0) [];
            In_client 1 Recv_eof;
            In_console (Some (route_line "1" "all" "2" "all")) (mkTimeval 0 0) []]
           _ 1 0 (mkRoute 2 0)).
  - apply reachable_inv, reachable_two_clients_routed.
  - vm_compute. reflexivity.
  - reflexivity.
  - simpl. lia.
Defined.

(** ** What the handlers write to the trace *)

Lemma grows_refl P st : grows P st st.
Proof. exists []. by rewrite app_nil_r. Qed.

Lemma grows_trans P st1 st2 st3 : grows P st1 st2 -> grows P st2 st3 -> grows P st1 st3.
Proof.
  intros (e1 & H1 & F1) (e2 & H2 & F2). exists (e1 ++ e2).
  split; [by rewrite H2, H1, app_assoc | by apply Forall_app].
Qed.

Lemma grows_emit (P : event -> Prop) st evs : Forall P evs -> grows P st (emit st evs).
Proof. intros HF. by exists evs. Qed.

Lemma grows_same P st st' : trace st' = trace st -> grows P st st'.
Proof. intros H. exists []. by rewrite app_nil_r. Qed.

Lemma grows_impl (P Q : event -> Prop) st st' :
  (forall ev, P ev -> Q ev) -> grows P st st' -> grows Q st st'.
Proof. intros HPQ (evs & H & HF). exists evs. split; [done|]. by eapply Forall_impl. Qed.

Lemma dispatch_line_grows st i line st' :
  dispatch_line st i line = Defined st' -> grows (fun ev => client_event ev = true) st st'.
Proof.
  unfold dispatch_line. intros H.
  destruct ((0 <=? _) && _); [|injection H as <-; apply grows_refl].
  inv_bind H. destruct (record_output_inv _ _ _ _ _ E) as (_ & _ & _ & Ht & _).
  apply (grows_trans _ _ a); [by apply grows_same|].
  inv_bind H. inv_bind H.
  destruct (0 <=? in_client_id _); [|injection H as <-; apply grows_refl].
  destruct (0 <=? find_client_index _ _); [|injection H as <-; apply grows_refl].
  inv_bind H. destruct (active _); [|injection H as <-; apply grows_refl].
  destruct (record_input_inv _ _ _ _ _ H) as (_ & _ & _ & Ht2 & _).
  eapply grows_trans; [|by apply grows_same].
  apply grows_emit. by repeat constructor.
Qed.

Lemma dispatch_loop_grows fuel st i start st' :
  dispatch_loop fuel st i start = Defined st' ->
  grows (fun ev => client_event ev = true) st st'.
Proof.
  revert st start. induction fuel as [|fuel IH]; intros st start; cbn [dispatch_loop].
  - intros [= <-]. apply grows_refl.
  - destruct (strchr start LF); [|intros [= <-]; apply grows_refl].
    intros H. inv_bind H. apply dispatch_line_grows in E. apply IH in H.
    by eapply grows_trans.
Qed.

Lemma handle_client_input_grows st i r st' :
  handle_client_input st i r = Defined st' ->
  grows (fun ev => client_event ev = true) st st'.
Proof.
  unfold handle_client_input. destruct (recv_count r <=? 0).
  - intros H. inv_bind H. inv_bind H. injection H as <-.
    eexists. split; [reflexivity|]. by repeat constructor.
  - apply dispatch_loop_grows.
Qed.

Lemma poll_clients_grows st ready st' :
  poll_clients st ready = Defined st' -> grows (fun ev => client_event ev = true) st st'.
Proof.
  unfold poll_clients.
  apply (foldl_bind_rel (grows (fun ev => client_event ev = true))
           (fun s i => let* ci := arr_get (clients s) i in
                       match ready i with
                       | Some r => if active ci then handle_client_input s i r else Defined s
                       | None => Defined s
                       end));
    [apply grows_refl | apply grows_trans |].
  intros s i s' _ H. inv_bind H.
  destruct (ready i) as [r|]; [|injection H as <-; apply grows_refl].
  destruct (active a); [|injection H as <-; apply grows_refl].
  by eapply handle_client_input_grows.
Qed.

(** ** Monitor mode and the registry *)

Lemma only_releases_refl st : only_releases st st.
Proof. by split_and!. Qed.

Lemma only_releases_trans st1 st2 st3 :
  only_releases st1 st2 -> only_releases st2 st3 -> only_releases st1 st3.
Proof.
  intros (A1 & A2 & A3 & A4) (B1 & B2 & B3 & B4).
  split_and!; [congruence | congruence | congruence |].
  intros i ci Hi Ha. apply A4; [|done]. by apply B4.
Qed.

Lemma only_releases_quiet st st' : quiet st st' -> routing st' = routing st ->
  only_releases st st'.
Proof. intros (H1 & H2 & _) Hr. split_and!; try done; by rewrite H1. Qed.

Lemma handle_client_input_releases st i r st' :
  handle_client_input st i r = Defined st' -> only_releases st st'.
Proof.
  intros H. pose proof (handle_client_input_routes _ _ _ _ H) as Hr. revert H.
  unfold handle_client_input. destruct (recv_count r <=? 0).
  - intros H. inv_bind H. inv_bind H. injection H as <-.
    cbn [clients emit] in E0.
    split_and!; cbn [next_client_id routing clients set_clients emit]; try done.
    + by rewrite (arr_set_length _ _ _ _ E0).
    + intros k ck Hk Hak. destruct (Z.eq_dec k i) as [->|Hne].
      * rewrite (arr_get_set_eq _ _ _ _ E0) in Hk. injection Hk as <-. done.
      * by rewrite (arr_get_set_ne _ _ _ _ _ E0) in Hk by congruence.
  - intros H. apply only_releases_quiet; [by eapply dispatch_loop_quiet | done].
Qed.

Lemma poll_clients_releases st ready st' :
  poll_clients st ready = Defined st' -> only_releases st st'.
Proof.
  unfold poll_clients.
  apply (foldl_bind_rel only_releases
           (fun s i => let* ci := arr_get (clients s) i in
                       match ready i with
                       | Some r => if active ci then handle_client_input s i r else Defined s
                       | None => Defined s
                       end));
    [apply only_releases_refl | apply only_releases_trans |].
  intros s i s' _ H. inv_bind H.
  destruct (ready i) as [r|]; [|injection H as <-; apply only_releases_refl].
  destruct (active a); [|injection H as <-; apply only_releases_refl].
  by eapply handle_client_input_releases.
Qed.

Lemma only_releases_emit st evs : only_releases st (emit st evs).
Proof. by split_and!. Qed.

Ltac releases_nothing := first [apply only_releases_refl | apply only_releases_emit].

Lemma monitor_tick_releases m st t go m' st' :
  monitor_tick m st t = Defined (go, m', st') -> only_releases st st'.
Proof.
  unfold monitor_tick.
  destruct (select_ret t <? 0); [intros [= _ _ <-]; releases_nothing|].
  intros H. inv_bind H. apply poll_clients_releases in E.
  inv_bind H. inv_bind H. injection H as _ _ <-.
  eapply only_releases_trans; [exact E|].
  assert (Hrow : only_releases (snd a0) a1).
  { revert E1. unfold record_row. destruct (recording (fst a0)), (log_file (fst a0));
      try (intros [= <-]; releases_nothing).
    intros H. inv_bind H. injection H as <-. releases_nothing. }
  eapply only_releases_trans; [|exact Hrow].
  destruct (_ && _); [|injection E0 as <-; releases_nothing].
  destruct a0 as [m1 s1]. revert E0. unfold toggle_recording.
  destruct (recording m); [intros [= _ <-]; releases_nothing|].
  destruct (fopen_ok t); [|intros [= _ <-]; releases_nothing].
  intros H. inv_bind H. injection H as _ <-. releases_nothing.
Qed.

(** X23 -- Monitor mode accepts no connection.  When it returns, the routing
    table and the next identifier are what they were when it was entered,
    and every client that is connected was connected then, in the same slot
    with the same identifier and socket: slots are released, never filled. *)
Theorem monitor_mode_accepts_nobody st fps t0 ticks st' :
  monitor_mode st fps t0 ticks = Defined st' ->
  next_client_id st' = next_client_id st /\ routing st' = routing st /\
  length (clients st') = length (clients st) /\
  forall i ci', arr_get (clients st') i = Defined ci' -> active ci' = true ->
                arr_get (clients st) i = Defined ci'.
Proof.
  assert (Hloop : forall ticks m s m' s',
            monitor_loop m s ticks = Defined (m', s') -> only_releases s s').
  { clear. induction ticks as [|t ticks IH]; intros m s m' s'; cbn [monitor_loop].
    - intros [= _ <-]. apply only_releases_refl.
    - intros H. inv_bind H. destruct a as [[go m1] s1]. cbn [fst snd] in H.
      apply monitor_tick_releases in E. destruct go.
      + apply IH in H. by eapply only_releases_trans.
      + by injection H as _ <-. }
  unfold monitor_mode, monitor_exit. intros H. inv_bind H. injection H as <-.
  destruct a as [m1 s1]. apply Hloop in E. cbn [fst snd].
  eapply only_releases_trans; [apply only_releases_emit|].
  eapply only_releases_trans; [exact E | apply only_releases_emit].
Qed.

(** ** Log files *)

Lemma log_protocol_app o a b :
  log_protocol o (a ++ b) =
  match log_protocol o a with
  | Some o' => log_protocol o' b
  | None => None
  end.
Proof.
  revert o. induction a as [|ev a IH]; intros o; [done|].
  destruct ev as [| | | | | |f ok|f text|f]; cbn [app log_protocol]; try apply IH.
  - destruct ok; [|apply IH]. destruct o; [done | apply IH].
  - destruct o as [g|]; [|done]. destruct (String.eqb f g); [apply IH | done].
  - destruct o as [g|]; [|done]. destruct (String.eqb f g); [apply IH | done].
Qed.

Lemma log_protocol_client o evs :
  Forall (fun ev => client_event ev = true) evs -> log_protocol o evs = Some o.
Proof.
  induction 1 as [|ev evs Hev _ IH]; [done|].
  destruct ev; try discriminate Hev; exact IH.
Qed.

Lemma toggle_recording_log m st t m' st' :
  toggle_recording m st t = Defined (m', st') ->
  (recording m = false -> log_file m = None) ->
  exists evs, trace st' = trace st ++ evs /\
              log_protocol (log_file m) evs = Some (log_file m') /\
              (recording m' = false -> log_file m' = None).
Proof.
  unfold toggle_recording. intros H HJ. destruct (recording m).
  - injection H as <- <-. eexists. split; [reflexivity|]. cbn [log_file recording].
    split; [|done]. destruct (log_file m) as [f|]; [|done].
    cbn [log_protocol]. by rewrite String.eqb_refl.
  - rewrite HJ by done. destruct (fopen_ok t).
    + inv_bind H. injection H as <- <-. eexists. split; [reflexivity|].
      cbn [log_file recording log_protocol]. by rewrite String.eqb_refl.
    + injection H as <- <-. eexists. split; [reflexivity|]. done.
Qed.

Lemma record_row_log m st t st' :
  record_row m st t = Defined st' ->
  exists evs, trace st' = trace st ++ evs /\
              log_protocol (log_file m) evs = Some (log_file m).
Proof.
  unfold record_row. destruct (recording m), (log_file m) as [f|];
    try (intros [= <-]; exists []; by rewrite app_nil_r).
  intros H. inv_bind H. injection H as <-. eexists. split; [reflexivity|].
  cbn [log_protocol]. by rewrite String.eqb_refl.
Qed.

Lemma monitor_tick_log m st t go m' st' :
  monitor_tick m st t = Defined (go, m', st') ->
  (recording m = false -> log_file m = None) ->
  exists evs, trace st' = trace st ++ evs /\
              log_protocol (log_file m) evs = Some (log_file m') /\
              (recording m' = false -> log_file m' = None).
Proof.
  unfold monitor_tick. intros H HJ. destruct (select_ret t <? 0).
  - injection H as _ <- <-. eexists. split; [reflexivity|]. done.
  - inv_bind H. destruct (poll_clients_grows _ _ _ E) as (e1 & T1 & F1).
    inv_bind H. inv_bind H. injection H as _ <- <-.
    destruct (record_row_log _ _ _ _ E1) as (e3 & T3 & P3).
    assert (Htog : exists e2, trace (snd a0) = trace a ++ e2 /\
                     log_protocol (log_file m) e2 = Some (log_file (fst a0)) /\
                     (recording (fst a0) = false -> log_file (fst a0) = None)).
    { destruct (_ && _).
      - destruct a0 as [m1 s1]. by eapply toggle_recording_log.
      - injection E0 as <-. exists []. by rewrite app_nil_r. }
    destruct Htog as (e2 & T2 & P2 & J2).
    exists (e1 ++ e2 ++ e3). split_and!.
    + by rewrite T3, T2, T1, !app_assoc.
    + by rewrite log_protocol_app, (log_protocol_client _ _ F1), log_protocol_app, P2.
    + done.
Qed.

Lemma monitor_loop_log m st ticks m' st' :
  monitor_loop m st ticks = Defined (m', st') ->
  (recording m = false -> log_file m = None) ->
  exists evs, trace st' = trace st ++ evs /\
              log_protocol (log_file m) evs = Some (log_file m').
Proof.
  revert m st. induction ticks as [|t ticks IH]; intros m st; cbn [monitor_loop].
  - intros [= <- <-] _. exists []. by rewrite app_nil_r.
  - intros H HJ. inv_bind H. destruct a as [[go m1] s1]. cbn [fst snd] in H.
    destruct (monitor_tick_log _ _ _ _ _ _ E HJ) as (e1 & T1 & P1 & J1).
    destruct go.
    + destruct (IH _ _ H J1) as (e2 & T2 & P2).
      exists (e1 ++ e2). split; [by rewrite T2, T1, app_assoc|].
      by rewrite log_protocol_app, P1.
    + injection H as <- <-. by exists e1.
Qed.

(** X24 -- Monitor mode keeps to the discipline of its log files.  It opens a
    file only while none is open, writes rows to the open file only, and
    when it returns, by the quit key, by an error of select or otherwise,
    every file it opened is closed. *)
Theorem monitor_mode_closes_its_logs st fps t0 ticks st' :
  monitor_mode st fps t0 ticks = Defined st' ->
  exists evs, trace st' = trace st ++ evs /\ log_protocol None evs = Some None.
Proof.
  unfold monitor_mode. intros H. inv_bind H. injection H as <-.
  destruct a as [m1 s1]. cbn [fst snd].
  destruct (monitor_loop_log _ _ _ _ _ E ltac:(done)) as (evs & T & P).
  cbn [trace emit monitor_enter log_file] in T, P.
  unfold monitor_exit. cbn [trace emit]. rewrite T, <- !app_assoc.
  eexists. split; [reflexivity|].
  cbn [app log_protocol]. rewrite log_protocol_app, P.
  destruct (log_file m1) as [f|]; [|done].
  cbn [app log_protocol]. by rewrite String.eqb_refl.
Qed.

(** ** The layout of the log file *)

Lemma foldl_ext {A B} (f g : A -> B -> A) l a :
  (forall a b, f a b = g a b) -> foldl f a l = foldl g a l.
Proof. intros H. revert a. induction l as [|b l IH]; intros a; simpl; [done|]. by rewrite H, IH. Qed.

Lemma row_cells_ext c1 c2 indices :
  (forall count j idx ch, c1 count j idx ch = c2 count j idx ch) ->
  row_cells c1 indices = row_cells c2 indices.
Proof.
  intros H. unfold row_cells. apply foldl_ext. intros acc ji.
  apply foldl_ext. intros acc' ch. by rewrite H.
Qed.

Lemma header_cell_of st count j idx ch :
  header_cell st count j idx ch = cell_of (header_text st) count j idx ch.
Proof.
  unfold header_cell, cell_of, header_text. cbn [fst snd].
  destruct (arr_get (clients st) idx); cbn [bind]; [|done].
  by rewrite !append_assoc.
Qed.

Lemma data_cell_of st count j idx ch :
  data_cell st count j idx ch = cell_of (data_text st) count j idx ch.
Proof.
  unfold data_cell, cell_of, data_text, out_cache. cbn [fst snd].
  destruct (arr_get (client_data st) idx) as [cd|]; cbn [bind]; [|done].
  by destruct (arr_get (last_out cd) ch).
Qed.

Lemma elem_of_columns col indices :
  col ∈ columns indices <->
  fst col ∈ indices /\ 0 <= snd col < CHANNELS_PER_APP.
Proof.
  induction indices as [|idx rest IH]; cbn [columns].
  - split; [by intros ?%elem_of_nil | by intros [?%elem_of_nil _]].
  - rewrite elem_of_app, list_elem_of_fmap, IH, elem_of_cons. split.
    + intros [(ch & -> & Hch%elem_of_channels) | [H1 H2]]; cbn [fst snd]; auto.
    + intros [[Hi | Hi] Hc].
      * left. exists (snd col). split; [|by apply elem_of_channels].
        destruct col. cbn [fst snd] in *. by subst.
      * by right.
Qed.

Lemma row_block text (g : Z * Z -> string) count j idx T :
  (forall ch, 0 <= ch < CHANNELS_PER_APP -> text (idx, ch) = Defined (g (idx, ch))) ->
  foldl (fun acc' ch =>
           let* t := acc' in
           let* c := cell_of text count j idx ch in
           Defined (t +:+ c))
        (Defined T) (seqZ 0 CHANNELS_PER_APP)
  = Defined (T +:+ g (idx, 0) +:+ "," +:+ g (idx, 1) +:+ "," +:+ g (idx, 2) +:+ ","
             +:+ g (idx, 3) +:+ "," +:+ g (idx, 4)
             +:+ (if Nat.eqb j (count - 1) then "" else ",")).
Proof.
  intros Hc. rewrite channels_list. unfold cell_of. cbn [foldl bind].
  rewrite !Hc by (unfold CHANNELS_PER_APP; lia). cbn [bind].
  unfold last_column.
  change (0 =? CHANNELS_PER_APP - 1) with false.
  change (1 =? CHANNELS_PER_APP - 1) with false.
  change (2 =? CHANNELS_PER_APP - 1) with false.
  change (3 =? CHANNELS_PER_APP - 1) with false.
  change (4 =? CHANNELS_PER_APP - 1) with true.
  rewrite !andb_false_r, andb_true_r. by rewrite !append_assoc.
Qed.

Lemma row_cells_from text (g : Z * Z -> string) count k suff T :
  (k + length suff = count)%nat ->
  (forall col, col ∈ columns suff -> text col = Defined (g col)) ->
  foldl (fun acc ji =>
           foldl (fun acc' ch =>
                    let* t := acc' in
                    let* c := cell_of text count (fst ji) (snd ji) ch in
                    Defined (t +:+ c))
                 acc (seqZ 0 CHANNELS_PER_APP))
        (Defined T) (zip (seq k (length suff)) suff)
  = Defined (T +:+ String.concat "," (g <$> columns suff)).
Proof.
  revert k T. induction suff as [|idx rest IH]; intros k T Hk Hg.
  - cbn. by rewrite append_empty_r.
  - cbn [length seq zip zip_with foldl fst snd].
    rewrite (row_block text g).
    2:{ intros ch Hch. apply Hg, elem_of_columns. cbn [fst snd].
        split; [apply list_elem_of_here | done]. }
    rewrite IH; [|cbn [length] in Hk; lia|].
    + f_equal. cbn [columns]. rewrite channels_list. cbn [fmap list_fmap app].
      destruct rest as [|idx2 rest].
      * assert (Nat.eqb k (count - 1) = true) as -> by (apply Nat.eqb_eq; cbn [length] in Hk; lia).
        cbn. by rewrite !append_assoc, !append_empty_r.
      * assert (Nat.eqb k (count - 1) = false) as ->
            by (apply Nat.eqb_neq; cbn [length] in Hk; lia).
        cbn [columns]. rewrite channels_list. cbn [fmap list_fmap app String.concat].
        by rewrite !append_assoc.
    + intros col Hcol. apply Hg. apply elem_of_columns.
      apply elem_of_columns in Hcol as [H1 H2]. split; [by apply list_elem_of_further | done].
Qed.

(** The nested loops that print a line of the log file join the texts of
    its columns with commas. *)
Lemma row_cells_join text indices :
  (forall col, col ∈ columns indices -> exists t, text col = Defined t) ->
  exists cells,
    row_cells (cell_of text) indices = Defined (String.concat "," cells) /\
    Forall2 (fun col cell => text col = Defined cell) (columns indices) cells.
Proof.
  intros Hdef.
  set (g := fun col => match text col with Defined t => t | Undefined => "" end).
  assert (Hg : forall col, col ∈ columns indices -> text col = Defined (g col)).
  { intros col [t Ht]%Hdef. unfold g. by rewrite Ht. }
  exists (g <$> columns indices). split.
  - unfold row_cells.
    rewrite (row_cells_from text g (length indices) 0 indices "") by done.
    reflexivity.
  - apply Forall2_fmap_r, Forall_Forall2_diag, Forall_forall. exact Hg.
Qed.

Lemma elem_of_active_indices cl k i :
  i ∈ active_indices cl k <->
  exists c, k <= i /\ cl !! Z.to_nat (i - k) = Some c /\ active c = true.
Proof.
  revert k. induction cl as [|c cl IH]; intros k; cbn [active_indices].
  - split; [by intros ?%elem_of_nil | by intros (c & _ & ? & _)].
  - assert (Hrest : i ∈ active_indices cl (k + 1) <->
                    exists c', k < i /\ (c :: cl) !! Z.to_nat (i - k) = Some c' /\ active c' = true).
    { rewrite IH. split; intros (c' & H1 & H2 & H3); exists c'; (split; [lia|]);
        (split; [|done]).
      - replace (Z.to_nat (i - k)) with (S (Z.to_nat (i - (k + 1)))) by lia. done.
      - replace (Z.to_nat (i - k)) with (S (Z.to_nat (i - (k + 1)))) in H2 by lia. done. }
    destruct (active c) eqn:Hc.
    + rewrite elem_of_cons, Hrest. split.
      * intros [-> | (c' & H1 & H2 & H3)].
        -- exists c. rewrite Z.sub_diag. split; [lia|]. done.
        -- exists c'. split; [lia | done].
      * intros (c' & H1 & H2 & H3). destruct (Z.eq_dec i k) as [->|Hne]; [by left|].
        right. exists c'. split; [lia | done].
    + rewrite Hrest. split.
      * intros (c' & H1 & H2 & H3). exists c'. split; [lia | done].
      * intros (c' & H1 & H2 & H3). exists c'. split; [|done].
        destruct (Z.eq_dec i k) as [->|Hne]; [|lia].
        rewrite Z.sub_diag in H2. change (Z.to_nat 0) with 0%nat in H2.
        simpl in H2. congruence.
Qed.

Lemma elem_of_live_slots st i :
  i ∈ active_indices (clients st) 0 <->
  exists ci, arr_get (clients st) i = Defined ci /\ active ci = true.
Proof.
  rewrite elem_of_active_indices. split.
  - intros (c & H1 & H2 & H3). exists c. split; [|done].
    apply arr_get_Defined. rewrite Z.sub_0_r in H2. done.
  - intros (c & [H1 H2]%arr_get_Defined & H3). exists c. by rewrite Z.sub_0_r.
Qed.

Lemma active_indices_sorted cl k : StronglySorted Z.lt (active_indices cl k).
Proof.
  revert k. induction cl as [|c cl IH]; intros k; cbn [active_indices]; [constructor|].
  destruct (active c); [|apply IH]. constructor; [apply IH|].
  apply Forall_forall. intros i (c' & Hi & _)%elem_of_active_indices. lia.
Qed.

(** X25 -- The R key, when no recording runs and the file can be opened, starts
    one on the clients that are connected at that moment: the slots it
    records are the live ones, each once, in ascending slot order.  It
    writes the header line: the word timestamp, a comma, and the names of
    five columns per recorded client, in that order, joined by commas. *)
Theorem recording_header_names_live_clients m st t :
  recording m = false -> fopen_ok t = true ->
  exists m' st' cells fname,
    toggle_recording m st t = Defined (m', st') /\
    recording m' = true /\ log_file m' = Some fname /\
    StronglySorted Z.lt (recorded_client_indices m') /\
    (forall i, i ∈ recorded_client_indices m' <->
               exists ci, arr_get (clients st) i = Defined ci /\ active ci = true) /\
    Forall2 (fun col cell => header_text st col = Defined cell)
            (columns (recorded_client_indices m')) cells /\
    trace st' = trace st ++
      [Ev_mkdir "logs"; Ev_fopen fname true;
       Ev_fprintf fname ("timestamp," +:+ String.concat "," cells +:+ NL)].
Proof.
  intros Hrec Hopen. unfold toggle_recording. rewrite Hrec, Hopen.
  destruct (row_cells_join (header_text st) (active_indices (clients st) 0))
    as (cells & Hrow & Hcells).
  { intros col [(ci & Hci & _)%elem_of_live_slots _]%elem_of_columns.
    unfold header_text. rewrite Hci. cbn [bind]. eauto. }
  rewrite (row_cells_ext _ _ _ (header_cell_of st)), Hrow. cbn [bind].
  eexists _, _, cells, _. split; [reflexivity|].
  cbn [recording log_file recorded_client_indices trace emit].
  split_and!; try done; [apply active_indices_sorted|]. intros i. apply elem_of_live_slots.
Qed.

Lemma recording_header_names_live_clients_witness :
  exists m' st' cells fname,
    toggle_recording (monitor_enter 2 (mkTimeval 100 0)) two_clients tick_toggle
      = Defined (m', st') /\
    recording m' = true /\ log_file m' = Some fname /\
    StronglySorted Z.lt (recorded_client_indices m') /\
    (forall i, i ∈ recorded_client_indices m' <->
               exists ci, arr_get (clients two_clients) i = Defined ci /\ active ci = true) /\
    Forall2 (fun col cell => header_text two_clients col = Defined cell)
            (columns (recorded_client_indices m')) cells /\
    trace st' = trace two_clients ++
      [Ev_mkdir "logs"; Ev_fopen fname true;
       Ev_fprintf fname ("timestamp," +:+ String.concat "," cells +:+ NL)].
Proof.
  apply (recording_header_names_live_clients (monitor_enter 2 (mkTimeval 100 0))
           two_clients tick_toggle); reflexivity.
Defined.

Lemma data_text_defined st col :
  wf st -> 0 <= fst col < MAX_CLIENTS -> 0 <= snd col < CHANNELS_PER_APP ->
  exists t, data_text st col = Defined t.
Proof.
  intros Hwf Hi Hc. unfold data_text, out_cache.
  destruct (arr_get_in_range (client_data st) (fst col)) as [cd Hcd].
  { rewrite (wf_client_data _ Hwf). unfold MAX_CLIENTS in *. lia. }
  rewrite Hcd. cbn [bind].
  destruct (arr_get_in_range (last_out cd) (snd col)) as [o Ho].
  { destruct (wf_cache_lengths _ _ _ Hwf Hcd) as [-> _]. unfold CHANNELS_PER_APP in *. lia. }
  rewrite Ho. cbn [bind]. eauto.
Qed.

(** The event of a row: the time stamp and the cached outputs of the
    recorded slots, joined by commas. *)
Lemma record_row_layout m st t f :
  wf st -> recording m = true -> log_file m = Some f ->
  Forall (fun idx => 0 <= idx < MAX_CLIENTS) (recorded_client_indices m) ->
  exists cells,
    Forall2 (fun col cell => data_text st col = Defined cell)
            (columns (recorded_client_indices m)) cells /\
    record_row m st t =
    Defined (emit st [Ev_fprintf f (row_timestamp m (now t) +:+ ","
                                    +:+ String.concat "," cells +:+ NL)]).
Proof.
  intros Hwf Hrec Hlog Hidx. unfold record_row. rewrite Hrec, Hlog.
  destruct (row_cells_join (data_text st) (recorded_client_indices m))
    as (cells & Hrow & Hcells).
  { intros col [Hi Hc]%elem_of_columns. apply data_text_defined; [done | | done].
    rewrite Forall_forall in Hidx. by apply Hidx. }
  rewrite (row_cells_ext _ _ _ (data_cell_of st)), Hrow. cbn [bind].
  by exists cells.
Qed.

(** X26 -- While a recording runs, every round appends one line to the log
    file: the time stamp, a comma, and five columns for every client of the
    snapshot taken when the recording started, joined by commas, each the
    quoted last output of its channel.  The columns are those of the header,
    whoever has connected or gone since. *)
Theorem recorded_row_follows_header m st t f :
  wf st -> recording m = true -> log_file m = Some f ->
  Forall (fun idx => 0 <= idx < MAX_CLIENTS) (recorded_client_indices m) ->
  exists st' cells,
    record_row m st t = Defined st' /\
    length cells = (5 * length (recorded_client_indices m))%nat /\
    Forall2 (fun col cell => data_text st col = Defined cell)
            (columns (recorded_client_indices m)) cells /\
    trace st' = trace st ++
      [Ev_fprintf f (row_timestamp m (now t) +:+ "," +:+ String.concat "," cells +:+ NL)].
Proof.
  intros Hwf Hrec Hlog Hidx.
  destruct (record_row_layout m st t f Hwf Hrec Hlog Hidx) as (cells & Hcells & Hrow).
  eexists _, cells. split; [exact Hrow|]. split; [|by split].
  rewrite <- (Forall2_length _ _ _ Hcells).
  clear. induction (recorded_client_indices m) as [|idx rest IH]; [done|].
  cbn [columns length]. rewrite length_app, length_fmap, IH. rewrite channels_list.
  cbn [length]. lia.
Qed.

Lemma recorded_row_follows_header_witness :
  exists st' cells,
    record_row recording_two one_spoke tick_toggle = Defined st' /\
    length cells = (5 * length (recorded_client_indices recording_two))%nat /\
    Forall2 (fun col cell => data_text one_spoke col = Defined cell)
            (columns (recorded_client_indices recording_two)) cells /\
    trace st' = trace one_spoke ++
      [Ev_fprintf "logs/monitor_20250101_120000.csv"
         (row_timestamp recording_two (now tick_toggle) +:+ ","
          +:+ String.concat "," cells +:+ NL)].
Proof.
  apply (recorded_row_follows_header recording_two one_spoke tick_toggle
           "logs/monitor_20250101_120000.csv").
  - apply wf_one_spoke.
  - reflexivity.
  - reflexivity.
  - repeat constructor; unfold MAX_CLIENTS; lia.
Defined.

Lemma one_line_app a b : one_line (a +:+ b) = one_line a && one_line b.
Proof. apply str_forall_app. Qed.

Lemma one_line_digits s : str_forall isdigit s = true -> one_line s = true.
Proof.
  apply str_forall_impl. intros x Hx.
  by rewrite (isdigit_differs LF x), (isdigit_differs CR x).
Qed.

Lemma one_line_replicate n c :
  differs LF c && differs CR c = true -> one_line (replicate_char n c) = true.
Proof. intros Hc. induction n as [|n IH]; [done|]. unfold one_line in *. simpl. by rewrite Hc, IH. Qed.

Lemma one_line_fmt_ld z : one_line (fmt_ld z) = true.
Proof.
  unfold fmt_ld. destruct (Z.ltb_spec z 0).
  - rewrite one_line_app, (one_line_digits (udec 19 (- z))) by (apply udec_digits; lia). done.
  - apply one_line_digits, udec_digits. lia.
Qed.

Lemma one_line_fmt_06ld z : one_line (fmt_06ld z) = true.
Proof.
  unfold fmt_06ld, pad_left. destruct (Z.ltb_spec z 0).
  - rewrite !one_line_app, one_line_replicate by done.
    rewrite (one_line_digits (udec 19 (- z))) by (apply udec_digits; lia). done.
  - rewrite !one_line_app, one_line_replicate by done.
    apply one_line_digits, udec_digits. lia.
Qed.

Lemma one_line_blank_newlines s : one_line (blank_newlines s) = true.
Proof.
  induction s as [|x s IH]; [done|]. unfold one_line in *. cbn [blank_newlines str_forall].
  rewrite IH, andb_true_r. unfold differs.
  destruct (Ascii.eqb x LF) eqn:E1; [done|]. destruct (Ascii.eqb x CR) eqn:E2; [done|].
  cbn [orb]. by rewrite E1, E2.
Qed.

Lemma one_line_quoted s : one_line s = true -> one_line (quoted s) = true.
Proof. intros H. unfold quoted. by rewrite !one_line_app, H. Qed.

Lemma one_line_concat cells :
  Forall (fun c => one_line c = true) cells -> one_line (String.concat "," cells) = true.
Proof.
  induction 1 as [|c cells Hc _ IH]; [done|].
  destruct cells as [|c' cells]; [exact Hc|].
  change (one_line (c +:+ "," +:+ String.concat "," (c' :: cells)) = true).
  by rewrite !one_line_app, Hc, IH.
Qed.

(** X27 -- A line of a recording is one line.  Line feeds and carriage returns
    in the cached outputs are written as spaces, so the only line end in
    what a round appends to the log file is the newline that closes it. *)
Theorem recorded_row_is_one_line m st t f :
  wf st -> recording m = true -> log_file m = Some f ->
  Forall (fun idx => 0 <= idx < MAX_CLIENTS) (recorded_client_indices m) ->
  exists st' body,
    record_row m st t = Defined st' /\
    trace st' = trace st ++ [Ev_fprintf f (body +:+ NL)] /\
    one_line body = true.
Proof.
  intros Hwf Hrec Hlog Hidx.
  destruct (record_row_layout m st t f Hwf Hrec Hlog Hidx) as (cells & Hcells & Hrow).
  exists (emit st [Ev_fprintf f (row_timestamp m (now t) +:+ ","
                                 +:+ String.concat "," cells +:+ NL)]),
         (row_timestamp m (now t) +:+ "," +:+ String.concat "," cells).
  split; [exact Hrow|]. split; [by rewrite !append_assoc|].
  rewrite !one_line_app. apply andb_true_intro. split.
  - apply one_line_quoted. by rewrite !one_line_app, one_line_fmt_ld, one_line_fmt_06ld.
  - apply one_line_concat. clear Hrow.
    induction Hcells as [|col cell cols cells Hcell _ IH]; constructor; [|exact IH].
    unfold data_text in Hcell. destruct (out_cache st (fst col) (snd col)); [|done].
    injection Hcell as <-. apply one_line_quoted, one_line_blank_newlines.
Qed.

Lemma recorded_row_is_one_line_witness :
  exists st' body,
    record_row recording_two one_spoke tick_toggle = Defined st' /\
    trace st' = trace one_spoke ++
      [Ev_fprintf "logs/monitor_20250101_120000.csv" (body +:+ NL)] /\
    one_line body = true.
Proof.
  apply (recorded_row_is_one_line recording_two one_spoke tick_toggle
           "logs/monitor_20250101_120000.csv").
  - apply wf_one_spoke.
  - reflexivity.
  - reflexivity.
  - repeat constructor; unfold MAX_CLIENTS; lia.
Defined.

(** ** The console *)
















Lemma atoi_range s v : atoi s = Defined v -> INT_MIN <= v <= INT_MAX.
Proof.
  unfold atoi.
  match goal with
  | |- (if (INT_MIN <=? ?x) && (?x <=? INT_MAX) then _ else _) = _ -> _ =>
      destruct (Z.leb_spec INT_MIN x), (Z.leb_spec x INT_MAX); cbn [andb];
      try discriminate; intros [= <-]; lia
  end.
Qed.

(** X13 -- The console never enters monitor mode with a rate that is zero or
    negative, whatever stands after the word monitor: the rate handed to
    monitor_mode, by which it divides to get the time it waits in select, is
    at least 1.  Entering monitor mode changes nothing in the state. *)
Theorem monitor_rate_is_positive st l fps st' :
  handle_console_input st (Some l) = Defined (Ctl_monitor fps, st') ->
  1 <= fps <= INT_MAX /\ st' = st.
Proof.
  unfold handle_console_input.
  repeat match goal with
         | |- (if ?b then _ else _) = _ -> _ => destruct b
         end;
    try (intros [= ? ?]; discriminate);
    try (intros H; inv_bind H; discriminate H).
  intros H. inv_bind H. injection H as <- <-. split; [|done].
  revert E. unfold monitor_fps.
  destruct (strtok (trim_newline l)) as [t0 s1], (strtok s1) as [[arg|] s2].
  - destruct (atoi arg) as [v|] eqn:Ev; [|discriminate]. cbn [bind]. intros [= <-].
    apply atoi_range in Ev. unfold DEFAULT_MONITOR_FPS, INT_MAX in *.
    destruct (Z.ltb_spec 0 v); lia.
  - intros [= <-]. by vm_compute.
Qed.

Lemma monitor_rate_is_positive_witness :
  1 <= 10 <= INT_MAX /\ two_clients = two_clients.
Proof.
  apply (monitor_rate_is_positive two_clients ("monitor 10 now" +:+ NL) 10 two_clients).
  vm_compute. reflexivity.
Defined.

(** X14 -- The command [monitor N] enters monitor mode at N rounds a second
    when N is positive and at the default rate when it is not; the bare
    command takes the default rate as well. *)
Theorem monitor_command_sets_rate st n :
  INT_MIN <= n <= INT_MAX ->
  handle_console_input st (Some ("monitor " +:+ fmt_d n +:+ NL))
  = Defined (Ctl_monitor (if 0 <? n then n else DEFAULT_MONITOR_FPS), st) /\
  handle_console_input st (Some ("monitor" +:+ NL))
  = Defined (Ctl_monitor DEFAULT_MONITOR_FPS, st).
Proof.
  intros Hn. split; [|reflexivity].
  destruct (is_token_parts _ (is_token_fmt_d n)) as (_ & _ & Hnul & Hlf & Hcr).
  unfold handle_console_input.
  replace ("monitor " +:+ fmt_d n +:+ NL) with (("monitor " +:+ fmt_d n) +:+ NL)
    by (by rewrite append_assoc).
  rewrite trim_newline_line by (simpl; done).
  assert (strcmp_eq ("monitor " +:+ fmt_d n) "" = false) as -> by reflexivity.
  assert (strcmp_eq ("monitor " +:+ fmt_d n) "help" = false) as -> by reflexivity.
  assert (strcmp_eq ("monitor " +:+ fmt_d n) "list" = false) as -> by reflexivity.
  assert (strcmp_eq ("monitor " +:+ fmt_d n) "routes" = false) as -> by reflexivity.
  assert (strcmp_eq ("monitor " +:+ fmt_d n) "exit" = false) as -> by reflexivity.
  assert (strncmp_eq ("monitor " +:+ fmt_d n) "monitor" 7 = true) as -> by reflexivity.
  unfold monitor_fps.
  change ("monitor " +:+ fmt_d n) with ("monitor" +:+ String SP (fmt_d n)).
  rewrite (strtok_token "monitor") by reflexivity.
  rewrite strtok_last by apply is_token_fmt_d.
  by rewrite atoi_fmt_d.
Qed.

Lemma monitor_command_sets_rate_witness :
  handle_console_input two_clients (Some ("monitor " +:+ fmt_d 25 +:+ NL))
  = Defined (Ctl_monitor (if 0 <? 25 then 25 else DEFAULT_MONITOR_FPS), two_clients) /\
  handle_console_input two_clients (Some ("monitor" +:+ NL))
  = Defined (Ctl_monitor DEFAULT_MONITOR_FPS, two_clients).
Proof.
  apply (monitor_command_sets_rate two_clients 25). unfold INT_MIN, INT_MAX. lia.
Defined.

(** ** Channel arguments *)

Lemma one_digit c :
  0 <= c <= 9 ->
  c = 0 \/ c = 1 \/ c = 2 \/ c = 3 \/ c = 4 \/ c = 5 \/ c = 6 \/ c = 7 \/ c = 8 \/ c = 9.
Proof. lia. Qed.

Lemma out_word c w :
  0 <= c <= 9 -> word_tail w = true ->
  is_token ("out" +:+ fmt_d c +:+ w) = true /\
  strcmp_eq ("out" +:+ fmt_d c +:+ w) "all" = false /\
  console_channel "out" ("out" +:+ fmt_d c +:+ w) = Defined c /\
  file_channel "out" ("out" +:+ fmt_d c +:+ w) = Defined (Some c).
Proof.
  intros Hc Hw.
  destruct (one_digit c Hc) as [->|[->|[->|[->|[->|[->|[->|[->|[->| ->]]]]]]]]];
    (split; [exact Hw | repeat split]).
Qed.

Lemma in_word c w :
  0 <= c <= 9 -> word_tail w = true ->
  is_token ("in" +:+ fmt_d c +:+ w) = true /\
  strcmp_eq ("in" +:+ fmt_d c +:+ w) "all" = false /\
  console_channel "in" ("in" +:+ fmt_d c +:+ w) = Defined c /\
  file_channel "in" ("in" +:+ fmt_d c +:+ w) = Defined (Some c).
Proof.
  intros Hc Hw.
  destruct (one_digit c Hc) as [->|[->|[->|[->|[->|[->|[->|[->|[->| ->]]]]]]]]];
    (split; [exact Hw | repeat split]).
Qed.

Lemma digit_word prefix c :
  0 <= c <= 9 ->
  strcmp_eq (fmt_d c) "all" = false /\
  console_channel prefix (fmt_d c) = Defined c /\
  file_channel prefix (fmt_d c) = Defined (Some c).
Proof.
  intros Hc.
  destruct (one_digit c Hc) as [->|[->|[->|[->|[->|[->|[->|[->|[->| ->]]]]]]]]];
    repeat split.
Qed.

(** X15 -- A channel argument of a route line can be written as the digit or
    as the word outN (inN for the destination), on the console and in the
    startup file alike.  Of such a word only the one digit after the prefix
    is read; what follows it in the word is ignored. *)
Theorem channel_word_reads_as_digit st ld pA pB c d w1 w2 :
  is_token pA = true -> is_token pB = true -> 0 <= c <= 9 -> 0 <= d <= 9 ->
  word_tail w1 = true -> word_tail w2 = true ->
  handle_console_input st
    (Some (route_line pA ("out" +:+ fmt_d c +:+ w1) pB ("in" +:+ fmt_d d +:+ w2)))
  = handle_console_input st (Some (route_line pA (fmt_d c) pB (fmt_d d))) /\
  process_routing_line ld
    (route_line pA ("out" +:+ fmt_d c +:+ w1) pB ("in" +:+ fmt_d d +:+ w2))
  = process_routing_line ld (route_line pA (fmt_d c) pB (fmt_d d)).
Proof.
  intros HA HB Hc Hd Hw1 Hw2.
  destruct (out_word c w1 Hc Hw1) as (T1 & A1 & C1 & F1).
  destruct (in_word d w2 Hd Hw2) as (T2 & A2 & C2 & F2).
  destruct (digit_word "out" c Hc) as (A3 & C3 & F3).
  destruct (digit_word "in" d Hd) as (A4 & C4 & F4).
  rewrite !console_route_line, !loader_route_line by (done || apply is_token_fmt_d).
  unfold console_route_args, loader_route_args.
  by rewrite A1, A2, A3, A4, C1, C2, C3, C4, F1, F2, F3, F4.
Qed.

Lemma channel_word_reads_as_digit_witness :
  handle_console_input two_clients
    (Some (route_line "1" ("out" +:+ fmt_d 1 +:+ "2") "2" ("in" +:+ fmt_d 3 +:+ "put")))
  = handle_console_input two_clients (Some (route_line "1" (fmt_d 1) "2" (fmt_d 3))) /\
  process_routing_line (mkLoader init_server true 0)
    (route_line "1" ("out" +:+ fmt_d 1 +:+ "2") "2" ("in" +:+ fmt_d 3 +:+ "put"))
  = process_routing_line (mkLoader init_server true 0)
      (route_line "1" (fmt_d 1) "2" (fmt_d 3)).
Proof.
  apply (channel_word_reads_as_digit two_clients (mkLoader init_server true 0)
           "1" "2" 1 3 "2" "put"); (reflexivity || lia).
Defined.

Lemma number_word prefix c :
  0 <= c <= INT_MAX ->
  strcmp_eq (fmt_d c) "all" = false /\
  console_channel prefix (fmt_d c) = Defined c /\
  file_channel prefix (fmt_d c) = Defined (Some c).
Proof.
  intros Hc.
  assert (Ha : atoi (fmt_d c) = Defined c) by (apply atoi_fmt_d; unfold INT_MIN; lia).
  pose proof (fmt_d_digits c ltac:(lia)) as Hd.
  assert (Hne : fmt_d c <> "").
  { unfold fmt_d. destruct (Z.ltb_spec c 0); [lia | apply udec_nonempty]. }
  unfold console_channel, file_channel, strcmp_eq. rewrite Ha.
  destruct (fmt_d c) as [|x s]; [done|]. cbn [str_forall] in Hd.
  apply andb_prop in Hd as [Hx _]. cbn [char_at String.get]. rewrite Hx.
  split; [|done]. change (cstr "all") with "all". cbn [cstr].
  assert (Ascii.eqb x NUL = false) as -> by (apply Ascii.eqb_neq; intros ->; discriminate).
  cbn [String.eqb].
  assert (Ascii.eqb x "a" = false) as -> by (apply Ascii.eqb_neq; intros ->; discriminate).
  done.
Qed.

(** X16 -- A route line whose channel number is 5 or more is refused, on the
    console and in the startup file: the line prints its complaint, about
    the output channel first, and changes no table.  In the file it also
    counts as a failed command. *)
Theorem channel_out_of_range_is_refused st ld A B c d :
  INT_MIN <= A <= INT_MAX -> INT_MIN <= B <= INT_MAX ->
  0 <= c <= INT_MAX -> 0 <= d <= INT_MAX ->
  CHANNELS_PER_APP <= c \/ CHANNELS_PER_APP <= d ->
  handle_console_input st (Some (route_line (fmt_d A) (fmt_d c) (fmt_d B) (fmt_d d)))
  = Defined (Ctl_continue,
             emit st [Ev_printf ((if CHANNELS_PER_APP <=? c
                                  then "Invalid output channel. Must be 0..4 or 'all'"
                                  else "Invalid input channel. Must be 0..4 or 'all'")
                                 +:+ NL)]) /\
  process_routing_line ld (route_line (fmt_d A) (fmt_d c) (fmt_d B) (fmt_d d))
  = Defined (loader_fail ld (cmd_count ld + 1)
               (if CHANNELS_PER_APP <=? c
                then "Invalid output channel value in routing file. Must be 0..4 or 'all'"
                else "Invalid input channel value in routing file. Must be 0..4 or 'all'")).
Proof.
  intros HA HB Hc Hd Hbad.
  destruct (number_word "out" c Hc) as (A1 & C1 & F1).
  destruct (number_word "in" d Hd) as (A2 & C2 & F2).
  rewrite console_route_line, loader_route_line by apply is_token_fmt_d.
  unfold console_route_args, loader_route_args.
  rewrite !atoi_fmt_d, A1, A2, C1, C2, F1, F2 by done. cbn [bind].
  unfold channel_out_of_range. cbn [negb andb].
  destruct (Z.ltb_spec c 0); [lia|]. destruct (Z.ltb_spec d 0); [lia|]. cbn [orb].
  destruct (Z.leb_spec CHANNELS_PER_APP c); [done|].
  destruct (Z.leb_spec CHANNELS_PER_APP d); [done | lia].
Qed.

Lemma channel_out_of_range_is_refused_witness :
  handle_console_input two_clients (Some (route_line (fmt_d 1) (fmt_d 3) (fmt_d 2) (fmt_d 5)))
  = Defined (Ctl_continue,
             emit two_clients
               [Ev_printf ((if CHANNELS_PER_APP <=? 3
                            then "Invalid output channel. Must be 0..4 or 'all'"
                            else "Invalid input channel. Must be 0..4 or 'all'")
                           +:+ NL)]) /\
  process_routing_line (mkLoader init_server true 0)
    (route_line (fmt_d 1) (fmt_d 3) (fmt_d 2) (fmt_d 5))
  = Defined (loader_fail (mkLoader init_server true 0)
               (cmd_count (mkLoader init_server true 0) + 1)
               (if CHANNELS_PER_APP <=? 3
                then "Invalid output channel value in routing file. Must be 0..4 or 'all'"
                else "Invalid input channel value in routing file. Must be 0..4 or 'all'")).
Proof.
  apply (channel_out_of_range_is_refused two_clients (mkLoader init_server true 0) 1 2 3 5);
    unfold INT_MIN, INT_MAX, CHANNELS_PER_APP; lia.
Defined.

(** ** The listing of routes *)

Lemma emit_emit st a b : emit (emit st a) b = emit st (a ++ b).
Proof. unfold emit. cbn. by rewrite app_assoc. Qed.

Lemma seqZ_sorted m n : StronglySorted Z.lt (seqZ m n).
Proof.
  destruct (Z.le_gt_cases n 0) as [Hn|Hn]; [rewrite seqZ_nil by done; constructor|].
  rewrite <- (Z2Nat.id n) by lia. generalize (Z.to_nat n) as len. clear. intros len.
  revert m. induction len as [|len IH]; intros m; [constructor|].
  rewrite seqZ_cons by lia. replace (Z.pred (Z.of_nat (S len))) with (Z.of_nat len) by lia.
  constructor; [apply IH|]. apply Forall_forall. intros x Hx%elem_of_seqZ. lia.
Qed.

Lemma list_routes_of_entries st cid l t0 :
  (forall c, c ∈ l -> exists r, route_at st cid c = Defined r) ->
  StronglySorted Z.lt l ->
  exists rows,
    foldl (fun acc ch =>
             let* evs := acc in
             let* r := route_at st cid ch in
             if 0 <=? in_client_id r then
               Defined (evs ++ [Ev_printf (route_text cid ch r)])
             else Defined evs)
          (Defined (Ev_printf <$> t0)) l
    = Defined (Ev_printf <$> (t0 ++ (entry_text <$> rows))) /\
    StronglySorted route_before rows /\
    forall a c r, (a, c, r) ∈ rows <->
                  a = cid /\ c ∈ l /\ route_at st cid c = Defined r /\ 0 <= in_client_id r.
Proof.
  revert t0. induction l as [|c l IH]; intros t0 Hdef Hsort.
  - exists []. rewrite app_nil_r. split; [done|]. split; [constructor|]. intros a c r. split.
    + by intros ?%elem_of_nil.
    + by intros (_ & ?%elem_of_nil & _).
  - rewrite (foldl_bind_cons
               (fun evs ch =>
                  let* r := route_at st cid ch in
                  if 0 <=? in_client_id r then
                    Defined (evs ++ [Ev_printf (route_text cid ch r)])
                  else Defined evs)).
    destruct (Hdef c (list_elem_of_here _ _)) as [r Hr]. rewrite Hr. cbn [bind].
    assert (Hdef' : forall c', c' ∈ l -> exists r', route_at st cid c' = Defined r').
    { intros c' Hc'. apply Hdef. by apply list_elem_of_further. }
    apply StronglySorted_cons in Hsort as [Hlt Hsort]. rewrite Forall_forall in Hlt.
    destruct (Z.leb_spec 0 (in_client_id r)) as [Hin|Hin].
    + destruct (IH (t0 ++ [route_text cid c r]) Hdef' Hsort) as (rows & Hfold & Hord & Hspec).
      exists ((cid, c, r) :: rows). split; [|split].
      * rewrite fmap_app in Hfold.
        change (Ev_printf <$> [route_text cid c r]) with [Ev_printf (route_text cid c r)] in Hfold.
        cbn [bind]. rewrite Hfold. by rewrite <- app_assoc.
      * constructor; [done|]. apply Forall_forall. intros [[a' c'] r'] (-> & Hc' & _)%Hspec.
        right. cbn [fst snd]. split; [done | by apply Hlt].
      * intros a c' r'. rewrite elem_of_cons, Hspec. split.
        -- intros [[= -> -> ->] | (-> & Hc' & H')].
           ++ split; [done|]. split; [apply list_elem_of_here | done].
           ++ split; [done|]. split; [by apply list_elem_of_further | done].
        -- intros (-> & [-> | Hc']%elem_of_cons & Hr' & Hin').
           ++ left. congruence.
           ++ right. done.
    + destruct (IH t0 Hdef' Hsort) as (rows & Hfold & Hord & Hspec).
      exists rows. split; [exact Hfold|]. split; [done|].
      intros a c' r'. rewrite Hspec. split.
      * intros (-> & Hc' & H'). split; [done|]. split; [by apply list_elem_of_further | done].
      * intros (-> & [-> | Hc']%elem_of_cons & Hr' & Hin').
        -- rewrite Hr in Hr'. injection Hr' as <-. lia.
        -- done.
Qed.

Lemma list_routes_entries st l t0 :
  wf st -> (forall cid, cid ∈ l -> live st cid -> 0 <= cid <= MAX_CLIENTS) ->
  StronglySorted Z.lt l ->
  exists entries,
    foldl (fun acc cid =>
             let* s := acc in
             if find_client_index s cid <? 0 then Defined s
             else let* evs := list_routes_of s cid in Defined (emit s evs))
          (Defined (emit st (Ev_printf <$> t0))) l
    = Defined (emit st (Ev_printf <$> (t0 ++ (entry_text <$> entries)))) /\
    StronglySorted route_before entries /\
    forall a c r, (a, c, r) ∈ entries <->
                  a ∈ l /\ live st a /\ route_at st a c = Defined r /\ 0 <= in_client_id r.
Proof.
  intros Hwf. revert t0. induction l as [|a l IH]; intros t0 Hl Hsort.
  - exists []. rewrite app_nil_r. split; [done|]. split; [constructor|]. intros a c r. split.
    + by intros ?%elem_of_nil.
    + by intros (?%elem_of_nil & _).
  - rewrite (foldl_bind_cons
               (fun s cid =>
                  if find_client_index s cid <? 0 then Defined s
                  else let* evs := list_routes_of s cid in Defined (emit s evs))).
    assert (Hl' : forall cid, cid ∈ l -> live st cid -> 0 <= cid <= MAX_CLIENTS).
    { intros cid Hcid. apply Hl. by apply list_elem_of_further. }
    apply StronglySorted_cons in Hsort as [Hlt Hsort]. rewrite Forall_forall in Hlt.
    change (find_client_index (emit st (Ev_printf <$> t0)) a) with (find_client_index st a).
    destruct (Z.ltb_spec (find_client_index st a) 0) as [Hdead|Hlive].
    + cbn [bind]. destruct (IH t0 Hl' Hsort) as (entries & Hfold & Hord & Hspec).
      exists entries. split; [exact Hfold|]. split; [done|].
      intros a' c r. rewrite Hspec. split.
      * intros (Ha' & H'). split; [by apply list_elem_of_further | done].
      * intros ([-> | Ha']%elem_of_cons & Hlv & H').
        -- apply find_client_index_live in Hlv. lia.
        -- done.
    + apply find_client_index_live in Hlive.
      pose proof (Hl a (list_elem_of_here _ _) Hlive) as Hrange.
      destruct (list_routes_of_entries st a (seqZ 0 CHANNELS_PER_APP) [])
        as (rows & Hrows & Hrord & Hrspec).
      { intros c Hc%elem_of_channels. by apply route_at_defined. }
      { apply seqZ_sorted. }
      assert (Hlr : list_routes_of st a = Defined (Ev_printf <$> (entry_text <$> rows)))
        by exact Hrows.
      change (list_routes_of (emit st (Ev_printf <$> t0)) a) with (list_routes_of st a).
      rewrite Hlr. cbn [bind]. rewrite emit_emit, <- fmap_app.
      destruct (IH (t0 ++ (entry_text <$> rows)) Hl' Hsort) as (entries & Hfold & Hord & Hspec).
      exists (rows ++ entries).
      split; [by rewrite Hfold, (fmap_app entry_text rows entries), app_assoc|]. split.
      * apply StronglySorted_app_2; [|done|done].
        intros [[a1 c1] r1] [[a2 c2] r2] (-> & _)%Hrspec (Ha2 & _)%Hspec.
        left. cbn [fst snd]. by apply Hlt.
      * intros a' c r. rewrite elem_of_app, Hrspec, Hspec. split.
        -- intros [(-> & Hc & Hr & Hin) | (Ha' & H')].
           ++ split; [apply list_elem_of_here | done].
           ++ split; [by apply list_elem_of_further | done].
        -- intros ([-> | Ha']%elem_of_cons & Hlv & Hr & Hin).
           ++ left. split; [done|]. split; [|done]. apply elem_of_channels.
              by destruct (route_at_range _ _ _ _ Hwf Hr).
           ++ right. done.
Qed.

(** X17 -- The routes command prints the heading and then one line for every
    entry of the routing table that has a destination and whose source is
    connected: each such entry once, in the order of the table, by source
    identifier and then by channel, and no other line.  A route whose
    destination has gone is still listed; a route configured for a source
    that is not connected is not shown. *)
Theorem routes_lists_entries_of_live_sources st :
  inv st -> (forall cid, live st cid -> cid <= MAX_CLIENTS) ->
  exists entries,
    list_routes st
    = Defined (emit st (Ev_printf <$> ("Routes:" +:+ NL) :: (entry_text <$> entries))) /\
    StronglySorted route_before entries /\
    forall a c r, (a, c, r) ∈ entries <->
                  live st a /\ route_at st a c = Defined r /\ 0 <= in_client_id r.
Proof.
  intros Hinv Hmax.
  assert (Hid : forall a, live st a -> 1 <= a < next_client_id st).
  { intros a (i & ci & Hi & Hact & <-). split.
    - by apply (live_id_positive st i ci (inv_ids _ Hinv)).
    - pose proof (ids_below _ (inv_ids _ Hinv)) as HF. rewrite Forall_lookup in HF.
      apply arr_get_Defined in Hi as [_ Hi]. exact (HF _ _ Hi). }
  destruct (list_routes_entries st (seqZ 1 (next_client_id st - 1)) ["Routes:" +:+ NL]
              (inv_wf _ Hinv)) as (entries & Hfold & Hord & Hspec).
  { intros cid _ Hlv. specialize (Hid _ Hlv). specialize (Hmax _ Hlv). lia. }
  { apply seqZ_sorted. }
  exists entries. split; [|split; [done|]].
  - unfold list_routes. exact Hfold.
  - intros a c r. rewrite Hspec. split.
    + by intros (_ & H).
    + intros (Hlv & H). split; [|done].
      apply elem_of_seqZ. specialize (Hid _ Hlv). lia.
Qed.

Lemma live_below_next st cid : inv st -> live st cid -> 1 <= cid < next_client_id st.
Proof.
  intros Hinv (i & ci & Hi & Hact & <-). split.
  - by apply (live_id_positive st i ci (inv_ids _ Hinv)).
  - pose proof (ids_below _ (inv_ids _ Hinv)) as HF. rewrite Forall_lookup in HF.
    apply arr_get_Defined in Hi as [_ Hi]. exact (HF _ _ Hi).
Qed.

Lemma routes_lists_entries_of_live_sources_witness :
  exists entries,
    list_routes two_clients_routed
    = Defined (emit two_clients_routed
                 (Ev_printf <$> ("Routes:" +:+ NL) :: (entry_text <$> entries))) /\
    StronglySorted route_before entries /\
    forall a c r, (a, c, r) ∈ entries <->
                  live two_clients_routed a /\ route_at two_clients_routed a c = Defined r /\
                  0 <= in_client_id r.
Proof.
  apply (routes_lists_entries_of_live_sources two_clients_routed).
  - apply reachable_inv, reachable_two_clients_routed.
  - intros cid Hlv.
    pose proof (live_below_next _ _ (reachable_inv _ reachable_two_clients_routed) Hlv) as H.
    change (next_client_id two_clients_routed) with 3 in H. unfold MAX_CLIENTS. lia.
Defined.

(** ** The table of the print command *)








(** ** trim_newline *)

Lemma strchr_none_cstr s c :
  strchr s c = None -> str_forall (differs c) (cstr s) = true.
Proof.
  induction s as [|x s IH]; [done|]. cbn [strchr cstr].
  destruct (Ascii.eqb x c) eqn:E1; [done|].
  destruct (Ascii.eqb x NUL); [done|].
  destruct (strchr s c); [done|]. intros _. cbn [str_forall].
  unfold differs at 1. rewrite E1. by apply IH.
Qed.

Lemma cstr_clean_strchr s c :
  Ascii.eqb NUL c = false -> str_forall (differs c) (cstr s) = true -> strchr s c = None.
Proof.
  intros Hc. induction s as [|x s IH]; [done|]. cbn [strchr cstr].
  destruct (Ascii.eqb x NUL) eqn:E2.
  - apply Ascii.eqb_eq in E2 as ->. by rewrite Hc.
  - cbn [str_forall]. unfold differs at 1. intros [H1 H2]%andb_prop.
    apply negb_true_iff in H1. rewrite H1, IH by done. done.
Qed.

Lemma strchr_take_none s c k : strchr s c = None -> strchr (take k s) c = None.
Proof.
  revert k. induction s as [|x s IH]; intros [|k]; try done. cbn [strchr take].
  destruct (Ascii.eqb x c); [done|]. destruct (Ascii.eqb x NUL); [done|].
  destruct (strchr s c) eqn:E; [done|]. intros _. by rewrite IH.
Qed.

Lemma strchr_cut_at s c : strchr (cut_at c s) c = None.
Proof.
  unfold cut_at. destruct (strchr s c) as [k|] eqn:E; [|done].
  by apply strchr_absent, strchr_take_absent.
Qed.

Lemma strchr_cut_at_other s c c' : strchr s c = None -> strchr (cut_at c' s) c = None.
Proof.
  intros H. unfold cut_at. destruct (strchr s c'); [by apply strchr_take_none | done].
Qed.

Lemma cut_at_none s c : strchr s c = None -> cut_at c s = s.
Proof. intros H. unfold cut_at. by rewrite H. Qed.

(** X19 -- The function trim_newline leaves a C string with no line feed and
    no carriage return in it; trimming twice is trimming once; and the
    strings it leaves as they are, are those whose C string has no line
    end. *)
Theorem trim_newline_removes_line_end s :
  one_line (cstr (trim_newline s)) = true /\
  trim_newline (trim_newline s) = trim_newline s /\
  (trim_newline s = s <-> one_line (cstr s) = true).
Proof.
  assert (Hlf : strchr (trim_newline s) LF = None).
  { unfold trim_newline. apply strchr_cut_at_other, strchr_cut_at. }
  assert (Hcr : strchr (trim_newline s) CR = None).
  { unfold trim_newline. apply strchr_cut_at. }
  assert (H1 : one_line (cstr (trim_newline s)) = true).
  { unfold one_line. rewrite str_forall_and.
    by rewrite (strchr_none_cstr _ _ Hlf), (strchr_none_cstr _ _ Hcr). }
  split; [exact H1|]. split.
  - unfold trim_newline at 1. by rewrite (cut_at_none _ LF Hlf), (cut_at_none _ CR Hcr).
  - split.
    + intros <-. exact H1.
    + unfold one_line. rewrite str_forall_and. intros [H2 H3]%andb_prop.
      unfold trim_newline.
      rewrite (cut_at_none s LF) by (by apply cstr_clean_strchr).
      apply cut_at_none. by apply cstr_clean_strchr.
Qed.

(** ** main *)

(** X1 -- The port.  For an argument that is the decimal text of a number
    the server listens on that number modulo 65536, and on 12345 when that
    is zero; the port is never outside 1..65535. *)
Theorem server_port_wraps n :
  INT_MIN <= n <= INT_MAX ->
  exists p,
    server_port (Some (fmt_d n)) = Defined p /\ 1 <= p <= 65535 /\
    p = (if n mod 65536 =? 0 then SERVER_PORT else n mod 65536).
Proof.
  intros Hn. unfold server_port. rewrite atoi_fmt_d by done. cbn [bind].
  pose proof (Z.mod_pos_bound n 65536 ltac:(lia)) as Hm.
  eexists. split; [reflexivity|].
  destruct (Z.ltb_spec 0 (n mod 65536)), (Z.eqb_spec (n mod 65536) 0);
    unfold SERVER_PORT; lia.
Qed.

Lemma server_port_wraps_witness :
  exists p,
    server_port (Some (fmt_d 65536)) = Defined p /\ 1 <= p <= 65535 /\
    p = (if 65536 mod 65536 =? 0 then SERVER_PORT else 65536 mod 65536).
Proof. apply (server_port_wraps 65536). unfold INT_MIN, INT_MAX. lia. Defined.

Lemma length_fgets_bytes n s : (String.length (fgets_bytes n s) <= n)%nat.
Proof.
  revert s. induction n as [|n IH]; intros [|c s]; simpl; try lia.
  destruct (Ascii.eqb c LF); simpl; [lia|]. specialize (IH s). lia.
Qed.

Lemma length_cstr_le s : (String.length (cstr s) <= String.length s)%nat.
Proof.
  induction s as [|c s IH]; simpl; [lia|]. destruct (Ascii.eqb c NUL); simpl; lia.
Qed.

(** X22 -- The exit command stops the server only when tmux names its
    session.  Then the command handed to system is the kill command with
    the first line that tmux printed, at most 63 bytes, never cut short by
    the buffer of 128, and the process exits with status 0 whatever system
    returns.  When tmux prints nothing the function closes the pipe,
    complains on stderr and returns, and when popen fails it reports that
    and returns: in both cases system is not called, nothing is killed and
    the server goes on. *)
Theorem shutdown_kills_the_named_session out system_ret :
  out <> "" ->
  exists name,
    name = cstr (trim_newline (fgets_bytes 63 out)) /\
    (String.length name <= 63)%nat /\
    shutdown_tmux (Some out) system_ret =
    ([Tm_popen "tmux display-message -p '#S'"; Tm_pclose;
      Tm_printf ("Executing: tmux kill-session -t " +:+ name +:+ NL);
      Tm_system ("tmux kill-session -t " +:+ name)]
     ++ (if system_ret =? 0 then []
         else [Tm_stderr ("tmux kill-session command failed with code "
                          +:+ fmt_d system_ret +:+ "." +:+ NL)])
     ++ [Tm_exit 0], true) /\
    shutdown_tmux (Some "") system_ret =
    ([Tm_popen "tmux display-message -p '#S'"; Tm_pclose;
      Tm_stderr ("Failed to get tmux session name." +:+ NL)], false) /\
    shutdown_tmux None system_ret =
    ([Tm_popen "tmux display-message -p '#S'"; Tm_perror "popen"], false).
Proof.
  intros Hout. eexists. split; [reflexivity|].
  assert (Hlen : (String.length (cstr (trim_newline (fgets_bytes 63 out))) <= 63)%nat).
  { pose proof (length_cstr_le (trim_newline (fgets_bytes 63 out))).
    pose proof (length_cut_at_le CR (cut_at LF (fgets_bytes 63 out))).
    pose proof (length_cut_at_le LF (fgets_bytes 63 out)).
    pose proof (length_fgets_bytes 63 out). unfold trim_newline in *. lia. }
  split; [exact Hlen|]. split; [|done].
  unfold shutdown_tmux, fgets. destruct out as [|c out]; [done|].
  change (Nat.pred 64) with 63%nat.
  assert (Hfit : snprintf 128 ("tmux kill-session -t "
                               +:+ cstr (trim_newline (fgets_bytes 63 (String c out))))
                 = "tmux kill-session -t "
                   +:+ cstr (trim_newline (fgets_bytes 63 (String c out)))).
  { unfold snprintf. apply take_all. rewrite length_append.
    change (String.length "tmux kill-session -t ") with 21%nat.
    change (Nat.pred 128) with 127%nat. lia. }
  cbv zeta. rewrite Hfit. by rewrite !append_assoc.
Qed.

Lemma shutdown_kills_the_named_session_witness :
  exists name,
    name = cstr (trim_newline (fgets_bytes 63 ("aalto" +:+ NL))) /\
    (String.length name <= 63)%nat /\
    shutdown_tmux (Some ("aalto" +:+ NL)) 1 =
    ([Tm_popen "tmux display-message -p '#S'"; Tm_pclose;
      Tm_printf ("Executing: tmux kill-session -t " +:+ name +:+ NL);
      Tm_system ("tmux kill-session -t " +:+ name)]
     ++ (if 1 =? 0 then []
         else [Tm_stderr ("tmux kill-session command failed with code "
                          +:+ fmt_d 1 +:+ "." +:+ NL)])
     ++ [Tm_exit 0], true) /\
    shutdown_tmux (Some "") 1 =
    ([Tm_popen "tmux display-message -p '#S'"; Tm_pclose;
      Tm_stderr ("Failed to get tmux session name." +:+ NL)], false) /\
    shutdown_tmux None 1 =
    ([Tm_popen "tmux display-message -p '#S'"; Tm_perror "popen"], false).
Proof. apply (shutdown_kills_the_named_session ("aalto" +:+ NL) 1). discriminate. Defined.

Lemma main_round_preserves st rd e steps st' :
  main_round st rd = Defined (e, steps, st') -> preserves st st'.
Proof.
  unfold main_round. destruct (rd_select rd <? 0); [intros [= _ _ <-]; apply preserves_emit|].
  intros H. inv_bind H.
  assert (H1 : preserves st a).
  { destruct (rd_accept rd); [by eapply handle_new_connection_preserves|].
    injection E as <-. apply preserves_refl. }
  inv_bind H. apply poll_clients_preserves in E0.
  apply (preserves_trans _ a); [done|]. apply (preserves_trans _ a0); [done|].
  destruct (rd_console rd) as [line|]; [|injection H as _ _ <-; apply preserves_refl].
  inv_bind H. destruct a1 as [ctl s1]. cbn [fst snd] in H.
  apply handle_console_input_quiet, quiet_preserves in E1.
  destruct ctl.
  - by injection H as _ _ <-.
  - inv_bind H. injection H as _ _ <-. apply monitor_mode_preserves in E2.
    by eapply preserves_trans.
  - by injection H as _ _ <-.
Qed.

Lemma main_loop_preserves st rounds e steps st' :
  main_loop st rounds = Defined (e, steps, st') -> preserves st st'.
Proof.
  revert st e steps st'. induction rounds as [|rd rest IH]; intros st e steps st';
    cbn [main_loop].
  - intros [= _ _ <-]. apply preserves_refl.
  - intros H. inv_bind H. destruct a as [[e1 steps1] s1]. cbn [fst snd] in H.
    apply main_round_preserves in E.
    destruct e1; try (by injection H as _ _ <-).
    inv_bind H. destruct a as [[e2 steps2] s2]. cbn [fst snd] in H.
    injection H as _ _ <-. apply IH in E0. by eapply preserves_trans.
Qed.

(** X2 -- The program keeps its tables in shape.  However it ends and whatever
    the rounds of its loop find, as long as no handler has left defined
    behaviour, the state is the invariant's: the tables have their declared
    sizes, live identifiers are positive, below the counter and pairwise
    distinct, and every route with a destination names a channel 0..4. *)
Theorem main_keeps_invariant arg ls file again rounds e steps st :
  main arg ls file again rounds = Defined (e, steps, st) -> inv st.
Proof.
  unfold main. intros H. inv_bind H.
  destruct (socket_ret ls <? 0);
    [injection H as _ _ <-; apply preserves_emit, inv_init_server|].
  destruct (bind_ret ls <? 0);
    [injection H as _ _ <-; apply preserves_emit, inv_init_server|].
  destruct (listen_ret ls <? 0);
    [injection H as _ _ <-; apply preserves_emit, inv_init_server|].
  inv_bind H. apply process_routing_file_quiet, quiet_preserves in E0.
  inv_bind H. destruct a1 as [[e1 steps1] s1]. cbn [fst snd] in H.
  apply main_loop_preserves in E1.
  assert (Hs1 : inv s1).
  { apply E1, E0, preserves_emit, inv_init_server. }
  destruct e1; injection H as _ _ <-; try done. by apply preserves_emit.
Qed.

Lemma main_keeps_invariant_witness : inv sample_main.
Proof.
  apply (main_keeps_invariant (Some "8080") (mkListener 3 0 0)
           (Some [route_line "1" "0" "2" "0"]) (Some [route_line "1" "0" "2" "0"])
           sample_rounds Still_running [] sample_main).
  vm_compute. reflexivity.
Defined.

Lemma monitor_mode_accepts_nobody_witness :
  next_client_id monitored = next_client_id two_clients /\
  routing monitored = routing two_clients /\
  length (clients monitored) = length (clients two_clients) /\
  forall i ci', arr_get (clients monitored) i = Defined ci' -> active ci' = true ->
                arr_get (clients two_clients) i = Defined ci'.
Proof.
  apply (monitor_mode_accepts_nobody two_clients 2 (mkTimeval 100 0)
           [tick_toggle; tick_leave; tick_quit] monitored).
  vm_compute. reflexivity.
Defined.

Lemma monitor_mode_closes_its_logs_witness :
  exists evs, trace monitored = trace two_clients ++ evs /\
              log_protocol None evs = Some None.
Proof.
  apply (monitor_mode_closes_its_logs two_clients 2 (mkTimeval 100 0)
           [tick_toggle; tick_leave; tick_quit] monitored).
  vm_compute. reflexivity.
Defined.

(** ** The startup file *)






Lemma process_routing_line_flags ld raw ld' :
  process_routing_line ld raw = Defined ld' ->
  (all_success ld = false -> all_success ld' = false) /\
  (all_success ld = true -> all_success ld' = false ->
   exists msg, ld' = loader_fail ld (cmd_count ld + 1) msg).
Proof.
  unfold process_routing_line.
  destruct (_ || _); [intros [= <-]; split; [done | congruence]|].
  destruct (strtok (trim_newline raw)) as [t0 s1].
  destruct t0 as [tok|]; [|intros [= <-]; split; [done | eauto]].
  destruct (negb (strcmp_eq tok "route")); [intros [= <-]; split; [done | eauto]|].
  destruct (strtok s1) as [p1 s2], (strtok s2) as [p2 s3],
           (strtok s3) as [p3 s4], (strtok s4) as [p4 s5].
  destruct p1 as [p1|], p2 as [p2|], p3 as [p3|], p4 as [p4|];
    try (intros [= <-]; split; [done | eauto]).
  unfold loader_route_args.
  intros H. inv_bind H. inv_bind H. inv_bind H.
  destruct a1 as [fixedOut|]; [|injection H as <-; split; [done | eauto]].
  inv_bind H. destruct a1 as [fixedIn|]; [|injection H as <-; split; [done | eauto]].
  destruct (channel_out_of_range (strcmp_eq p2 "all") fixedOut);
    [injection H as <-; split; [done | eauto]|].
  destruct (channel_out_of_range (strcmp_eq p4 "all") fixedIn);
    [injection H as <-; split; [done | eauto]|].
  inv_bind H. injection H as <-. cbn [all_success]. split; [done | congruence].
Qed.

Lemma loader_seq_failed ld lines ld' :
  loader_seq ld lines = Defined ld' -> all_success ld = false -> all_success ld' = false.
Proof.
  unfold loader_seq.
  apply (foldl_bind_rel (fun l l' => all_success l = false -> all_success l' = false)
           process_routing_line); [auto | auto |].
  intros l raw l' _ H. by apply process_routing_line_flags in H as [H _].
Qed.

Lemma loader_seq_app ld a b :
  loader_seq ld (a ++ b) = let* l := loader_seq ld a in loader_seq l b.
Proof.
  unfold loader_seq. rewrite foldl_app.
  destruct (foldl _ (Defined ld) a); cbn [bind]; [done | apply foldl_bind_undefined].
Qed.

(** X21 -- A line of route.rt that fails does not stop the loader.  The line
    prints its complaint and changes no table; the lines after it are
    processed as they would be anyway, routes and all; but the file as a
    whole is then reported as failed and is not echoed. *)
Theorem loader_goes_on_after_failed_line st before bad after ld1 ld2 ld3 again :
  loader_seq (mkLoader st true 0) before = Defined ld1 -> all_success ld1 = true ->
  process_routing_line ld1 bad = Defined ld2 -> all_success ld2 = false ->
  loader_seq ld2 after = Defined ld3 ->
  (exists msg, ld_server ld2 = emit (ld_server ld1) [Ev_printf (msg +:+ NL)]) /\
  process_routing_file st (Some (before ++ bad :: after)) again =
  Defined (emit (ld_server ld3)
             [Ev_printf ("Error processing routing file or no valid commands found." +:+ NL)]).
Proof.
  intros H1 Hok H2 Hbad H3. split.
  - destruct (process_routing_line_flags _ _ _ H2) as [_ Hf].
    destruct (Hf Hok Hbad) as [msg ->]. by exists msg.
  - unfold process_routing_file.
    change (foldl (fun acc raw => let* l := acc in process_routing_line l raw)
                  (Defined (mkLoader st true 0)) (before ++ bad :: after))
      with (loader_seq (mkLoader st true 0) (before ++ bad :: after)).
    rewrite loader_seq_app, H1. cbn [bind]. rewrite loader_seq_cons, H2. cbn [bind].
    rewrite H3. cbn [bind]. by rewrite (loader_seq_failed _ _ _ H3 Hbad).
Qed.

Lemma loader_goes_on_after_failed_line_witness :
  (exists msg, ld_server loader_after = emit (ld_server loader_before) [Ev_printf (msg +:+ NL)]) /\
  process_routing_file init_server
    (Some ([route_line "1" "0" "2" "0"] ++ route_line "1" "9" "2" "0"
           :: [route_line "2" "0" "1" "0"])) None =
  Defined (emit (ld_server loader_end)
             [Ev_printf ("Error processing routing file or no valid commands found." +:+ NL)]).
Proof.
  apply (loader_goes_on_after_failed_line init_server [route_line "1" "0" "2" "0"]
           (route_line "1" "9" "2" "0") [route_line "2" "0" "1" "0"]
           loader_before loader_after loader_end None);
    vm_compute; reflexivity.
Defined.

(** ** Command words *)

Lemma arguments_parts rest :
  arguments rest = true ->
  str_forall (differs NUL) rest = true /\ str_forall (differs LF) rest = true /\
  str_forall (differs CR) rest = true.
Proof.
  unfold arguments. rewrite !str_forall_and. by intros [[? ?]%andb_prop ?]%andb_prop.
Qed.

Lemma word_tail_parts w :
  word_tail w = true ->
  str_forall (differs SP) w = true /\ str_forall (differs NUL) w = true /\
  str_forall (differs LF) w = true /\ str_forall (differs CR) w = true.
Proof.
  unfold word_tail. rewrite !str_forall_and.
  by intros [[[? ?]%andb_prop ?]%andb_prop ?]%andb_prop.
Qed.

Lemma cstr_app_space t r :
  str_forall (differs NUL) t = true -> cstr (t +:+ String SP r) = t +:+ String SP (cstr r).
Proof.
  induction t as [|x t IH]; [done|]. cbn [str_forall String.append cstr].
  unfold differs at 1. intros [H1 H2]%andb_prop. apply negb_true_iff in H1.
  by rewrite H1, IH.
Qed.

Lemma strcmp_spaced t r lit :
  str_forall (differs NUL) t = true -> str_forall (differs NUL) lit = true ->
  str_forall (differs SP) lit = true ->
  strcmp_eq (t +:+ String SP r) lit = false.
Proof.
  intros Ht Hn Hs. unfold strcmp_eq. rewrite cstr_app_space, (cstr_plain lit) by done.
  apply String.eqb_neq. intros Heq.
  apply (f_equal (str_forall (differs SP))) in Heq.
  rewrite str_forall_app, Hs in Heq. cbn in Heq. by rewrite andb_false_r in Heq.
Qed.

Lemma command_line_trim word w rest :
  arguments word = true -> word_tail w = true -> arguments rest = true ->
  trim_newline (((word +:+ w) +:+ String SP rest) +:+ NL) = (word +:+ w) +:+ String SP rest.
Proof.
  intros (A1 & A2 & A3)%arguments_parts (_ & B1 & B2 & B3)%word_tail_parts
         (C1 & C2 & C3)%arguments_parts.
  apply trim_newline_line;
    rewrite !str_forall_app; cbn [str_forall];
    rewrite ?A1, ?A2, ?A3, ?B1, ?B2, ?B3, ?C1, ?C2, ?C3; reflexivity.
Qed.

(** The words of the three commands that take arguments. *)
Lemma command_words st w rest :
  word_tail w = true -> arguments rest = true ->
  handle_console_input st (Some ((("print" +:+ w) +:+ String SP rest) +:+ NL))
  = handle_console_input st (Some ((("print" +:+ "") +:+ String SP rest) +:+ NL)) /\
  handle_console_input st (Some ((("route" +:+ w) +:+ String SP rest) +:+ NL))
  = handle_console_input st (Some ((("route" +:+ "") +:+ String SP rest) +:+ NL)) /\
  handle_console_input st (Some ((("monitor" +:+ w) +:+ String SP rest) +:+ NL))
  = handle_console_input st (Some ((("monitor" +:+ "") +:+ String SP rest) +:+ NL)).
Proof.
  intros Hw Hrest. destruct (word_tail_parts w Hw) as (Hsp & Hnul & _).
  assert (Htok : forall word, is_token word = true -> is_token (word +:+ w) = true).
  { intros word (Hne & W1 & W2 & W3 & W4)%is_token_parts. unfold is_token.
    apply andb_true_intro. split.
    - apply negb_true_iff, String.eqb_neq. by destruct word.
    - destruct (word_tail_parts w Hw) as (B0 & B1 & B2 & B3).
      by rewrite !str_forall_and, !str_forall_app, W1, W2, W3, W4, B0, B1, B2, B3. }
  unfold handle_console_input.
  rewrite !command_line_trim by done.
  split_and!.
  - assert (forall v, strcmp_eq (("print" +:+ v) +:+ String SP rest) "" = false) as ->
        by reflexivity.
    assert (forall v, strcmp_eq (("print" +:+ v) +:+ String SP rest) "help" = false) as ->
        by reflexivity.
    assert (forall v, strcmp_eq (("print" +:+ v) +:+ String SP rest) "list" = false) as ->
        by reflexivity.
    assert (forall v, strcmp_eq (("print" +:+ v) +:+ String SP rest) "routes" = false) as ->
        by reflexivity.
    assert (forall v, strcmp_eq (("print" +:+ v) +:+ String SP rest) "exit" = false) as ->
        by reflexivity.
    assert (forall v, strncmp_eq (("print" +:+ v) +:+ String SP rest) "monitor" 7 = false)
      as -> by reflexivity.
    assert (forall v, strncmp_eq (("print" +:+ v) +:+ String SP rest) "print" 5 = true)
      as -> by reflexivity.
    unfold print_command.
    by rewrite !strtok_token by (apply Htok; reflexivity).
  - assert (forall v, strcmp_eq (("route" +:+ v) +:+ String SP rest) "" = false) as ->
        by reflexivity.
    assert (forall v, strcmp_eq (("route" +:+ v) +:+ String SP rest) "help" = false) as ->
        by reflexivity.
    assert (forall v, strcmp_eq (("route" +:+ v) +:+ String SP rest) "list" = false) as ->
        by reflexivity.
    rewrite !(strcmp_spaced _ rest "routes") by (simpl; done).
    assert (forall v, strcmp_eq (("route" +:+ v) +:+ String SP rest) "exit" = false) as ->
        by reflexivity.
    assert (forall v, strncmp_eq (("route" +:+ v) +:+ String SP rest) "monitor" 7 = false)
      as -> by reflexivity.
    assert (forall v, strncmp_eq (("route" +:+ v) +:+ String SP rest) "print" 5 = false)
      as -> by reflexivity.
    assert (forall v, strncmp_eq (("route" +:+ v) +:+ String SP rest) "route" 5 = true)
      as -> by reflexivity.
    unfold console_route.
    by rewrite !strtok_token by (apply Htok; reflexivity).
  - assert (forall v, strcmp_eq (("monitor" +:+ v) +:+ String SP rest) "" = false) as ->
        by reflexivity.
    assert (forall v, strcmp_eq (("monitor" +:+ v) +:+ String SP rest) "help" = false) as ->
        by reflexivity.
    assert (forall v, strcmp_eq (("monitor" +:+ v) +:+ String SP rest) "list" = false) as ->
        by reflexivity.
    assert (forall v, strcmp_eq (("monitor" +:+ v) +:+ String SP rest) "routes" = false) as ->
        by reflexivity.
    assert (forall v, strcmp_eq (("monitor" +:+ v) +:+ String SP rest) "exit" = false) as ->
        by reflexivity.
    assert (forall v, strncmp_eq (("monitor" +:+ v) +:+ String SP rest) "monitor" 7 = true)
      as -> by reflexivity.
    unfold monitor_fps.
    by rewrite !strtok_token by (apply Htok; reflexivity).
Qed.

(** X12 -- The console knows the commands print, route and monitor by their
    first letters.  Whatever follows these letters in the first word of the
    line is ignored, so that [printer 3] prints client 3 and a line that
    begins with [routes] and goes on with arguments sets a route. *)
Theorem command_known_by_first_letters st w rest :
  word_tail w = true -> arguments rest = true ->
  handle_console_input st (Some (("print" +:+ w +:+ " " +:+ rest) +:+ NL))
  = handle_console_input st (Some (("print " +:+ rest) +:+ NL)) /\
  handle_console_input st (Some (("route" +:+ w +:+ " " +:+ rest) +:+ NL))
  = handle_console_input st (Some (("route " +:+ rest) +:+ NL)) /\
  handle_console_input st (Some (("monitor" +:+ w +:+ " " +:+ rest) +:+ NL))
  = handle_console_input st (Some (("monitor " +:+ rest) +:+ NL)).
Proof.
  intros Hw Hrest. destruct (command_words st w rest Hw Hrest) as (Hp & Hr & Hm).
  replace ("print" +:+ w +:+ " " +:+ rest) with (("print" +:+ w) +:+ String SP rest)
    by (by rewrite append_assoc).
  replace ("route" +:+ w +:+ " " +:+ rest) with (("route" +:+ w) +:+ String SP rest)
    by (by rewrite append_assoc).
  replace ("monitor" +:+ w +:+ " " +:+ rest) with (("monitor" +:+ w) +:+ String SP rest)
    by (by rewrite append_assoc).
  split_and!; [exact Hp | exact Hr | exact Hm].
Qed.

Lemma command_known_by_first_letters_witness :
  handle_console_input two_clients (Some (("print" +:+ "s" +:+ " " +:+ "1 0 2 0") +:+ NL))
  = handle_console_input two_clients (Some (("print " +:+ "1 0 2 0") +:+ NL)) /\
  handle_console_input two_clients (Some (("route" +:+ "s" +:+ " " +:+ "1 0 2 0") +:+ NL))
  = handle_console_input two_clients (Some (("route " +:+ "1 0 2 0") +:+ NL)) /\
  handle_console_input two_clients (Some (("monitor" +:+ "s" +:+ " " +:+ "1 0 2 0") +:+ NL))
  = handle_console_input two_clients (Some (("monitor " +:+ "1 0 2 0") +:+ NL)).
Proof.
  apply (command_known_by_first_letters two_clients "s" "1 0 2 0"); reflexivity.
Defined.
